(** * curate.cpp: the link-curation tool, embedded and verified

    A shallow embedding of [src/curate.cpp].  Day counts ([sys_days]) and C++
    [int]s are integers of [Z]; [std::string] is [string], one [ascii] per
    [char]; a file is the string of its bytes. *)

From Stdlib Require Import ZArith Lia List Bool Ascii String.
From Stdlib Require Import Permutation Sorted OrderedTypeEx.
Import ListNotations.

Local Open Scope string_scope.
Local Open Scope Z_scope.

(** ** The calendar of [std::chrono]

    [sys_days] is a count of days since 1970-01-01.  The two conversions
    between a day count and a [year_month_day] are those of the proleptic
    Gregorian calendar, written as the era/day-of-era computation the
    standard's calendar was specified from; an out-of-range day of the month
    carries over into the following month, as [sys_days{y/m/d}] does. *)

Definition sys_days := Z.

Record year_month_day : Type := YMD { ymd_year : Z; ymd_month : Z; ymd_day : Z }.

Definition days_from_civil (y m d : Z) : sys_days :=
  let y' := if m <=? 2 then y - 1 else y in
  let era := y' / 400 in
  let yoe := y' - era * 400 in
  let mp := if 2 <? m then m - 3 else m + 9 in
  let doy := (153 * mp + 2) / 5 + d - 1 in
  let doe := yoe * 365 + yoe / 4 - yoe / 100 + doy in
  era * 146097 + doe - 719468.

(** The pieces of the inverse conversion: year of the era and day of the year
    from the day of the era, shifted month (March is 0) and day of the month
    from the day of the year. *)
Definition yoe_of_doe (doe : Z) : Z :=
  (doe - doe / 1460 + doe / 36524 - doe / 146096) / 365.

Definition doy_of_doe (doe : Z) : Z :=
  let yoe := yoe_of_doe doe in
  doe - (365 * yoe + yoe / 4 - yoe / 100).

Definition mp_of_doy (doy : Z) : Z := (5 * doy + 2) / 153.

Definition dom_of_doy (doy : Z) : Z := doy - (153 * mp_of_doy doy + 2) / 5 + 1.

Definition civil_from_days (z : sys_days) : year_month_day :=
  let z' := z + 719468 in
  let era := z' / 146097 in
  let doe := z' - era * 146097 in
  let yoe := yoe_of_doe doe in
  let y := yoe + era * 400 in
  let doy := doy_of_doe doe in
  let mp := mp_of_doy doy in
  let d := dom_of_doy doy in
  let m := if mp <? 10 then mp + 3 else mp - 9 in
  YMD (if m <=? 2 then y + 1 else y) m d.

(** [weekday{z}.c_encoding()]: Sunday is 0, Saturday is 6. *)
Definition weekday_c_encoding (z : sys_days) : Z := (z + 4) mod 7.

(** The days on which [year_month_day{sys_days}] is specified. *)
Definition sys_days_ok (z : sys_days) : Prop := -12687428 <= z <= 11248737.

(** Narrowing to a 32-bit [int], as [int(...)] does to a wider count. *)
Definition to_int (x : Z) : Z := (x + 2147483648) mod 4294967296 - 2147483648.

(** ** ISO weeks *)

Record ISOWeek : Type :=
  MkISOWeek { iw_year : Z; iw_week : Z; iw_monday : sys_days; iw_sunday : sys_days }.

Definition days_since_monday (z : sys_days) : Z :=
  if weekday_c_encoding z =? 0 then 6 else weekday_c_encoding z - 1.

Definition week1_monday_of (y : Z) : sys_days :=
  let jan4 := days_from_civil y 1 4 in
  jan4 - days_since_monday jan4.

Definition isoWeekFromDate (z : sys_days) : ISOWeek :=
  let monday := z - days_since_monday z in
  let thursday := monday + 3 in
  let iso_year := ymd_year (civil_from_days thursday) in
  let week1_monday := week1_monday_of iso_year in
  let week_num := 1 + to_int (Z.quot (monday - week1_monday) 7) in
  MkISOWeek iso_year week_num monday (monday + 6).

(** [weekBounds]: [year{y}] keeps a year in 16 bits, from -32767 to 32767;
    the definition is that of the code for such [y]. *)
Definition weekBounds (y w : Z) : ISOWeek :=
  let week1_monday := week1_monday_of y in
  let monday := week1_monday + 7 * (w - 1) in
  MkISOWeek y w monday (monday + 6).

(** ** Characters and strings

    The classification of [<cctype>] in the "C" locale, which the program never
    changes. *)

Definition tab : ascii := "009"%char.
Definition nl : ascii := "010"%char.
Definition dash : ascii := "-"%char.

Definition code_between (lo hi : N) (c : ascii) : bool :=
  ((lo <=? N_of_ascii c) && (N_of_ascii c <=? hi))%N.

Definition isspace (c : ascii) : bool := code_between 9 13 c || code_between 32 32 c.
Definition isdigit (c : ascii) : bool := code_between 48 57 c.
Definition isupper (c : ascii) : bool := code_between 65 90 c.
Definition islower (c : ascii) : bool := code_between 97 122 c.
Definition isalpha (c : ascii) : bool := isupper c || islower c.

Definition toupper (c : ascii) : ascii :=
  if islower c then ascii_of_N (N_of_ascii c - 32) else c.
Definition tolower (c : ascii) : ascii :=
  if isupper c then ascii_of_N (N_of_ascii c + 32) else c.

Definition is_empty (s : string) : bool :=
  match s with EmptyString => true | String _ _ => false end.

(** [trim]: the index [a] skips the leading white space, the index [b] the
    trailing one, and the result is [s.substr(a, b-a)]. *)
Fixpoint skip_leading_space (s : string) : string :=
  match s with
  | EmptyString => EmptyString
  | String c r => if isspace c then skip_leading_space r else s
  end.

Fixpoint drop_trailing_space (s : string) : string :=
  match s with
  | EmptyString => EmptyString
  | String c r =>
      let t := drop_trailing_space r in
      if is_empty t && isspace c then EmptyString else String c t
  end.

Definition trim (s : string) : string := drop_trailing_space (skip_leading_space s).

(** [splitTabs]: [cur] collects the characters of the current column. *)
Fixpoint splitTabs_from (cur line : string) : list string :=
  match line with
  | EmptyString => [cur]
  | String c r =>
      if Ascii.eqb c tab then cur :: splitTabs_from EmptyString r
      else splitTabs_from (cur ++ String c EmptyString) r
  end.

Definition splitTabs (line : string) : list string := splitTabs_from EmptyString line.

Fixpoint joinTabs (cols : list string) : string :=
  match cols with
  | [] => EmptyString
  | [c] => c
  | c :: rest => c ++ String tab (joinTabs rest)
  end.

(** The lines [std::getline] yields from a stream holding [s]: every line that
    ends in a newline, and the rest after the last newline when it is not
    empty. *)
Fixpoint getlines_from (cur s : string) : list string :=
  match s with
  | EmptyString => if is_empty cur then [] else [cur]
  | String c r =>
      if Ascii.eqb c nl then cur :: getlines_from EmptyString r
      else getlines_from (cur ++ String c EmptyString) r
  end.

Definition getlines (s : string) : list string := getlines_from EmptyString s.

(** [s] holds none of the characters [p] picks. *)
Definition free_of (p : ascii -> bool) (s : string) : bool :=
  forallb (fun c => negb (p c)) (list_ascii_of_string s).

(** ** Numbers as text *)

Definition digit_char (k : Z) : ascii := ascii_of_N (48 + Z.to_N k).
Definition digit_val (c : ascii) : Z := Z.of_N (N_of_ascii c) - 48.

(** [operator<<] on a non-negative integer: its decimal digits, the last one
    first; [fuel] bounds the number of digits. *)
Fixpoint show_digits (fuel : nat) (n : Z) (acc : string) : string :=
  match fuel with
  | O => acc
  | S f =>
      let acc' := String (digit_char (n mod 10)) acc in
      if n / 10 =? 0 then acc' else show_digits f (n / 10) acc'
  end.

Definition show_nonneg (n : Z) : string :=
  show_digits (S (Z.to_nat (Z.log2 n))) n EmptyString.

Definition show_int (n : Z) : string :=
  if n <? 0 then String dash (show_nonneg (- n)) else show_nonneg n.

Fixpoint fill (k : nat) (c : ascii) (s : string) : string :=
  match k with
  | O => s
  | S k' => String c (fill k' c s)
  end.

(** [setw(w) << setfill(c)] before a number: padding on the left. *)
Definition setw_fill (w : nat) (c : ascii) (s : string) : string :=
  fill (w - String.length s) c s.

(** [std::stoi] on a string of decimal digits. *)
Fixpoint stoi_from (acc : Z) (s : string) : Z :=
  match s with
  | EmptyString => acc
  | String c r => stoi_from (acc * 10 + digit_val c) r
  end.

Definition stoi (s : string) : Z := stoi_from 0 s.

(** ** Dates as text *)

Definition all_digits (s : string) : bool :=
  forallb isdigit (list_ascii_of_string s).

(** [std::regex_match] against [^(\d{4})-(\d{2})-(\d{2})$]: the three groups. *)
Definition match_iso_date (s : string) : option (string * string * string) :=
  let y := substring 0 4 s in
  let m := substring 5 2 s in
  let d := substring 8 2 s in
  if (String.length s =? 10)%nat
     && all_digits y && all_digits m && all_digits d
     && String.eqb (substring 4 1 s) "-" && String.eqb (substring 7 1 s) "-"
  then Some (y, m, d) else None.

Definition parseISODate (s : string) : option sys_days :=
  match match_iso_date s with
  | None => None
  | Some (gy, gm, gd) =>
      let y := stoi gy in
      let mo := stoi gm in
      let d := stoi gd in
      if (mo <? 1) || (12 <? mo) || (d <? 1) || (31 <? d) then None
      else
        let z := days_from_civil y mo d in
        let ymd := civil_from_days z in
        if negb (ymd_year ymd =? y) || negb (ymd_month ymd =? mo) || negb (ymd_day ymd =? d)
        then None
        else Some z
  end.

(** The text of a date, as [fmtDate] writes it. *)
Definition date_text (y m d : Z) : string :=
  show_int y ++ "-" ++ setw_fill 2 "0" (show_int m) ++ "-" ++ setw_fill 2 "0" (show_int d).

Definition fmtDate (z : sys_days) : string :=
  let ymd := civil_from_days z in
  show_int (ymd_year ymd) ++ "-" ++ setw_fill 2 "0" (show_int (ymd_month ymd))
    ++ "-" ++ setw_fill 2 "0" (show_int (ymd_day ymd)).

(** [todayISO]: the same text for the day [now] the clock reads. *)
Definition todayISO (now : sys_days) : string :=
  let ymd := civil_from_days now in
  show_int (ymd_year ymd) ++ "-" ++ setw_fill 2 "0" (show_int (ymd_month ymd))
    ++ "-" ++ setw_fill 2 "0" (show_int (ymd_day ymd)).

(** ** The record model and the inbox file *)

Record Rec : Type :=
  MkRec { date : sys_days; kind : string; url : string; title : string; tags : string }.

(** One turn of the loop of [loadInbox]: the record a line yields, if any.
    [now] is the day the clock reads, which [todayISO] formats. *)
Definition load_line (now : sys_days) (line : string) : option Rec :=
  if is_empty (trim line) then None
  else
    let cols := splitTabs line in
    let sdate := match cols with c0 :: _ => c0 | [] => todayISO now end in
    match parseISODate (trim sdate) with
    | None => None
    | Some d =>
        Some (MkRec d (nth 1 cols "link") (nth 2 cols "") (nth 3 cols "") (nth 4 cols ""))
    end.

Fixpoint load_lines (now : sys_days) (lines : list string) : list Rec :=
  match lines with
  | [] => []
  | line :: rest =>
      match load_line now line with
      | Some r => r :: load_lines now rest
      | None => load_lines now rest
      end
  end.

(** [loadInbox]: [inbox] is the content of inbox.tsv, [None] when the file does
    not exist. *)
Definition loadInbox (now : sys_days) (inbox : option string) : list Rec :=
  match inbox with
  | None => []
  | Some content => load_lines now (getlines content)
  end.

(** No text field of the record holds a character that [p] picks. *)
Definition text_fields_free (p : ascii -> bool) (r : Rec) : bool :=
  free_of p (kind r) && free_of p (url r) && free_of p (title r) && free_of p (tags r).

(** The line [appendInbox] writes for a record, without its newline. *)
Definition inbox_line (r : Rec) : string :=
  joinTabs [fmtDate (date r); kind r; url r; title r; tags r].

(** [appendInbox]: [can_open] tells whether the file opens for appending; the
    result is the value returned and the content of the file afterwards. *)
Definition appendInbox (can_open : bool) (inbox : option string) (r : Rec)
  : bool * option string :=
  if can_open then
    let old := match inbox with Some content => content | None => EmptyString end in
    (true, Some (old ++ inbox_line r ++ String nl EmptyString))
  else (false, inbox).

(** ** Regular expressions

    The patterns of rules.tsv are compiled by [std::regex] with [icase]; a
    compiled pattern is a term of [regex] (the constructs without anchors,
    groups being transparent), matched by derivatives. *)

Inductive regex : Type :=
| RNone : regex
| REps : regex
| RChar : ascii -> regex
| RAny : regex
| RCat : regex -> regex -> regex
| RAlt : regex -> regex -> regex
| RStar : regex -> regex.

(** Under [icase] pattern and input characters are compared after
    [tolower]; [.] matches any character but a line terminator. *)
Definition char_matches (r : regex) (c : ascii) : bool :=
  match r with
  | RChar a => Ascii.eqb (tolower a) (tolower c)
  | RAny => negb (Ascii.eqb c nl) && negb (Ascii.eqb c "013"%char)
  | _ => false
  end.

Fixpoint nullable (r : regex) : bool :=
  match r with
  | RNone => false
  | REps => true
  | RChar _ => false
  | RAny => false
  | RCat a b => nullable a && nullable b
  | RAlt a b => nullable a || nullable b
  | RStar _ => true
  end.

Fixpoint deriv (c : ascii) (r : regex) : regex :=
  match r with
  | RNone => RNone
  | REps => RNone
  | RChar _ => if char_matches r c then REps else RNone
  | RAny => if char_matches r c then REps else RNone
  | RCat a b =>
      if nullable a then RAlt (RCat (deriv c a) b) (deriv c b)
      else RCat (deriv c a) b
  | RAlt a b => RAlt (deriv c a) (deriv c b)
  | RStar a => RCat (deriv c a) (RStar a)
  end.

(** [std::regex_match]: the whole of [s] matches. *)
Fixpoint regex_match (s : string) (r : regex) : bool :=
  match s with
  | EmptyString => nullable r
  | String c rest => regex_match rest (deriv c r)
  end.

(** Some prefix of [s] matches. *)
Fixpoint regex_match_prefix (s : string) (r : regex) : bool :=
  nullable r ||
  match s with
  | EmptyString => false
  | String c rest => regex_match_prefix rest (deriv c r)
  end.

(** [std::regex_search]: a match that starts at some position of [s]. *)
Fixpoint regex_search (s : string) (r : regex) : bool :=
  regex_match_prefix s r ||
  match s with
  | EmptyString => false
  | String _ rest => regex_search rest r
  end.

Record Rule : Type := MkRule { rule_re : regex; rule_kind : string }.

(** [detectKind]: [RULES] is the rule list loaded once per process. *)
Fixpoint detectKind (RULES : list Rule) (u : string) : string :=
  match RULES with
  | [] => "article"
  | r :: rest => if regex_search u (rule_re r) then rule_kind r else detectKind rest u
  end.

(** ** Tags *)

Definition isAllCapsWord (s : string) : bool :=
  forallb (fun c => negb (isalpha c) || isupper c) (list_ascii_of_string s)
  && existsb isalpha (list_ascii_of_string s).

Definition hash : ascii := "#"%char.

Definition normalizeTagDisplayOne (t : string) : string :=
  let t := trim t in
  match t with
  | EmptyString => t
  | String c0 r0 =>
      let hadHash := Ascii.eqb c0 hash in
      let t := if hadHash then r0 else t in
      let prefix := if hadHash then String hash EmptyString else EmptyString in
      if isAllCapsWord t then prefix ++ t
      else
        match t with
        | EmptyString => prefix ++ t
        | String c r => prefix ++ String (toupper c) r
        end
  end.

(** [splitTags]: the words [operator>>] extracts, [cur] being the word read so
    far. *)
Fixpoint splitTags_from (cur s : string) : list string :=
  match s with
  | EmptyString => if is_empty cur then [] else [cur]
  | String c r =>
      if isspace c then
        if is_empty cur then splitTags_from EmptyString r
        else cur :: splitTags_from EmptyString r
      else splitTags_from (cur ++ String c EmptyString) r
  end.

Definition splitTags (s : string) : list string := splitTags_from EmptyString s.

Fixpoint join_with (sep : string) (l : list string) : string :=
  match l with
  | [] => EmptyString
  | [x] => x
  | x :: rest => x ++ sep ++ join_with sep rest
  end.

(** The loop of [normalizeTagsForStorage]: [seen] is the set of tags already
    kept. *)
Fixpoint clean_tags (seen : list string) (raw : list string) : list string :=
  match raw with
  | [] => []
  | t :: rest =>
      let t := trim t in
      if is_empty t then clean_tags seen rest
      else
        let t := match t with
                 | String c _ => if Ascii.eqb c hash then t else String hash t
                 | EmptyString => t
                 end in
        if existsb (String.eqb t) seen then clean_tags seen rest
        else t :: clean_tags (t :: seen) rest
  end.

Definition normalizeTagsForStorage (raw : list string) : string :=
  join_with " " (clean_tags [] raw).

(** ** The command [add] *)

(** The fields of [Args] that [add] and [clear-inbox] read. *)
Record Args : Type :=
  MkArgs { cmd : string;
           arg_url : string; addTags : list string; addTitle : string;
           addDateISO : option string;
           archiveDir : string }.

(** [cmd_add]: the exit code, the inbox afterwards and the text printed.  The
    result is [None] when the program dereferences an empty [optional], which
    has no defined behaviour. *)
Definition cmd_add (RULES : list Rule) (now : sys_days) (can_open : bool)
    (inbox : option string) (a : Args) : option (Z * option string * string) :=
  let sdate := match addDateISO a with Some s => s | None => todayISO now end in
  match parseISODate sdate with
  | None => None
  | Some d =>
      let r := MkRec d (detectKind RULES (arg_url a)) (arg_url a) (addTitle a)
                     (normalizeTagsForStorage (addTags a)) in
      let '(ok, inbox') := appendInbox can_open inbox r in
      if ok then
        Some (0, inbox',
              "Added: " ++ fmtDate (date r) ++ String tab (kind r) ++ String tab (url r)
                ++ String tab (title r) ++ String tab (tags r) ++ String nl EmptyString)
      else Some (1, inbox', EmptyString)
  end.

(** ** Rendering *)

Fixpoint skip_slashes (s : string) : string :=
  match s with
  | EmptyString => EmptyString
  | String c r => if Ascii.eqb c "/" then skip_slashes r else s
  end.

Fixpoint until_slash (s : string) : string :=
  match s with
  | EmptyString => EmptyString
  | String c r => if Ascii.eqb c "/" then EmptyString else String c (until_slash r)
  end.

Fixpoint prefix_nocase (p s : string) : option string :=
  match p, s with
  | EmptyString, _ => Some s
  | String a p', String c s' =>
      if Ascii.eqb (tolower a) (tolower c) then prefix_nocase p' s' else None
  | String _ _, EmptyString => None
  end.

(** [urlDomain]: the first group of the leftmost match of
    [(?:https?://)?([^/]+)], case being ignored.  The match starts at the
    first character that is not a slash; the scheme is skipped when a host
    follows it. *)
Definition urlDomain (u : string) : string :=
  let s := skip_slashes u in
  if is_empty s then u
  else
    let after_scheme :=
      match prefix_nocase "https://" s with
      | Some r => Some r
      | None => prefix_nocase "http://" s
      end in
    match after_scheme with
    | Some r => if is_empty (until_slash r) then until_slash s else until_slash r
    | None => until_slash s
    end.

(** The separator [" — "]: a space, the three bytes of the dash, a space. *)
Definition emdash : string :=
  String " " (String "226" (String "128" (String "148" (String " " EmptyString)))).

Definition recLineMarkdown (r : Rec) : string :=
  let t := trim (title r) in
  let tgs := splitTags (tags r) in
  "- [" ++ urlDomain (url r) ++ "](" ++ url r ++ ")" ++ emdash ++ "*" ++ kind r ++ "*"
    ++ (if is_empty t then EmptyString else emdash ++ t)
    ++ (match tgs with
        | [] => EmptyString
        | _ => emdash ++ join_with " " (map normalizeTagDisplayOne tgs)
        end).

(** [std::map<string, vector<const Rec*>>]: the keys in ascending order of
    [std::string], which compares bytes; [map_push k v m] is
    [m[k].push_back(v)]. *)
Definition TagMap := list (string * list Rec).

Fixpoint map_push (k : string) (v : Rec) (m : TagMap) : TagMap :=
  match m with
  | [] => [(k, [v])]
  | (k', vs) :: rest =>
      match String.compare k k' with
      | Lt => (k, [v]) :: m
      | Eq => (k', vs ++ [v])%list :: rest
      | Gt => (k', vs) :: map_push k v rest
      end
  end.

Definition push_tags (r : Rec) (m : TagMap) : TagMap :=
  fold_left (fun m t =>
               let disp := normalizeTagDisplayOne t in
               if is_empty disp then m else map_push disp r m)
            (splitTags (tags r)) m.

Definition byTag_of (rows : list Rec) : TagMap :=
  fold_left (fun m r => push_tags r m) rows [].

Fixpoint concat_str (l : list string) : string :=
  match l with
  | [] => EmptyString
  | x :: rest => x ++ concat_str rest
  end.

Definition render_group (g : string * list Rec) : string :=
  "### " ++ fst g ++ String nl
    (concat_str (map (fun r => recLineMarkdown r ++ String nl EmptyString) (snd g))
     ++ String nl EmptyString).

Definition renderGroupedByTagsMarkdown (rows : list Rec) : string :=
  let byTag := byTag_of rows in
  "## By Tag" ++ String nl (String nl
    (concat_str (map render_group byTag)
     ++ (match byTag with
         | [] => "(No tags in range)" ++ String nl EmptyString
         | _ => EmptyString
         end))).

(** The tags of the rows with the records that carry them, in the order of the
    rows and of the tags of a row, each tag in its display form. *)
Definition tag_entries (rows : list Rec) : list (string * Rec) :=
  flat_map (fun r => map (fun t => (normalizeTagDisplayOne t, r)) (splitTags (tags r))) rows.

(** The records listed under a heading. *)
Fixpoint group_at (k : string) (m : TagMap) : list Rec :=
  match m with
  | [] => []
  | (k', vs) :: rest => if String.eqb k' k then vs else group_at k rest
  end.

(** The headings of a tag map. *)
Definition keys (m : TagMap) : list string := map fst m.

(** One [push_back] of the loop of the renderer. *)
Definition push_entry (m : TagMap) (e : string * Rec) : TagMap :=
  map_push (fst e) (snd e) m.

(** No row carries a tag. *)
Definition no_tags (rows : list Rec) : bool :=
  forallb (fun r => match splitTags (tags r) with [] => true | _ :: _ => false end) rows.

Definition str_lt (a b : string) : Prop := String.compare a b = Lt.

(** ** The sort of the library

    [std::sort] as libstdc++ implements it, the library of the compiler that
    the build line of the program names: an introsort, which partitions ranges
    of more than 16 elements around a median of three and sorts by heap below
    its depth limit, followed by an insertion sort.  A vector is a list,
    iterators are positions in it, and the loops run on a count of their
    turns. *)

Section LibSort.

Local Open Scope nat_scope.

Variable A : Type.
Variable comp : A -> A -> bool.

Fixpoint set_at (v : list A) (i : nat) (x : A) : list A :=
  match v, i with
  | [], _ => []
  | _ :: t, O => x :: t
  | y :: t, S k => y :: set_at t k x
  end.

(** [__comp(i, j)] on two positions. *)
Definition comp_at (v : list A) (i j : nat) : bool :=
  match nth_error v i, nth_error v j with
  | Some x, Some y => comp x y
  | _, _ => false
  end.

Definition comp_val_at (v : list A) (x : A) (j : nat) : bool :=
  match nth_error v j with
  | Some y => comp x y
  | None => false
  end.

Definition comp_at_val (v : list A) (i : nat) (y : A) : bool :=
  match nth_error v i with
  | Some x => comp x y
  | None => false
  end.

(** [*i = *j]. *)
Definition move_at (v : list A) (i j : nat) : list A :=
  match nth_error v j with
  | Some y => set_at v i y
  | None => v
  end.

Definition iter_swap (v : list A) (i j : nat) : list A :=
  match nth_error v i, nth_error v j with
  | Some x, Some y => set_at (set_at v i y) j x
  | _, _ => v
  end.

Definition move_median_to_first (v : list A) (result a b c : nat) : list A :=
  if comp_at v a b then
    if comp_at v b c then iter_swap v result b
    else if comp_at v a c then iter_swap v result c
    else iter_swap v result a
  else if comp_at v a c then iter_swap v result a
  else if comp_at v b c then iter_swap v result c
  else iter_swap v result b.

Fixpoint scan_up (n : nat) (v : list A) (first pivot : nat) : nat :=
  match n with
  | O => first
  | S k => if comp_at v first pivot then scan_up k v (S first) pivot else first
  end.

Fixpoint scan_down (n : nat) (v : list A) (last pivot : nat) : nat :=
  match n with
  | O => last
  | S k => if comp_at v pivot last then scan_down k v (pred last) pivot else last
  end.

Fixpoint unguarded_partition (n : nat) (v : list A) (first last pivot : nat)
  : list A * nat :=
  match n with
  | O => (v, first)
  | S k =>
      let first := scan_up (List.length v) v first pivot in
      let last := scan_down (List.length v) v (pred last) pivot in
      if first <? last then unguarded_partition k (iter_swap v first last) (S first) last pivot
      else (v, first)
  end.

Definition unguarded_partition_pivot (v : list A) (first last : nat) : list A * nat :=
  let mid := first + (last - first) / 2 in
  let v := move_median_to_first v first (first + 1) mid (last - 1) in
  unguarded_partition (List.length v) v (first + 1) last first.

Fixpoint push_heap (n : nat) (v : list A) (first hole top : nat) (value : A) : list A :=
  match n with
  | O => set_at v (first + hole) value
  | S k =>
      let parent := (hole - 1) / 2 in
      if (top <? hole) && comp_at_val v (first + parent) value
      then push_heap k (move_at v (first + hole) (first + parent)) first parent top value
      else set_at v (first + hole) value
  end.

Fixpoint sift_down (n : nat) (v : list A) (first hole second len : nat)
  : list A * nat * nat :=
  match n with
  | O => (v, hole, second)
  | S k =>
      if second <? (len - 1) / 2 then
        let second := 2 * (second + 1) in
        let second := if comp_at v (first + second) (first + (second - 1))
                      then second - 1 else second in
        sift_down k (move_at v (first + hole) (first + second)) first second second len
      else (v, hole, second)
  end.

Definition adjust_heap (v : list A) (first hole len : nat) (value : A) : list A :=
  let top := hole in
  let '(v, hole, second) := sift_down len v first hole hole len in
  let '(v, hole) :=
    if Nat.even len && (second =? (len - 2) / 2) then
      let second := 2 * (second + 1) in
      (move_at v (first + hole) (first + (second - 1)), second - 1)
    else (v, hole) in
  push_heap len v first hole top value.

Definition pop_heap (v : list A) (first last result : nat) : list A :=
  match nth_error v result with
  | Some value => adjust_heap (move_at v result first) first 0 (last - first) value
  | None => v
  end.

Fixpoint make_heap_from (n : nat) (v : list A) (first len parent : nat) : list A :=
  match n with
  | O => v
  | S k =>
      match nth_error v (first + parent) with
      | Some value =>
          let v := adjust_heap v first parent len value in
          if parent =? 0 then v else make_heap_from k v first len (parent - 1)
      | None => v
      end
  end.

Definition make_heap (v : list A) (first last : nat) : list A :=
  if last - first <? 2 then v
  else let len := last - first in make_heap_from len v first len ((len - 2) / 2).

Fixpoint sort_heap (n : nat) (v : list A) (first last : nat) : list A :=
  match n with
  | O => v
  | S k =>
      if 1 <? last - first then
        let last := last - 1 in
        sort_heap k (pop_heap v first last last) first last
      else v
  end.

Fixpoint heap_select_from (n : nat) (v : list A) (first middle i : nat) : list A :=
  match n with
  | O => v
  | S k =>
      let v := if comp_at v i first then pop_heap v first middle i else v in
      heap_select_from k v first middle (S i)
  end.

Definition heap_select (v : list A) (first middle last : nat) : list A :=
  heap_select_from (last - middle) (make_heap v first middle) first middle middle.

Definition partial_sort (v : list A) (first middle last : nat) : list A :=
  let v := heap_select v first middle last in
  sort_heap (middle - first) v first middle.

Fixpoint introsort_loop (depth_limit : nat) (v : list A) (first last : nat) : list A :=
  if 16 <? last - first then
    match depth_limit with
    | O => partial_sort v first last last
    | S d =>
        let '(v, cut) := unguarded_partition_pivot v first last in
        let v := introsort_loop d v cut last in
        introsort_loop d v first cut
    end
  else v.

(** [__unguarded_linear_insert]: [val] goes down from [last] past the elements
    it is less than. *)
Fixpoint unguarded_linear_insert_from (n : nat) (v : list A) (last : nat) (val : A)
  : list A :=
  match n with
  | O => set_at v last val
  | S k =>
      let next := pred last in
      if comp_val_at v val next
      then unguarded_linear_insert_from k (move_at v last next) next val
      else set_at v last val
  end.

Definition unguarded_linear_insert (v : list A) (last : nat) : list A :=
  match nth_error v last with
  | Some val => unguarded_linear_insert_from last v last val
  | None => v
  end.

(** [std::move_backward(first, i, i + 1)] and [*first = val]. *)
Definition rotate_to_first (v : list A) (first i : nat) : list A :=
  match nth_error v i with
  | Some val =>
      firstn first v ++ val :: firstn (i - first) (skipn first v) ++ skipn (S i) v
  | None => v
  end.

Fixpoint insertion_sort_from (n : nat) (v : list A) (first i : nat) : list A :=
  match n with
  | O => v
  | S k =>
      let v := if comp_at v i first then rotate_to_first v first i
               else unguarded_linear_insert v i in
      insertion_sort_from k v first (S i)
  end.

Definition insertion_sort (v : list A) (first last : nat) : list A :=
  if first =? last then v else insertion_sort_from (last - (first + 1)) v first (first + 1).

Fixpoint unguarded_insertion_sort_from (n : nat) (v : list A) (i : nat) : list A :=
  match n with
  | O => v
  | S k => unguarded_insertion_sort_from k (unguarded_linear_insert v i) (S i)
  end.

Definition unguarded_insertion_sort (v : list A) (first last : nat) : list A :=
  unguarded_insertion_sort_from (last - first) v first.

Definition final_insertion_sort (v : list A) (first last : nat) : list A :=
  if 16 <? last - first then
    unguarded_insertion_sort (insertion_sort v first (first + 16)) (first + 16) last
  else insertion_sort v first last.

(** [std::sort(v.begin(), v.end(), comp)]. *)
Definition libstdcxx_sort (v : list A) : list A :=
  match v with
  | [] => v
  | _ =>
      let n := List.length v in
      final_insertion_sort (introsort_loop (Nat.log2 n * 2) v 0 n) 0 n
  end.

End LibSort.

(** ** Filtering

    [std::sort] is specified by what it returns, a rearrangement of its input
    in the order of the comparison, and equal elements may come out in any
    order; [filterByDateRange] is written over the function that stands for
    it. *)

Section Filtering.

Variable std_sort : (Rec -> Rec -> bool) -> list Rec -> list Rec.

Definition filterByDateRange (all : list Rec) (a b : sys_days) : list Rec :=
  let out := filter (fun r => (a <=? date r) && (date r <=? b)) all in
  std_sort (fun x y => date x <? date y) out.

End Filtering.

(** What [std::sort] promises for a comparison of integer keys. *)
Definition sorts_by_key (srt : (Rec -> Rec -> bool) -> list Rec -> list Rec) : Prop :=
  forall (key : Rec -> Z) (l : list Rec),
    Permutation l (srt (fun x y => key x <? key y) l)
    /\ StronglySorted (fun x y => key x <= key y) (srt (fun x y => key x <? key y) l).

(** A sort that keeps that promise: insertion from the back of the input, each
    element going behind its equals. *)
Fixpoint insert_behind (comp : Rec -> Rec -> bool) (x : Rec) (l : list Rec) : list Rec :=
  match l with
  | [] => [x]
  | y :: t => if comp x y then x :: l else y :: insert_behind comp x t
  end.

Definition sort_behind (comp : Rec -> Rec -> bool) (l : list Rec) : list Rec :=
  fold_right (insert_behind comp) [] l.

(** Stability, as the claim words it: the records of one date stand in the
    result in the order they had in the input. *)
Definition keeps_order_of_equal_dates (input out : list Rec) : Prop :=
  forall d, filter (fun r => date r =? d) out = filter (fun r => date r =? d) input.

(** ** The command [clear-inbox]

    A file is named by its directory and its name; the file system maps the
    files that exist to their content. *)

Record path : Type := MkPath { dir : string; name : string }.

Definition path_eqb (p q : path) : bool :=
  String.eqb (dir p) (dir q) && String.eqb (name p) (name q).

Definition FS := path -> option string.

Definition fs_set (p : path) (c : option string) (fs : FS) : FS :=
  fun q => if path_eqb q p then c else fs q.

Definition inboxPath (home : string) : path := MkPath home "inbox.tsv".

(** What the environment decides in a run of [clear-inbox]: whether the
    directory of the state and the archive directory can be made, whether
    [rename] works, whether [copy_file] works and what a failed copy leaves at
    the destination, and whether the inbox opens for writing. *)
Inductive copy_outcome : Type :=
| CopyDone : copy_outcome
| CopyFailed (left_behind : option string) : copy_outcome.

Record Faults : Type :=
  MkFaults { home_dir_ok : bool; archive_dir_ok : bool; rename_ok : bool;
             copy_file : copy_outcome; open_ok : bool }.

(** How a run ends: with an exit code, or by the exception that
    [create_directories] throws. *)
Inductive outcome : Type :=
| Exit (code : Z) : outcome
| Thrown : outcome.

Definition archivePath (home stamp : string) (a : Args) : path :=
  let arch := if is_empty (archiveDir a) then home ++ "/archive" else archiveDir a in
  MkPath arch ("inbox-" ++ stamp ++ ".tsv").

(** [ofstream o(inboxPath())] and [ofstream o(inboxPath(), ios::trunc)]: the
    inbox is empty afterwards when the file opens. *)
Definition truncate_inbox (f : Faults) (home : string) (fs : FS) : FS :=
  if open_ok f then fs_set (inboxPath home) (Some EmptyString) fs else fs.

(** [cmd_clear_inbox]: [home] is the directory of the state, [stamp] the local
    time as [strftime] writes it; the messages printed are left out. *)
Definition cmd_clear_inbox (home stamp : string) (f : Faults) (a : Args) (fs : FS)
  : outcome * FS :=
  if negb (home_dir_ok f) then (Thrown, fs)
  else
    match fs (inboxPath home) with
    | None => (Exit 0, truncate_inbox f home fs)
    | Some content =>
        if negb (archive_dir_ok f) then (Thrown, fs)
        else
          let dest := archivePath home stamp a in
          if rename_ok f then
            let fs1 := fs_set dest (Some content) (fs_set (inboxPath home) None fs) in
            (Exit 0, truncate_inbox f home fs1)
          else
            match copy_file f with
            | CopyFailed left_behind => (Exit 2, fs_set dest left_behind fs)
            | CopyDone =>
                let fs1 := fs_set dest (Some content) fs in
                (Exit 0, truncate_inbox f home fs1)
            end
    end.

(** A file holds complete lines when it is empty or its last character is a
    newline. *)
Fixpoint ends_with_nl (s : string) : bool :=
  match s with
  | EmptyString => false
  | String c EmptyString => Ascii.eqb c nl
  | String _ r => ends_with_nl r
  end.

Definition complete_lines (s : string) : bool := is_empty s || ends_with_nl s.

(** A line is blank when it holds white space only. *)
Definition blank (line : string) : bool := forallb isspace (list_ascii_of_string line).

(** The record of a line, as the log format describes it: nothing for a blank
    line or a line whose first column, white space around it apart, is not a
    calendar date; otherwise the date with the columns that follow, a missing
    kind being ["link"] and any other missing column empty. *)
Definition line_record (line : string) : option Rec :=
  let cols := splitTabs line in
  if blank line then None
  else
    match parseISODate (trim (nth 0 cols "")) with
    | None => None
    | Some d =>
        Some (MkRec d (nth 1 cols "link") (nth 2 cols "") (nth 3 cols "") (nth 4 cols ""))
    end.

Definition records_of_lines (lines : list string) : list Rec :=
  flat_map (fun line => match line_record line with Some r => [r] | None => [] end) lines.

(** The strings a pattern matches in full. *)
Inductive matches : regex -> string -> Prop :=
| MEps : matches REps ""
| MChar a c : char_matches (RChar a) c = true -> matches (RChar a) (String c "")
| MAny c : char_matches RAny c = true -> matches RAny (String c "")
| MCat a b s t : matches a s -> matches b t -> matches (RCat a b) (s ++ t)
| MAltL a b s : matches a s -> matches (RAlt a b) s
| MAltR a b s : matches b s -> matches (RAlt a b) s
| MStarNil a : matches (RStar a) ""
| MStarApp a s t : matches a s -> matches (RStar a) t -> matches (RStar a) (s ++ t).

(** ** ISO week labels *)

(** [std::regex_match] against [^(\d{4})-W(\d{2})$]: the two groups. *)
Definition match_iso_week (s : string) : option (string * string) :=
  let y := substring 0 4 s in
  let w := substring 6 2 s in
  if (String.length s =? 8)%nat && all_digits y && all_digits w
     && String.eqb (substring 4 2 s) "-W"
  then Some (y, w) else None.

Definition parseISOWeekStr (s : string) : option (Z * Z) :=
  match match_iso_week s with
  | None => None
  | Some (gy, gw) =>
      let y := stoi gy in
      let w := stoi gw in
      if (w <? 1) || (53 <? w) then None else Some (y, w)
  end.

Definition fmtISOWeek (y w : Z) : string :=
  show_int y ++ "-W" ++ setw_fill 2 "0" (show_int w).

(** ** The range of a digest *)

(** The fields of [Args] that [digest] reads. *)
Record DigestArgs : Type :=
  MkDigestArgs { groupTags : bool; tagsOnly : bool; pd : bool; noHeader : bool;
                 week : option (Z * Z); start : option sys_days; end_ : option sys_days;
                 outPath : string }.

(** [computeRange]: the two bounds and the label; [now] is the day the clock
    reads. *)
Definition computeRange (now : sys_days) (a : DigestArgs)
  : (sys_days * sys_days) * string :=
  match start a, end_ a with
  | Some s, Some e => ((s, e), fmtDate s ++ " to " ++ fmtDate e)
  | _, _ =>
      match week a with
      | Some (y, w) =>
          let wb := weekBounds y w in
          ((iw_monday wb, iw_sunday wb), fmtISOWeek (iw_year wb) (iw_week wb))
      | None =>
          let w := isoWeekFromDate now in
          ((iw_monday w, iw_sunday w), fmtISOWeek (iw_year w) (iw_week w))
      end
  end.

Definition isalnum (c : ascii) : bool := isalpha c || isdigit c.

(** The loop of [safeBaseFromRangeLabel] that writes [_to_] over each [" to "]
    it finds from the left; [skip] counts the characters of a replacement
    still to pass. *)
Fixpoint replace_to (skip : nat) (s : string) : string :=
  match s with
  | EmptyString => EmptyString
  | String c r =>
      match skip with
      | S k => replace_to k r
      | O =>
          if prefix " to " s then "_to_" ++ replace_to 3 r
          else String c (replace_to 0 r)
      end
  end.

Fixpoint map_chars (f : ascii -> ascii) (s : string) : string :=
  match s with
  | EmptyString => EmptyString
  | String c r => String (f c) (map_chars f r)
  end.

Definition safe_char (c : ascii) : bool :=
  isalnum c || Ascii.eqb c "-" || Ascii.eqb c "_".

Definition safeBaseFromRangeLabel (label : string) : string :=
  let s := replace_to 0 label in
  let s := map_chars (fun c => if safe_char c then c else "-"%char) s in
  if is_empty s then "digest" else s.

Fixpoint ends_with_slash (s : string) : bool :=
  match s with
  | EmptyString => false
  | String c EmptyString => Ascii.eqb c "/"
  | String _ r => ends_with_slash r
  end.

(** [digestsDir]: [curateHome() / "digests"]; [operator/] puts a slash between
    the two when the first is not empty and does not end in one. *)
Definition digestsDir (home : string) : string :=
  if is_empty home then "digests"
  else if ends_with_slash home then home ++ "digests"
       else home ++ "/digests".

Definition defaultDigestPath (home rangeLabel : string) (html : bool) : path :=
  MkPath (digestsDir home)
         (safeBaseFromRangeLabel rangeLabel ++ (if html then ".html" else ".md")).

(** ** The rules file *)

Section Rules.

(** [std::regex(pattern, icase | optimize)]: the compiled pattern, or nothing
    when the constructor throws [regex_error]. *)
Variable compile : string -> option regex.

(** One turn of the loop of [loadRules]: the rule a line yields, if any. *)
Definition rule_of_line (line : string) : option Rule :=
  let s := trim line in
  match s with
  | EmptyString => None
  | String c _ =>
      if Ascii.eqb c hash then None
      else
        let cols := splitTabs s in
        if (List.length cols <? 2)%nat then None
        else
          match compile (nth 0 cols "") with
          | Some re => Some (MkRule re (nth 1 cols ""))
          | None => None
          end
  end.

Fixpoint rules_of_lines (lines : list string) : list Rule :=
  match lines with
  | [] => []
  | line :: rest =>
      match rule_of_line line with
      | Some r => r :: rules_of_lines rest
      | None => rules_of_lines rest
      end
  end.

(** [loadRules]: [file] is the content of rules.tsv once
    [ensureDefaultRulesFile] has run, [None] when it still does not exist. *)
Definition loadRules (file : option string) : list Rule :=
  match file with
  | None => []
  | Some content => rules_of_lines (getlines content)
  end.

End Rules.

(** ** The command [list] *)

(** The fields of [Args] that [list] reads. *)
Record ListArgs : Type :=
  MkListArgs { limit : option Z; since : option sys_days; until : option sys_days }.

(** [sys_days::min()] and [sys_days::max()], the count being of 64 bits. *)
Definition sys_days_min : sys_days := - 9223372036854775808.
Definition sys_days_max : sys_days := 9223372036854775807.

(** The line [cmd_list] prints for a record. *)
Definition list_line (r : Rec) : string :=
  fmtDate (date r) ++ String tab (kind r ++ String tab (url r ++ String tab
    (title r ++ String tab (tags r ++ String nl EmptyString)))).

Section Listing.

Variable std_sort : (Rec -> Rec -> bool) -> list Rec -> list Rec.

(** The rows [cmd_list] keeps before the limit applies. *)
Definition list_rows (now : sys_days) (inbox : option string) (a : ListArgs) : list Rec :=
  let all := loadInbox now inbox in
  match since a, until a with
  | None, None => all
  | _, _ =>
      let lo := match since a with Some d => d | None => sys_days_min end in
      let hi := match until a with Some d => d | None => sys_days_max end in
      filterByDateRange std_sort all lo hi
  end.

(** [cmd_list]: the text printed; nothing when [resize] is asked for a
    negative size and throws. *)
Definition cmd_list (now : sys_days) (inbox : option string) (a : ListArgs)
  : option string :=
  let rows := list_rows now inbox a in
  match limit a with
  | Some n =>
      if n <? Z.of_nat (List.length rows) then
        if n <? 0 then None
        else Some (concat_str (map list_line (firstn (Z.to_nat n) rows)))
      else Some (concat_str (map list_line rows))
  | None => Some (concat_str (map list_line rows))
  end.

End Listing.

(** ** Notions the statements use *)

(** The count of days up to the first of March of the year [y'] that
    [days_from_civil] computes with, its shift to 1970 apart. *)
Definition march1 (y' : Z) : Z :=
  let era := y' / 400 in
  let yoe := y' - era * 400 in
  era * 146097 + yoe * 365 + yoe / 4 - yoe / 100.

(** The four digits of a year from 1000 to 9999, and the two digits of a month
    or a day. *)
Definition digits4 (y : Z) : string :=
  String (digit_char (y / 1000)) (String (digit_char (y / 100 mod 10))
    (String (digit_char (y / 10 mod 10)) (String (digit_char (y mod 10)) ""))).

Definition digits2 (m : Z) : string :=
  String (digit_char (m / 10)) (String (digit_char (m mod 10)) "").

(** The arguments of [digest] without [--start] and [--end]. *)
Definition no_bounds (a : DigestArgs) : DigestArgs :=
  MkDigestArgs (groupTags a) (tagsOnly a) (pd a) (noHeader a) (week a) None None (outPath a).

(** [s] holds only the characters [safeBaseFromRangeLabel] lets through. *)
Definition all_safe (s : string) : bool := forallb safe_char (list_ascii_of_string s).

(** The number of tabs in [s]. *)
Fixpoint count_tabs (s : string) : nat :=
  match s with
  | EmptyString => O
  | String c r => if Ascii.eqb c tab then S (count_tabs r) else count_tabs r
  end.

(** A record that can be written and read back. *)
Definition storable (r : Rec) : Prop :=
  text_fields_free (Ascii.eqb tab) r = true
  /\ text_fields_free (Ascii.eqb nl) r = true
  /\ parseISODate (fmtDate (date r)) <> None.

(** [t] starts with [#]. *)
Definition hashed (t : string) : bool :=
  match t with String c _ => Ascii.eqb c hash | EmptyString => false end.

(** The tag with the [#] that [normalizeTagsForStorage] puts before it. *)
Definition with_hash (t : string) : string := if hashed t then t else String hash t.

(** The environment in which nothing fails. *)
Definition no_faults : Faults := MkFaults true true true CopyDone true.

(** ** The rows of a digest *)

Section Digest.

Variable std_sort : (Rec -> Rec -> bool) -> list Rec -> list Rec.

(** The rows [cmd_digest] renders: the records of the inbox within the range
    [computeRange] gives. *)
Definition digest_rows (now : sys_days) (inbox : option string) (a : DigestArgs)
  : list Rec :=
  let '(A, B) := fst (computeRange now a) in
  filterByDateRange std_sort (loadInbox now inbox) A B.

End Digest.

(** ** Notions on URLs and tags *)

Definition slash : ascii := "/"%char.

(** A scheme the pattern of [urlDomain] takes: [http://] or [https://], in
    capital or small letters. *)
Definition is_scheme (sch : string) : bool :=
  match prefix_nocase "https://" sch with
  | Some r => is_empty r
  | None => match prefix_nocase "http://" sch with Some r => is_empty r | None => false end
  end.

(** The first letter made a capital. *)
Definition capitalized (s : string) : string :=
  match s with EmptyString => EmptyString | String c r => String (toupper c) r end.

(** What [normalizeTagDisplayOne] makes of the tag without its [#]. *)
Definition display_body (s : string) : string :=
  if isAllCapsWord s then s else capitalized s.

(** ** The rules file of a first run *)

(** The text [ensureDefaultRulesFile] writes. *)
Definition default_rules_file : string :=
  concat_str
    ["# Penless Curation kind rules" ++ String nl "";
     "# Format: <regex>\t<kind>" ++ String nl "";
     "# Lines beginning with # are comments. Blank lines ignored." ++ String nl "";
     "# Examples below " ++ String "226" (String "128" (String "148" " edit as needed."))
       ++ String nl (String nl "");
     "youtube\.com/|youtu\.be/" ++ String tab ("video" ++ String nl "");
     "(?:^|https?://)?(?:www\.)?(?:twitter\.com|x\.com)/" ++ String tab ("tweet" ++ String nl "");
     "(?:^|https?://)?(?:www\.)?substack\.com/" ++ String tab ("post" ++ String nl "");
     "(?:^|https?://)?(?:www\.)?reddit\.com/" ++ String tab ("thread" ++ String nl "");
     "(?:^|https?://)?news\.ycombinator\.com/" ++ String tab ("hn" ++ String nl "");
     "(?:^|https?://)?(?:www\.)?github\.com/" ++ String tab ("code" ++ String nl "");
     "\.pdf(?:$|\?)" ++ String tab ("pdf" ++ String nl "")].

(** [ensureDefaultRulesFile]: [file] is the content of rules.tsv, [None] when
    it does not exist; [can_open] tells whether it opens for writing. *)
Definition ensureDefaultRulesFile (can_open : bool) (file : option string) : option string :=
  match file with
  | Some content => Some content
  | None => if can_open then Some default_rules_file else None
  end.

(** The patterns of the default rules with their kinds. *)
Definition default_rules : list (string * string) :=
  [("youtube\.com/|youtu\.be/", "video");
   ("(?:^|https?://)?(?:www\.)?(?:twitter\.com|x\.com)/", "tweet");
   ("(?:^|https?://)?(?:www\.)?substack\.com/", "post");
   ("(?:^|https?://)?(?:www\.)?reddit\.com/", "thread");
   ("(?:^|https?://)?news\.ycombinator\.com/", "hn");
   ("(?:^|https?://)?(?:www\.)?github\.com/", "code");
   ("\.pdf(?:$|\?)", "pdf")].

(** The pattern and the kind a line of the rules file holds, if any. *)
Definition rule_text (line : string) : option (string * string) :=
  let s := trim line in
  match s with
  | EmptyString => None
  | String c _ =>
      if Ascii.eqb c hash then None
      else
        let cols := splitTabs s in
        if (List.length cols <? 2)%nat then None
        else Some (nth 0 cols "", nth 1 cols "")
  end.

Fixpoint rule_texts (lines : list string) : list (string * string) :=
  match lines with
  | [] => []
  | line :: rest =>
      match rule_text line with
      | Some pk => pk :: rule_texts rest
      | None => rule_texts rest
      end
  end.

(** The rules the compiler makes of patterns with their kinds. *)
Definition compiled (compile : string -> option regex) (pks : list (string * string))
  : list Rule :=
  flat_map (fun pk => match compile (fst pk) with
                      | Some re => [MkRule re (snd pk)]
                      | None => []
                      end) pks.

(** ** The command line of [add] *)

(** How [parseCLI] ends: with the arguments, or by [exit]. *)
Inductive parsed_args : Type :=
| Parsed (a : Args) : parsed_args
| ExitWith (code : Z) : parsed_args.

(** The loop of [parseCLI] for [add], over the words after the URL. *)
Fixpoint add_options (rest : list string) (a : Args) : parsed_args :=
  match rest with
  | [] => Parsed a
  | t :: rest' =>
      if String.eqb t "--title" then
        match rest' with
        | [] => ExitWith 2
        | v :: rest'' =>
            add_options rest''
              (MkArgs (cmd a) (arg_url a) (addTags a) v (addDateISO a) (archiveDir a))
        end
      else if String.eqb t "--date" then
        match rest' with
        | [] => ExitWith 2
        | v :: rest'' =>
            match parseISODate v with
            | None => ExitWith 2
            | Some p =>
                add_options rest''
                  (MkArgs (cmd a) (arg_url a) (addTags a) (addTitle a) (Some (fmtDate p))
                          (archiveDir a))
            end
        end
      else
        add_options rest'
          (MkArgs (cmd a) (arg_url a) (addTags a ++ [t]) (addTitle a) (addDateISO a)
                  (archiveDir a))
  end.

(** [parseCLI] when the command is [add]: [args] are the words after it. *)
Definition parseCLI_add (args : list string) : parsed_args :=
  match args with
  | [] => ExitWith 2
  | u :: rest => add_options rest (MkArgs "add" u [] "" None "")
  end.

(** What the loop keeps: the date stored is the text of a day that
    [parseISODate] gave. *)
Definition date_stored (a : Args) : Prop :=
  match addDateISO a with
  | None => True
  | Some s => exists v p, parseISODate v = Some p /\ s = fmtDate p
  end.

(** ** The definitions on concrete inputs *)

Example fmtDate_2023 : fmtDate (days_from_civil 2023 1 1) = "2023-01-01".
Proof. vm_compute. reflexivity. Qed.

Example parseISODate_rejects :
  map parseISODate ["2023-02-30"; "2023-13-01"; "2023-00-10"; "2023-1-01"; " 2023-01-01"]
  = [None; None; None; None; None].
Proof. vm_compute. reflexivity. Qed.

Example parseISODate_leap_day :
  option_map fmtDate (parseISODate "2024-02-29") = Some "2024-02-29"
  /\ parseISODate "2023-02-29" = None.
Proof. split; vm_compute; reflexivity. Qed.

Example weekBounds_2024_1 :
  civil_from_days (iw_monday (weekBounds 2024 1)) = YMD 2024 1 1
  /\ civil_from_days (iw_sunday (weekBounds 2024 1)) = YMD 2024 1 7.
Proof. split; vm_compute; reflexivity. Qed.

Example show_int_values :
  map show_int [-120; 0; 7; 999; 10000] = ["-120"; "0"; "7"; "999"; "10000"].
Proof. vm_compute. reflexivity. Qed.

Example trim_inner_space : trim "  a b  " = "a b".
Proof. vm_compute. reflexivity. Qed.

Example splitTabs_empty_column :
  splitTabs (String "a" (String tab (String tab "b"))) = ["a"; ""; "b"].
Proof. vm_compute. reflexivity. Qed.

Example getlines_last_line :
  getlines (String "a" (String nl (String nl "b"))) = ["a"; ""; "b"]
  /\ getlines (String "a" (String nl "")) = ["a"].
Proof. split; vm_compute; reflexivity. Qed.

Example splitTags_words : splitTags "  #a   b #c " = ["#a"; "b"; "#c"].
Proof. vm_compute. reflexivity. Qed.

Example normalizeTagsForStorage_dedup :
  normalizeTagsForStorage ["a"; "#a"; " b "; "a"; "B"] = "#a #b #B".
Proof. vm_compute. reflexivity. Qed.

Example normalizeTagDisplayOne_values :
  map normalizeTagDisplayOne ["#foo"; "#Foo"; "#AI"; "bar"; "#"; "#a1"; "#A1"]
  = ["#Foo"; "#Foo"; "#AI"; "Bar"; "#"; "#A1"; "#A1"].
Proof. vm_compute. reflexivity. Qed.

Example urlDomain_values :
  map urlDomain ["https://example.com/x"; "example.com/x"; "HTTP://Ex.org"; "/foo/bar";
                 "https://"; ""; "//"; "http:/a"; "https:///x"; "xhttps://a/b"]
  = ["example.com"; "example.com"; "Ex.org"; "foo"; "https:"; ""; "//"; "http:";
     "https:"; "xhttps:"].
Proof. vm_compute. reflexivity. Qed.

Example regex_search_inside :
  regex_search "abXc" (RCat (RChar "x") (RChar "C")) = true
  /\ regex_match "abXc" (RCat (RChar "x") (RChar "C")) = false.
Proof. split; vm_compute; reflexivity. Qed.

Example libstdcxx_sort_by_first :
  map snd (libstdcxx_sort (Z * Z) (fun x y => fst x <? fst y)
             (combine [3; 1; 2; 1; 3; 2; 1; 1; 2; 3; 3; 2; 1; 2; 3; 1; 2; 3; 1; 2]
                      (map Z.of_nat (seq 0 20))))
  = [1; 18; 3; 15; 6; 7; 12; 19; 16; 13; 11; 8; 5; 2; 10; 9; 14; 4; 17; 0].
Proof. vm_compute. reflexivity. Qed.

Example libstdcxx_sort_small_is_stable :
  map snd (libstdcxx_sort (Z * Z) (fun x y => fst x <? fst y)
             (combine [2; 1; 2; 1; 3; 1] (map Z.of_nat (seq 0 6))))
  = [1; 3; 5; 0; 2; 4].
Proof. vm_compute. reflexivity. Qed.

(** ** Calendar facts *)

Lemma to_int_small (x : Z) : -2147483648 <= x < 2147483648 -> to_int x = x.
Proof. intros H. unfold to_int. rewrite Z.mod_small; lia. Qed.

Lemma days_since_monday_range (z : sys_days) : 0 <= days_since_monday z <= 6.
Proof.
  unfold days_since_monday, weekday_c_encoding.
  pose proof (Z.mod_pos_bound (z + 4) 7 ltac:(lia)).
  destruct (Z.eqb_spec ((z + 4) mod 7) 0); lia.
Qed.

(** The day [days_since_monday] steps back to is a Monday: its count is
    congruent to 4 modulo 7 (1970-01-05 is day 4). *)
Lemma monday_of_mod7 (z : sys_days) : (z - days_since_monday z) mod 7 = 4.
Proof.
  unfold days_since_monday, weekday_c_encoding.
  destruct (Z.eqb_spec ((z + 4) mod 7) 0) as [E|E].
  - pose proof (Z.div_mod (z + 4) 7 ltac:(lia)) as D. rewrite E in D.
    replace (z - 6) with (4 + (((z + 4) / 7) - 2) * 7) by lia.
    now rewrite Z.mod_add by lia.
  - pose proof (Z.div_mod (z + 4) 7 ltac:(lia)) as D.
    pose proof (Z.mod_pos_bound (z + 4) 7 ltac:(lia)) as B.
    replace (z - ((z + 4) mod 7 - 1)) with (4 + (((z + 4) / 7) - 1) * 7) by lia.
    now rewrite Z.mod_add by lia.
Qed.

Lemma mondays_apart (a b : sys_days) :
  a mod 7 = 4 -> b mod 7 = 4 -> 7 * Z.quot (a - b) 7 = a - b.
Proof.
  intros Ha Hb.
  pose proof (Z.div_mod a 7 ltac:(lia)) as Da.
  pose proof (Z.div_mod b 7 ltac:(lia)) as Db.
  replace (a - b) with ((a / 7 - b / 7) * 7) by lia.
  rewrite Z.quot_mul by lia. lia.
Qed.

Lemma civil_year_bounds (z : sys_days) :
  -13000000 <= z <= 13000000 ->
  -40000 <= ymd_year (civil_from_days z) <= 40000.
Proof.
  intros H. unfold civil_from_days. cbn [ymd_year].
  set (era := (z + 719468) / 146097).
  set (doe := z + 719468 - era * 146097).
  assert (Hera : -95 <= era <= 95).
  { unfold era. split.
    - apply Z.div_le_lower_bound; lia.
    - apply Z.div_le_upper_bound; lia. }
  assert (Hdoe : 0 <= doe < 146097).
  { unfold doe, era. pose proof (Z.mod_pos_bound (z + 719468) 146097 ltac:(lia)).
    pose proof (Z.div_mod (z + 719468) 146097 ltac:(lia)). lia. }
  assert (Hyoe : 0 <= yoe_of_doe doe <= 500).
  { unfold yoe_of_doe. clearbody doe. clear -Hdoe.
    Z.to_euclidean_division_equations. lia. }
  destruct (_ <=? 2); lia.
Qed.

Lemma days_from_civil_bounds (y m d : Z) :
  -40000 <= y <= 40000 -> 1 <= m <= 12 -> 1 <= d <= 31 ->
  -16000000 <= days_from_civil y m d <= 16000000.
Proof.
  intros Hy Hm Hd. unfold days_from_civil.
  set (y' := if m <=? 2 then y - 1 else y).
  assert (Hy' : -40001 <= y' <= 40000) by (unfold y'; destruct (m <=? 2); lia).
  set (era := y' / 400).
  assert (Hera : -101 <= era <= 100).
  { unfold era. split.
    - apply Z.div_le_lower_bound; lia.
    - apply Z.div_le_upper_bound; lia. }
  assert (Hyoe : 0 <= y' - era * 400 < 400).
  { unfold era. pose proof (Z.mod_pos_bound y' 400 ltac:(lia)).
    pose proof (Z.div_mod y' 400 ltac:(lia)). lia. }
  set (yoe := y' - era * 400) in *.
  set (mp := if 2 <? m then m - 3 else m + 9).
  assert (Hmp : 0 <= mp <= 11) by (unfold mp; destruct (Z.ltb_spec 2 m); lia).
  assert (0 <= (153 * mp + 2) / 5 <= 400) by
    (split; [apply Z.div_pos; lia | apply Z.div_le_upper_bound; lia]).
  assert (0 <= yoe / 4 <= 100) by
    (split; [apply Z.div_pos; lia | apply Z.div_le_upper_bound; lia]).
  assert (0 <= yoe / 100 <= 4) by
    (split; [apply Z.div_pos; lia | apply Z.div_le_upper_bound; lia]).
  lia.
Qed.

(** Inside one 400-year era: the year of the era, the day of the year, the
    shifted month and the day of the month stay in their ranges. *)
Lemma yoe_of_doe_range (doe : Z) : 0 <= doe < 146097 -> 0 <= yoe_of_doe doe <= 399.
Proof. intros H. unfold yoe_of_doe. Z.to_euclidean_division_equations. lia. Qed.

Lemma doy_of_doe_range (doe : Z) : 0 <= doe < 146097 -> 0 <= doy_of_doe doe <= 365.
Proof.
  intros H. unfold doy_of_doe, yoe_of_doe. Z.to_euclidean_division_equations. lia.
Qed.

Lemma month_day_of_doy_range (doy : Z) :
  0 <= doy <= 365 -> 0 <= mp_of_doy doy <= 11 /\ 1 <= dom_of_doy doy <= 31.
Proof.
  intros H. unfold dom_of_doy, mp_of_doy. Z.to_euclidean_division_equations. lia.
Qed.

Lemma doe_fields (doe : Z) :
  0 <= doe < 146097 ->
  0 <= yoe_of_doe doe <= 399
  /\ 0 <= mp_of_doy (doy_of_doe doe) <= 11
  /\ 1 <= dom_of_doy (doy_of_doe doe) <= 31.
Proof.
  intros H. split; [now apply yoe_of_doe_range|].
  apply month_day_of_doy_range. now apply doy_of_doe_range.
Qed.

Lemma era_split (z : Z) :
  0 <= z - z / 146097 * 146097 < 146097.
Proof.
  pose proof (Z.mod_pos_bound z 146097 ltac:(lia)).
  pose proof (Z.div_mod z 146097 ltac:(lia)). lia.
Qed.

Lemma civil_from_days_fields (z : sys_days) :
  1 <= ymd_month (civil_from_days z) <= 12 /\ 1 <= ymd_day (civil_from_days z) <= 31.
Proof.
  unfold civil_from_days. cbn [ymd_month ymd_day].
  destruct (doe_fields _ (era_split (z + 719468))) as (_ & Hmp & Hd).
  split; [|exact Hd].
  destruct (Z.ltb_spec (mp_of_doy (doy_of_doe (z + 719468 - (z + 719468) / 146097 * 146097))) 10);
    lia.
Qed.

(** A day count is recovered from its calendar date. *)
Lemma days_from_civil_from_days (z : sys_days) :
  days_from_civil (ymd_year (civil_from_days z)) (ymd_month (civil_from_days z))
                  (ymd_day (civil_from_days z)) = z.
Proof.
  unfold civil_from_days. cbn [ymd_year ymd_month ymd_day].
  destruct (doe_fields _ (era_split (z + 719468))) as (Hyoe & Hmp & Hd).
  set (era := (z + 719468) / 146097) in *.
  set (doe := z + 719468 - era * 146097) in *.
  set (yoe := yoe_of_doe doe) in *.
  set (doy := doy_of_doe doe) in *.
  set (mp := mp_of_doy doy) in *.
  set (m := if mp <? 10 then mp + 3 else mp - 9).
  assert (Hm : (if 2 <? m then m - 3 else m + 9) = mp).
  { unfold m. destruct (Z.ltb_spec mp 10).
    - destruct (Z.ltb_spec 2 (mp + 3)); lia.
    - destruct (Z.ltb_spec 2 (mp - 9)); lia. }
  assert (Hy : (if m <=? 2 then (if m <=? 2 then yoe + era * 400 + 1 else yoe + era * 400) - 1
                else (if m <=? 2 then yoe + era * 400 + 1 else yoe + era * 400))
               = yoe + era * 400) by (destruct (m <=? 2); lia).
  unfold days_from_civil. rewrite Hy, Hm.
  assert (He : (yoe + era * 400) / 400 = era).
  { rewrite Z.div_add by lia. rewrite Z.div_small by lia. lia. }
  rewrite He. replace (yoe + era * 400 - era * 400) with yoe by lia.
  unfold dom_of_doy. fold mp.
  assert (Hdoy : doy = doe - (365 * yoe + yoe / 4 - yoe / 100)) by reflexivity.
  assert (Hdoe : doe = z + 719468 - era * 146097) by reflexivity.
  clearbody doy doe yoe mp era. lia.
Qed.

(** C8: the ISO week of 2023-01-01 (a Sunday) is week 52 of ISO year 2022. *)
Theorem isoWeekFromDate_2023_01_01 :
  let w := isoWeekFromDate (days_from_civil 2023 1 1) in
  iw_year w = 2022 /\ iw_week w = 52 /\
  weekday_c_encoding (days_from_civil 2023 1 1) = 0 /\
  civil_from_days (iw_monday w) = YMD 2022 12 26 /\
  civil_from_days (iw_sunday w) = YMD 2023 1 1.
Proof. vm_compute. repeat split. Qed.

(** C9: the bounds of the ISO week of a day bracket that day. *)
Theorem weekBounds_brackets_date (d : sys_days) :
  sys_days_ok d ->
  let w := isoWeekFromDate d in
  iw_monday (weekBounds (iw_year w) (iw_week w)) <= d
  /\ d <= iw_sunday (weekBounds (iw_year w) (iw_week w)).
Proof.
  intros Hd. unfold sys_days_ok in Hd.
  unfold isoWeekFromDate, weekBounds. cbn [iw_year iw_week iw_monday iw_sunday].
  set (monday := d - days_since_monday d).
  set (iso_year := ymd_year (civil_from_days (monday + 3))).
  pose proof (days_since_monday_range d) as Hr.
  assert (Hy : -40000 <= iso_year <= 40000).
  { apply civil_year_bounds. unfold monday. lia. }
  pose proof (days_from_civil_bounds iso_year 1 4 Hy ltac:(lia) ltac:(lia)) as Hj.
  pose proof (days_since_monday_range (days_from_civil iso_year 1 4)) as Hr4.
  assert (Hm1 : monday mod 7 = 4) by apply monday_of_mod7.
  assert (Hm2 : week1_monday_of iso_year mod 7 = 4) by apply monday_of_mod7.
  pose proof (mondays_apart _ _ Hm1 Hm2) as Hq.
  assert (Hw : -30000000 <= monday - week1_monday_of iso_year <= 30000000).
  { unfold week1_monday_of, monday. lia. }
  rewrite to_int_small by lia.
  unfold monday in *. lia.
Qed.

Lemma weekBounds_brackets_date_witness :
  sys_days_ok 19358 /\
  iw_monday (weekBounds (iw_year (isoWeekFromDate 19358)) (iw_week (isoWeekFromDate 19358)))
    <= 19358
  /\ 19358 <= iw_sunday (weekBounds (iw_year (isoWeekFromDate 19358))
                                    (iw_week (isoWeekFromDate 19358))).
Proof.
  split.
  - unfold sys_days_ok. lia.
  - apply (weekBounds_brackets_date 19358). unfold sys_days_ok. lia.
Defined.

(** ** Strings *)

Lemma append_nil_r (s : string) : s ++ "" = s.
Proof. induction s as [|c s IH]; simpl; congruence. Qed.

Lemma append_assoc (a b c : string) : (a ++ b) ++ c = a ++ (b ++ c).
Proof. induction a as [|x a IH]; simpl; congruence. Qed.

Lemma list_ascii_app (a b : string) :
  list_ascii_of_string (a ++ b) = (list_ascii_of_string a ++ list_ascii_of_string b)%list.
Proof. induction a as [|x a IH]; simpl; congruence. Qed.

Lemma free_of_app (p : ascii -> bool) (a b : string) :
  free_of p (a ++ b) = free_of p a && free_of p b.
Proof. unfold free_of. now rewrite list_ascii_app, forallb_app. Qed.

Lemma free_of_cons (p : ascii -> bool) (c : ascii) (s : string) :
  free_of p (String c s) = negb (p c) && free_of p s.
Proof. reflexivity. Qed.

Lemma all_digits_app (a b : string) :
  all_digits (a ++ b) = all_digits a && all_digits b.
Proof. unfold all_digits. now rewrite list_ascii_app, forallb_app. Qed.

Lemma all_digits_free (p : ascii -> bool) (s : string) :
  (forall c, isdigit c = true -> p c = false) ->
  all_digits s = true -> free_of p s = true.
Proof.
  intros Hp. unfold all_digits, free_of.
  induction (list_ascii_of_string s) as [|c l IH]; simpl; [easy|].
  intros H. apply andb_true_iff in H as [H1 H2].
  rewrite (Hp c H1). simpl. auto.
Qed.

Lemma isdigit_not (c d : ascii) :
  isdigit d = false -> isdigit c = true -> Ascii.eqb c d = false.
Proof.
  intros Hd Hc. destruct (Ascii.eqb_spec c d) as [->|]; congruence.
Qed.

Lemma isdigit_not_space (c : ascii) : isdigit c = true -> isspace c = false.
Proof.
  unfold isdigit, isspace, code_between. intros H.
  apply andb_true_iff in H as [H1 H2].
  apply N.leb_le in H1. apply N.leb_le in H2.
  apply orb_false_iff. split; apply andb_false_iff.
  - right. apply N.leb_gt. lia.
  - right. apply N.leb_gt. lia.
Qed.

(** *** Numbers as text *)

Lemma digit_char_cases (k : Z) :
  0 <= k <= 9 -> isdigit (digit_char k) = true /\ digit_val (digit_char k) = k.
Proof.
  intros H.
  assert (k = 0 \/ k = 1 \/ k = 2 \/ k = 3 \/ k = 4 \/ k = 5 \/ k = 6 \/ k = 7
          \/ k = 8 \/ k = 9) as C by lia.
  repeat (destruct C as [-> | C]; [now vm_compute|]). subst k. now vm_compute.
Qed.

Lemma show_digits_acc (fuel : nat) :
  forall n acc, show_digits fuel n acc = show_digits fuel n "" ++ acc.
Proof.
  induction fuel as [|f IH]; intros n acc; [reflexivity|].
  cbn [show_digits]. destruct (n / 10 =? 0); [reflexivity|].
  rewrite (IH _ (String _ acc)), (IH _ (String _ "")).
  now rewrite append_assoc.
Qed.

Lemma stoi_from_app (s t : string) :
  forall acc, stoi_from acc (s ++ t) = stoi_from (stoi_from acc s) t.
Proof. induction s as [|c s IH]; intros acc; simpl; [reflexivity|apply IH]. Qed.

Lemma pow2_succ (f : nat) : 2 ^ Z.of_nat (S f) = 2 * 2 ^ Z.of_nat f.
Proof. rewrite Nat2Z.inj_succ, Z.pow_succ_r by lia. reflexivity. Qed.

Lemma show_digits_sound (fuel : nat) :
  forall n, 0 <= n < 2 ^ Z.of_nat fuel ->
  all_digits (show_digits fuel n "") = true /\ stoi (show_digits fuel n "") = n.
Proof.
  induction fuel as [|f IH]; intros n Hn.
  - simpl in Hn. assert (n = 0) by lia. subst. now vm_compute.
  - rewrite pow2_succ in Hn.
    assert (Hm : 0 <= n mod 10 <= 9) by
      (pose proof (Z.mod_pos_bound n 10 ltac:(lia)); lia).
    destruct (digit_char_cases _ Hm) as [Hd Hv].
    pose proof (Z.div_mod n 10 ltac:(lia)) as Hdm.
    cbn [show_digits]. destruct (Z.eqb_spec (n / 10) 0) as [E|E].
    + split.
      * unfold all_digits. simpl. now rewrite Hd.
      * unfold stoi. simpl. rewrite Hv. lia.
    + rewrite show_digits_acc.
      assert (Hq : 0 <= n / 10 < 2 ^ Z.of_nat f).
      { split; [apply Z.div_pos; lia|].
        apply Z.div_lt_upper_bound; lia. }
      destruct (IH _ Hq) as [IHd IHv]. split.
      * rewrite all_digits_app, IHd. unfold all_digits. simpl. now rewrite Hd.
      * unfold stoi in *. rewrite stoi_from_app, IHv. simpl. rewrite Hv. lia.
Qed.

Lemma show_nonneg_sound (n : Z) :
  0 <= n -> all_digits (show_nonneg n) = true /\ stoi (show_nonneg n) = n.
Proof.
  intros Hn. unfold show_nonneg. apply show_digits_sound.
  split; [exact Hn|].
  rewrite Nat2Z.inj_succ, Z2Nat.id by apply Z.log2_nonneg.
  destruct (Z.eq_dec n 0) as [->|Hz]; [now vm_compute|].
  apply Z.log2_spec. lia.
Qed.

Lemma setw_fill_zero_sound (s : string) :
  all_digits s = true ->
  all_digits (setw_fill 2 "0" s) = true /\ stoi (setw_fill 2 "0" s) = stoi s.
Proof.
  intros H. unfold setw_fill.
  induction (2 - String.length s)%nat as [|k IH]; [now split|].
  destruct IH as [IH1 IH2]. cbn [fill]. split.
  - unfold all_digits in *. simpl. exact IH1.
  - unfold stoi in *. simpl. exact IH2.
Qed.

(** *** Dates as text *)

Lemma match_iso_date_inv (s gy gm gd : string) :
  match_iso_date s = Some (gy, gm, gd) ->
  s = gy ++ String dash (gm ++ String dash gd)
  /\ all_digits gy = true /\ all_digits gm = true /\ all_digits gd = true
  /\ String.length gy = 4%nat /\ String.length gm = 2%nat /\ String.length gd = 2%nat.
Proof.
  unfold match_iso_date.
  destruct (Nat.eqb_spec (String.length s) 10) as [L|L]; [|discriminate].
  do 10 (destruct s as [|? s]; [discriminate L|]).
  destruct s; [|discriminate L]. clear L.
  cbn [substring].
  match goal with
  | |- (if ?c then _ else _) = _ -> _ => destruct c eqn:C; [|discriminate]
  end.
  intros H. inversion H; subst; clear H.
  apply andb_true_iff in C as [C E2]. apply andb_true_iff in C as [C E1].
  apply andb_true_iff in C as [C Dd]. apply andb_true_iff in C as [C Dm].
  apply andb_true_iff in C as [_ Dy].
  apply String.eqb_eq in E1, E2. inversion E1; subst. inversion E2; subst.
  repeat split; assumption.
Qed.

Lemma split_at_dash (x x' r r' : string) :
  all_digits x = true -> all_digits x' = true ->
  x ++ String dash r = x' ++ String dash r' -> x = x' /\ r = r'.
Proof.
  revert x'. induction x as [|c x IH]; intros [|c' x'] Hx Hx' E; simpl in E.
  - injection E as ->. now split.
  - injection E as <-. discriminate Hx'.
  - injection E as ->. discriminate Hx.
  - injection E as <- E. unfold all_digits in Hx, Hx'. simpl in Hx, Hx'.
    apply andb_true_iff in Hx as [_ Hx]. apply andb_true_iff in Hx' as [_ Hx'].
    destruct (IH x' Hx Hx' E) as [-> ->]. now split.
Qed.

Lemma show_int_nonneg (n : Z) : 0 <= n -> show_int n = show_nonneg n.
Proof. intros H. unfold show_int. destruct (Z.ltb_spec n 0); [lia|reflexivity]. Qed.

(** When the text of a date has the shape [parseISODate] asks for, its three
    groups read back as the year, the month and the day. *)
Lemma date_text_groups (y m d : Z) (gy gm gd : string) :
  0 <= m -> 0 <= d ->
  match_iso_date (date_text y m d) = Some (gy, gm, gd) ->
  stoi gy = y /\ stoi gm = m /\ stoi gd = d.
Proof.
  intros Hm Hd H. apply match_iso_date_inv in H.
  destruct H as (E & Dy & Dm & Dd & Ly & _).
  unfold date_text in E.
  rewrite (show_int_nonneg m Hm), (show_int_nonneg d Hd) in E.
  destruct (show_nonneg_sound m Hm) as [Am Vm].
  destruct (show_nonneg_sound d Hd) as [Ad Vd].
  destruct (setw_fill_zero_sound _ Am) as [Pm Wm].
  destruct (setw_fill_zero_sound _ Ad) as [Pd Wd].
  destruct (Z.ltb_spec y 0) as [Hy|Hy].
  - exfalso. unfold show_int in E. destruct (Z.ltb_spec y 0); [|lia].
    destruct gy as [|c gy]; [discriminate Ly|].
    simpl in E. injection E as <- _. discriminate Dy.
  - rewrite (show_int_nonneg y Hy) in E.
    destruct (show_nonneg_sound y Hy) as [Ay Vy].
    change ("-" ++ ?x) with (String dash x) in E.
    destruct (split_at_dash _ _ _ _ Ay Dy E) as [E1 E2].
    change ("-" ++ ?x) with (String dash x) in E2.
    destruct (split_at_dash _ _ _ _ Pm Dm E2) as [E3 E4].
    subst gy gm gd. repeat split; congruence.
Qed.

(** A date that [parseISODate] reads from the text of [fmtDate] is the date
    formatted. *)
Lemma parseISODate_fmtDate (z z' : sys_days) :
  parseISODate (fmtDate z) = Some z' -> z' = z.
Proof.
  unfold parseISODate.
  change (fmtDate z) with
    (date_text (ymd_year (civil_from_days z)) (ymd_month (civil_from_days z))
               (ymd_day (civil_from_days z))).
  destruct (match_iso_date _) as [[[gy gm] gd]|] eqn:M; [|discriminate].
  destruct (civil_from_days_fields z) as [Hm Hd].
  assert (Hm0 : 0 <= ymd_month (civil_from_days z)) by lia.
  assert (Hd0 : 0 <= ymd_day (civil_from_days z)) by lia.
  destruct (date_text_groups _ _ _ _ _ _ Hm0 Hd0 M) as (-> & -> & ->).
  rewrite days_from_civil_from_days.
  destruct (_ || _); [discriminate|].
  destruct (_ || _); [discriminate|].
  intros H. now injection H.
Qed.

(** *** From text to date and back *)

Lemma string_snoc_cases (g : string) :
  g = "" \/ exists g' c, g = g' ++ String c "".
Proof.
  induction g as [|a g IH]; [now left|]. right.
  destruct IH as [->|(g' & c & ->)].
  - exists "", a. reflexivity.
  - exists (String a g'), c. reflexivity.
Qed.

Lemma length_app (a b : string) :
  String.length (a ++ b) = (String.length a + String.length b)%nat.
Proof. induction a as [|x a IH]; simpl; congruence. Qed.

Lemma isdigit_val (c : ascii) :
  isdigit c = true -> 0 <= digit_val c <= 9 /\ digit_char (digit_val c) = c.
Proof.
  unfold isdigit, code_between, digit_val, digit_char. intros H.
  apply andb_true_iff in H as [H1 H2]. apply N.leb_le in H1, H2. split; [lia|].
  replace (48 + Z.to_N (Z.of_N (N_of_ascii c) - 48))%N with (N_of_ascii c) by lia.
  apply ascii_N_embedding.
Qed.

Lemma stoi_from_lower (g : string) :
  all_digits g = true -> forall acc, 0 <= acc -> acc <= stoi_from acc g.
Proof.
  induction g as [|c g IH]; intros Hd acc Hacc; cbn [stoi_from]; [lia|].
  unfold all_digits in Hd. simpl in Hd. apply andb_true_iff in Hd as [Hc Hg].
  destruct (isdigit_val c Hc) as [Hv _].
  specialize (IH Hg (acc * 10 + digit_val c) ltac:(lia)). lia.
Qed.

Lemma stoi_positive (g : string) :
  all_digits g = true -> (exists c r, g = String c r /\ c <> "0"%char) -> 1 <= stoi g.
Proof.
  intros Hd (c & r & -> & Hc). unfold all_digits in Hd. simpl in Hd.
  apply andb_true_iff in Hd as [Hdc Hdr].
  destruct (isdigit_val c Hdc) as [Hv Hch].
  assert (digit_val c <> 0).
  { intros Z0. rewrite Z0 in Hch. apply Hc. rewrite <- Hch. reflexivity. }
  unfold stoi. cbn [stoi_from].
  pose proof (stoi_from_lower r Hdr (0 * 10 + digit_val c) ltac:(lia)). lia.
Qed.

(** A string of digits that does not start with a zero is the text of the
    number it reads as. *)
Lemma show_digits_stoi (n : nat) :
  forall g, String.length g = n ->
  all_digits g = true -> (exists c r, g = String c r /\ c <> "0"%char) ->
  forall fuel, stoi g < 2 ^ Z.of_nat fuel -> show_digits fuel (stoi g) "" = g.
Proof.
  induction n as [|n IH]; intros g Hlen Hd Hlead fuel Hf.
  - destruct Hlead as (c0 & r0 & -> & _). discriminate Hlen.
  - pose proof (stoi_positive g Hd Hlead) as Hpos.
    destruct (string_snoc_cases g) as [E|(g' & c & E)];
      [destruct Hlead as (c0 & r0 & Hg & _); congruence|].
    subst g. rewrite length_app in Hlen. simpl in Hlen.
    rewrite all_digits_app in Hd. apply andb_true_iff in Hd as [Hd' Hc].
    unfold all_digits in Hc. simpl in Hc. rewrite andb_true_r in Hc.
    destruct (isdigit_val c Hc) as [Hv Hch].
    assert (Hs : stoi (g' ++ String c "") = stoi g' * 10 + digit_val c).
    { unfold stoi. rewrite stoi_from_app. reflexivity. }
    assert (Hg'0 : 0 <= stoi g') by (apply (stoi_from_lower g' Hd' 0); lia).
    assert (Hmod : stoi (g' ++ String c "") mod 10 = digit_val c).
    { rewrite Hs, Z.add_comm, Z.mod_add by lia. apply Z.mod_small. lia. }
    assert (Hdiv : stoi (g' ++ String c "") / 10 = stoi g').
    { rewrite Hs, Z.add_comm, Z.div_add by lia. rewrite Z.div_small by lia. lia. }
    destruct fuel as [|f]; [simpl in Hf; lia|].
    rewrite pow2_succ in Hf. cbn [show_digits]. rewrite Hmod, Hch, Hdiv.
    destruct g' as [|x g''].
    + reflexivity.
    + assert (Hlead' : exists c1 r1, String x g'' = String c1 r1 /\ c1 <> "0"%char).
      { destruct Hlead as (c0 & r0 & Hg & Hc0). simpl in Hg.
        injection Hg as -> _. eauto. }
      pose proof (stoi_positive _ Hd' Hlead') as Hpos'.
      destruct (Z.eqb_spec (stoi (String x g'')) 0) as [Z0|_]; [lia|].
      rewrite show_digits_acc.
      rewrite (IH (String x g'')); [reflexivity| |exact Hd'|exact Hlead'|lia].
      simpl in Hlen |- *. lia.
Qed.

Lemma show_nonneg_stoi (g : string) :
  all_digits g = true -> (exists c r, g = String c r /\ c <> "0"%char) ->
  show_nonneg (stoi g) = g.
Proof.
  intros Hd Hg. unfold show_nonneg.
  apply (show_digits_stoi (String.length g) g eq_refl Hd Hg).
  assert (H0 : 0 <= stoi g) by (apply (stoi_from_lower g Hd 0); lia).
  rewrite Nat2Z.inj_succ, Z2Nat.id by apply Z.log2_nonneg.
  destruct (Z.eq_dec (stoi g) 0) as [->|Hz]; [now vm_compute|].
  apply Z.log2_spec. lia.
Qed.

(** Two digits are the padded text of the number they read as. *)
Lemma setw_fill_stoi_2 (g : string) :
  all_digits g = true -> String.length g = 2%nat ->
  setw_fill 2 "0" (show_int (stoi g)) = g.
Proof.
  intros Hd Hl.
  destruct g as [|a [|b [|? ?]]]; try discriminate Hl.
  assert (H0 : 0 <= stoi (String a (String b ""))) by (apply (stoi_from_lower _ Hd 0); lia).
  rewrite (show_int_nonneg _ H0).
  destruct (Ascii.eqb_spec a "0") as [->|Hne].
  - unfold all_digits in Hd. simpl in Hd. rewrite andb_true_r in Hd.
    destruct (isdigit_val b Hd) as [Hv Hch].
    replace (stoi (String "0" (String b ""))) with (digit_val b)
      by (unfold stoi; cbn [stoi_from]; change (digit_val "0") with 0; lia).
    unfold show_nonneg. cbn [show_digits].
    rewrite (Z.mod_small (digit_val b) 10) by lia.
    rewrite (Z.div_small (digit_val b) 10) by lia. cbn [Z.eqb].
    rewrite Hch. reflexivity.
  - rewrite show_nonneg_stoi; [reflexivity|exact Hd|]. eauto.
Qed.

(** Formatting what [parseISODate] read gives the text back when the year has
    four digits without a leading zero. *)
Lemma fmtDate_parseISODate (s : string) (z : sys_days) :
  parseISODate s = Some z -> 1000 <= ymd_year (civil_from_days z) -> fmtDate z = s.
Proof.
  unfold parseISODate.
  destruct (match_iso_date s) as [[[gy gm] gd]|] eqn:M; [|discriminate].
  apply match_iso_date_inv in M. destruct M as (-> & Dy & Dm & Dd & Ly & Lm & Ld).
  destruct (_ || _); [discriminate|].
  destruct (_ || _) eqn:C; [discriminate|].
  intros H Hy. injection H as <-.
  apply orb_false_iff in C as [C C3]. apply orb_false_iff in C as [C1 C2].
  apply negb_false_iff, Z.eqb_eq in C1, C2, C3.
  change (fmtDate ?d) with
    (date_text (ymd_year (civil_from_days d)) (ymd_month (civil_from_days d))
               (ymd_day (civil_from_days d))).
  rewrite C1 in Hy. rewrite C1, C2, C3. unfold date_text.
  rewrite (setw_fill_stoi_2 gm Dm Lm), (setw_fill_stoi_2 gd Dd Ld).
  assert (H0 : 0 <= stoi gy) by lia.
  rewrite (show_int_nonneg _ H0), show_nonneg_stoi; [reflexivity|exact Dy|].
  destruct gy as [|c r]; [discriminate Ly|]. exists c, r. split; [reflexivity|].
  intros ->. do 3 (destruct r as [|? r]; [discriminate Ly|]).
  destruct r; [|discriminate Ly].
  unfold all_digits in Dy. cbn [list_ascii_of_string forallb] in Dy.
  apply andb_true_iff in Dy as [_ Dy]. apply andb_true_iff in Dy as [D1 Dy].
  apply andb_true_iff in Dy as [D2 Dy]. apply andb_true_iff in Dy as [D3 _].
  destruct (isdigit_val _ D1) as [V1 _]. destruct (isdigit_val _ D2) as [V2 _].
  destruct (isdigit_val _ D3) as [V3 _].
  unfold stoi in Hy. cbn [stoi_from] in Hy. change (digit_val "0") with 0 in Hy. lia.
Qed.

(** The text [parseISODate] accepts holds digits and dashes only. *)
Lemma parseISODate_text (s : string) (z : sys_days) :
  parseISODate s = Some z ->
  free_of isspace s = true /\ free_of (Ascii.eqb tab) s = true
  /\ free_of (Ascii.eqb nl) s = true /\ s <> "".
Proof.
  unfold parseISODate.
  destruct (match_iso_date s) as [[[gy gm] gd]|] eqn:M; [|discriminate].
  intros _. apply match_iso_date_inv in M.
  destruct M as (-> & Dy & Dm & Dd & Ly & _).
  assert (F : forall p, (forall c, isdigit c = true -> p c = false) -> p dash = false ->
              free_of p (gy ++ String dash (gm ++ String dash gd)) = true).
  { intros p Hp Hdash.
    rewrite free_of_app, free_of_cons, free_of_app, free_of_cons, Hdash.
    now rewrite !(all_digits_free p _ Hp) by assumption. }
  repeat split.
  - apply F; [apply isdigit_not_space|reflexivity].
  - apply F; [|reflexivity]. intros c Hc. rewrite Ascii.eqb_sym.
    now apply isdigit_not.
  - apply F; [|reflexivity]. intros c Hc. rewrite Ascii.eqb_sym.
    now apply isdigit_not.
  - destruct gy; [discriminate Ly|discriminate].
Qed.

(** *** White space, columns and lines *)

Lemma drop_trailing_space_free (s : string) :
  free_of isspace s = true -> drop_trailing_space s = s.
Proof.
  induction s as [|c s IH]; [reflexivity|].
  rewrite free_of_cons. intros H. apply andb_true_iff in H as [Hc Hs].
  cbn [drop_trailing_space]. rewrite (IH Hs).
  apply negb_true_iff in Hc. rewrite Hc, andb_false_r. reflexivity.
Qed.

Lemma skip_leading_space_free (s : string) :
  free_of isspace s = true -> skip_leading_space s = s.
Proof.
  destruct s as [|c s]; [reflexivity|].
  rewrite free_of_cons. intros H. apply andb_true_iff in H as [Hc _].
  apply negb_true_iff in Hc. cbn [skip_leading_space]. now rewrite Hc.
Qed.

Lemma trim_free (s : string) : free_of isspace s = true -> trim s = s.
Proof.
  intros H. unfold trim. rewrite (skip_leading_space_free s H).
  now apply drop_trailing_space_free.
Qed.

Lemma trim_starts_nonspace (c : ascii) (s : string) :
  isspace c = false -> is_empty (trim (String c s)) = false.
Proof.
  intros H. unfold trim. cbn [skip_leading_space]. rewrite H.
  cbn [drop_trailing_space]. rewrite H, andb_false_r. reflexivity.
Qed.

Lemma splitTabs_from_free (s : string) :
  free_of (Ascii.eqb tab) s = true ->
  forall cur rest, splitTabs_from cur (s ++ rest) = splitTabs_from (cur ++ s) rest.
Proof.
  induction s as [|c s IH]; intros H cur rest.
  - now rewrite append_nil_r.
  - rewrite free_of_cons in H. apply andb_true_iff in H as [Hc Hs].
    apply negb_true_iff in Hc. rewrite Ascii.eqb_sym in Hc.
    cbn [append splitTabs_from]. rewrite Hc, (IH Hs), append_assoc. reflexivity.
Qed.

Lemma splitTabs_from_joinTabs (cols : list string) :
  forall c cur,
  forallb (free_of (Ascii.eqb tab)) (c :: cols) = true ->
  splitTabs_from cur (joinTabs (c :: cols)) = (cur ++ c) :: cols.
Proof.
  induction cols as [|c' cols IH]; intros c cur H.
  - cbn [forallb] in H. apply andb_true_iff in H as [Hc _].
    cbn [joinTabs]. rewrite <- (append_nil_r c) at 1.
    rewrite (splitTabs_from_free c Hc). reflexivity.
  - cbn [forallb] in H. apply andb_true_iff in H as [Hc H].
    change (joinTabs (c :: c' :: cols)) with (c ++ String tab (joinTabs (c' :: cols))).
    rewrite (splitTabs_from_free c Hc). cbn [splitTabs_from].
    rewrite Ascii.eqb_refl. now rewrite (IH c' "" H).
Qed.

Lemma getlines_from_free (s : string) :
  free_of (Ascii.eqb nl) s = true ->
  forall cur rest, getlines_from cur (s ++ rest) = getlines_from (cur ++ s) rest.
Proof.
  induction s as [|c s IH]; intros H cur rest.
  - now rewrite append_nil_r.
  - rewrite free_of_cons in H. apply andb_true_iff in H as [Hc Hs].
    apply negb_true_iff in Hc. rewrite Ascii.eqb_sym in Hc.
    cbn [append getlines_from]. rewrite Hc, (IH Hs), append_assoc. reflexivity.
Qed.

(** After complete lines, what follows is read as lines of its own. *)
Lemma getlines_from_complete (L : string) :
  forall cur t,
  (if is_empty L then is_empty cur else ends_with_nl L) = true ->
  getlines_from cur (L ++ t) = (getlines_from cur L ++ getlines_from "" t)%list.
Proof.
  induction L as [|c L IH]; intros cur t H.
  - cbn [is_empty] in H. destruct cur; [reflexivity|discriminate].
  - cbn [is_empty] in H. cbn [append getlines_from].
    destruct L as [|c' L'].
    + cbn [ends_with_nl] in H. rewrite H. reflexivity.
    + cbn [ends_with_nl] in H.
      destruct (Ascii.eqb c nl).
      * rewrite (IH "" t H). reflexivity.
      * now rewrite (IH _ t H).
Qed.

Lemma getlines_append_line (L line : string) :
  complete_lines L = true -> free_of (Ascii.eqb nl) line = true -> line <> "" ->
  getlines (L ++ line ++ String nl "") = (getlines L ++ [line])%list.
Proof.
  intros HL Hl Hne. unfold getlines.
  rewrite getlines_from_complete.
  - f_equal. rewrite (getlines_from_free line Hl). cbn [getlines_from append].
    rewrite Ascii.eqb_refl. reflexivity.
  - unfold complete_lines in HL. destruct L; [reflexivity|exact HL].
Qed.

Lemma load_lines_app (now : sys_days) (l1 l2 : list string) :
  load_lines now (l1 ++ l2) = (load_lines now l1 ++ load_lines now l2)%list.
Proof.
  induction l1 as [|l l1 IH]; [reflexivity|].
  cbn [load_lines app]. destruct (load_line now l); rewrite IH; reflexivity.
Qed.

(** The line written for a record is read back as that record. *)
Lemma load_line_inbox_line (now : sys_days) (r : Rec) :
  text_fields_free (Ascii.eqb tab) r = true ->
  parseISODate (fmtDate (date r)) <> None ->
  load_line now (inbox_line r) = Some r.
Proof.
  intros Hf Hp. destruct (parseISODate (fmtDate (date r))) as [z|] eqn:P; [|easy].
  pose proof (parseISODate_fmtDate _ _ P) as ->.
  destruct (parseISODate_text _ _ P) as (Fs & Ft & _ & Hne).
  unfold text_fields_free in Hf.
  apply andb_true_iff in Hf as [Hf F4]. apply andb_true_iff in Hf as [Hf F3].
  apply andb_true_iff in Hf as [F1 F2].
  assert (Hcols : splitTabs (inbox_line r)
                  = [fmtDate (date r); kind r; url r; title r; tags r]).
  { unfold splitTabs, inbox_line. rewrite splitTabs_from_joinTabs; [reflexivity|].
    cbn [forallb]. now rewrite Ft, F1, F2, F3, F4. }
  unfold load_line. rewrite Hcols.
  assert (Hb : is_empty (trim (inbox_line r)) = false).
  { unfold inbox_line. cbn [joinTabs].
    destruct (fmtDate (date r)) as [|c f] eqn:E; [easy|].
    rewrite free_of_cons in Fs. apply andb_true_iff in Fs as [Hc _].
    apply negb_true_iff in Hc. cbn [append]. now apply trim_starts_nonspace. }
  rewrite Hb, (trim_free _ Fs), P. cbn [nth]. now destruct r.
Qed.

Lemma joinTabs_free (p : ascii -> bool) (cols : list string) :
  p tab = false -> forallb (free_of p) cols = true -> free_of p (joinTabs cols) = true.
Proof.
  intros Hp. induction cols as [|c cols IH]; [reflexivity|].
  cbn [forallb]. intros H. apply andb_true_iff in H as [Hc H].
  destruct cols as [|c' cols]; [exact Hc|].
  change (joinTabs (c :: c' :: cols)) with (c ++ String tab (joinTabs (c' :: cols))).
  rewrite free_of_app, free_of_cons, Hc, Hp, (IH H). reflexivity.
Qed.

Lemma is_empty_drop_trailing_space (s : string) :
  is_empty (drop_trailing_space s) = blank s.
Proof.
  unfold blank. induction s as [|c s IH]; [reflexivity|].
  cbn [drop_trailing_space list_ascii_of_string forallb]. rewrite <- IH.
  destruct (is_empty (drop_trailing_space s)), (isspace c); reflexivity.
Qed.

Lemma blank_skip_leading_space (s : string) : blank (skip_leading_space s) = blank s.
Proof.
  unfold blank. induction s as [|c s IH]; [reflexivity|].
  cbn [skip_leading_space]. destruct (isspace c) eqn:E; [|reflexivity].
  rewrite IH. cbn [list_ascii_of_string forallb]. now rewrite E.
Qed.

Lemma is_empty_trim (s : string) : is_empty (trim s) = blank s.
Proof.
  unfold trim. now rewrite is_empty_drop_trailing_space, blank_skip_leading_space.
Qed.

Lemma splitTabs_from_head (line : string) :
  forall cur, exists c0 rest, splitTabs_from cur line = c0 :: rest.
Proof.
  induction line as [|c line IH]; intros cur; cbn [splitTabs_from]; eauto.
  destruct (Ascii.eqb c tab); eauto.
Qed.

(** [load_line] computes the record of the line; the clock is never read. *)
Lemma load_line_record (now : sys_days) (line : string) :
  load_line now line = line_record line.
Proof.
  unfold load_line, line_record. rewrite is_empty_trim.
  destruct (blank line); [reflexivity|].
  destruct (splitTabs_from_head line "") as (c0 & rest & E).
  unfold splitTabs. rewrite E. reflexivity.
Qed.

Lemma load_lines_records (now : sys_days) (lines : list string) :
  load_lines now lines = records_of_lines lines.
Proof.
  unfold records_of_lines.
  induction lines as [|l lines IH]; [reflexivity|].
  cbn [load_lines flat_map]. rewrite load_line_record, IH.
  destruct (line_record l); reflexivity.
Qed.

(** ** The claims on dates *)

(** C3 (the code departs from it): formatting the date parsed gives the text
    back when the year is 1000 or later; a date whose year is below 1000 is
    accepted by [parseISODate] all the same, and [fmtDate] writes its year
    without padding, so the text differs from the one parsed and is itself
    rejected; [add --date] stores that text and then dereferences the empty
    result. *)
Theorem fmtDate_year_below_1000 :
  (forall s z, parseISODate s = Some z -> 1000 <= ymd_year (civil_from_days z) ->
               fmtDate z = s)
  /\ parseISODate "0999-01-01" = Some (days_from_civil 999 1 1)
  /\ fmtDate (days_from_civil 999 1 1) = "999-01-01"
  /\ parseISODate (fmtDate (days_from_civil 999 1 1)) = None
  /\ forall RULES now can_open inbox,
       cmd_add RULES now can_open inbox
         (MkArgs "add" "https://example.com" [] ""
                 (Some (fmtDate (days_from_civil 999 1 1))) "") = None.
Proof.
  split; [exact fmtDate_parseISODate|].
  split; [vm_compute; reflexivity|].
  split; [vm_compute; reflexivity|].
  assert (P : parseISODate (fmtDate (days_from_civil 999 1 1)) = None)
    by (vm_compute; reflexivity).
  split; [exact P|].
  intros RULES now can_open inbox. unfold cmd_add. cbn [addDateISO].
  rewrite P. reflexivity.
Qed.

(** ** The claims on the inbox *)

(** C1 (the code departs from it): [add] with a title that holds a tab writes a
    line of six columns, which is loaded as a record with another title and
    other tags. *)
Theorem cmd_add_title_with_tab :
  let a := MkArgs "add" "https://example.com" ["x"] (String "A" (String tab "B"))
                  (Some "2023-01-01") "" in
  let line := joinTabs ["2023-01-01"; "article"; "https://example.com"; addTitle a; "#x"] in
  option_map (fun res => (fst (fst res), snd (fst res))) (cmd_add [] 0 true (Some "") a)
  = Some (0, Some (line ++ String nl ""))
  /\ splitTabs line = ["2023-01-01"; "article"; "https://example.com"; "A"; "B"; "#x"]
  /\ List.length (splitTabs line) = 6%nat
  /\ loadInbox 0 (Some (line ++ String nl ""))
     = [MkRec (days_from_civil 2023 1 1) "article" "https://example.com" "A" "B"].
Proof. repeat split; vm_compute; reflexivity. Qed.

(** C7, as the code has it: the records loaded are those of the lines of the
    file, in order; a line yields a record unless it is blank or its first
    column, trimmed, is not a calendar date; a missing kind is ["link"], other
    missing columns are empty; a file of one line with a bad date and two
    valid lines yields the two records. *)
Theorem loadInbox_records (now : sys_days) (content : string) :
  loadInbox now (Some content) = records_of_lines (getlines content)
  /\ (forall line,
        (load_line now line = None <->
         blank line = true \/ parseISODate (trim (nth 0 (splitTabs line) "")) = None)
        /\ (forall d, blank line = false ->
              parseISODate (trim (nth 0 (splitTabs line) "")) = Some d ->
              load_line now line
              = Some (MkRec d (nth 1 (splitTabs line) "link") (nth 2 (splitTabs line) "")
                            (nth 3 (splitTabs line) "") (nth 4 (splitTabs line) ""))))
  /\ loadInbox now
       (Some (joinTabs ["2023-01-01"; "video"; "https://a.example/1"; "One"; "#x"]
              ++ String nl (joinTabs ["2023-02-30"; "post"; "https://b.example/2"; "Two"; "#y"]
              ++ String nl (joinTabs ["2023-01-03"; "pdf"; "https://c.example/3.pdf"]
              ++ String nl ""))))
     = [MkRec (days_from_civil 2023 1 1) "video" "https://a.example/1" "One" "#x";
        MkRec (days_from_civil 2023 1 3) "pdf" "https://c.example/3.pdf" "" ""]
  /\ loadInbox now (Some (joinTabs ["2023-01-05"] ++ String nl ""))
     = [MkRec (days_from_civil 2023 1 5) "link" "" "" ""].
Proof.
  split; [apply load_lines_records|]. split.
  - intros line. rewrite load_line_record. unfold line_record. split.
    + destruct (blank line); [intuition|].
      destruct (parseISODate _); [|intuition].
      split; [discriminate|]. intros [H|H]; discriminate.
    + intros d Hb Hp. now rewrite Hb, Hp.
  - split; unfold loadInbox; rewrite load_lines_records; vm_compute; reflexivity.
Qed.

(** C7, counterexample: a line whose first column is a date after a space is
    kept, though the column itself is not a calendar date. *)
Lemma loadInbox_keeps_padded_date :
  let line := joinTabs [" 2023-01-01"; "note"; "https://example.com"] in
  parseISODate (nth 0 (splitTabs line) "") = None
  /\ loadInbox 0 (Some (line ++ String nl ""))
     = [MkRec (days_from_civil 2023 1 1) "note" "https://example.com" "" ""].
Proof. split; vm_compute; reflexivity. Qed.




(** ** Matching by derivatives *)

Lemma append_eq_nil (s t : string) : s ++ t = "" -> s = "" /\ t = "".
Proof. destruct s; simpl; [auto|discriminate]. Qed.

Lemma matches_cat_inv (a b : regex) (u : string) :
  matches (RCat a b) u -> exists s t, u = s ++ t /\ matches a s /\ matches b t.
Proof. intros H. inversion H; subst. eauto. Qed.

Lemma matches_alt_inv (a b : regex) (u : string) :
  matches (RAlt a b) u -> matches a u \/ matches b u.
Proof. intros H. inversion H; subst; auto. Qed.

Lemma matches_char_inv (r : regex) (u : string) :
  matches r u -> (exists a, r = RChar a) \/ r = RAny ->
  exists c, u = String c "" /\ char_matches r c = true.
Proof.
  intros H Hr. inversion H; subst; eauto;
    destruct Hr as [[a' Hr]|Hr]; discriminate.
Qed.

Lemma matches_cat_cons (a b : regex) (c : ascii) (s t : string) :
  matches a (String c s) -> matches b t -> matches (RCat a b) (String c (s ++ t)).
Proof.
  intros Ha Hb. change (String c (s ++ t)) with (String c s ++ t). now constructor.
Qed.

Lemma nullable_matches (r : regex) : nullable r = true <-> matches r "".
Proof.
  induction r as [| | a | | a IHa b IHb | a IHa b IHb | a IHa]; cbn [nullable]; split;
    intros H; try discriminate; try (inversion H; fail).
  - constructor.
  - reflexivity.
  - apply andb_true_iff in H as [Ha Hb].
    change "" with ("" ++ ""). constructor; [now apply IHa|now apply IHb].
  - apply matches_cat_inv in H as (s & t & E & Ha & Hb). symmetry in E.
    apply append_eq_nil in E as [-> ->].
    apply andb_true_iff. split; [now apply IHa|now apply IHb].
  - apply orb_true_iff in H as [H|H]; [apply MAltL, IHa|apply MAltR, IHb]; exact H.
  - apply orb_true_iff. apply matches_alt_inv in H as [H|H];
      [left; now apply IHa|right; now apply IHb].
  - constructor.
  - reflexivity.
Qed.

(** A match of a starred pattern on a text that is not empty starts with a
    match of the pattern that is not empty. *)
Lemma matches_star_cons (a : regex) (u : string) :
  matches (RStar a) u ->
  forall c s, u = String c s ->
  exists s1 s2, s = s1 ++ s2 /\ matches a (String c s1) /\ matches (RStar a) s2.
Proof.
  intros H. remember (RStar a) as r eqn:Er. revert Er.
  induction H as [| | | | | | a'|a' s' t' Hs _ Ht IHt]; intros Er; try discriminate.
  injection Er as ->. intros c s E. destruct s' as [|c' s''].
  - simpl in E. now apply IHt.
  - simpl in E. injection E as -> <-. exists s'', t'. auto.
Qed.

Lemma deriv_matches (r : regex) :
  forall c s, matches (deriv c r) s <-> matches r (String c s).
Proof.
  induction r as [| | a | | a IHa b IHb | a IHa b IHb | a IHa]; intros c s;
    cbn [deriv]; split; intros H.
  - inversion H.
  - inversion H.
  - inversion H.
  - inversion H.
  - destruct (char_matches (RChar a) c) eqn:E; inversion H; subst. now constructor.
  - destruct (matches_char_inv _ _ H ltac:(eauto)) as (c' & E & Hc).
    injection E as <- ->. rewrite Hc. constructor.
  - destruct (char_matches RAny c) eqn:E; inversion H; subst. now constructor.
  - destruct (matches_char_inv _ _ H ltac:(eauto)) as (c' & E & Hc).
    injection E as <- ->. rewrite Hc. constructor.
  - destruct (nullable a) eqn:N.
    + apply matches_alt_inv in H as [H|H].
      * apply matches_cat_inv in H as (s1 & s2 & -> & H1 & H2).
        apply matches_cat_cons; [now apply IHa|exact H2].
      * change (String c s) with ("" ++ String c s).
        constructor; [now apply nullable_matches|now apply IHb].
    + apply matches_cat_inv in H as (s1 & s2 & -> & H1 & H2).
      apply matches_cat_cons; [now apply IHa|exact H2].
  - apply matches_cat_inv in H as (s1 & s2 & E & H1 & H2).
    destruct s1 as [|c1 s1].
    + simpl in E. subst s2.
      apply nullable_matches in H1. rewrite H1.
      apply MAltR. now apply IHb.
    + simpl in E. injection E as -> ->.
      assert (M : matches (RCat (deriv c1 a) b) (s1 ++ s2))
        by (constructor; [now apply IHa|exact H2]).
      destruct (nullable a); [now apply MAltL|exact M].
  - apply matches_alt_inv in H as [H|H];
      [apply MAltL; now apply IHa|apply MAltR; now apply IHb].
  - apply matches_alt_inv in H as [H|H];
      [apply MAltL; now apply IHa|apply MAltR; now apply IHb].
  - apply matches_cat_inv in H as (s1 & s2 & -> & H1 & H2).
    change (String c (s1 ++ s2)) with (String c s1 ++ s2).
    constructor; [now apply IHa|exact H2].
  - destruct (matches_star_cons _ _ H c s eq_refl) as (s1 & s2 & -> & H1 & H2).
    constructor; [now apply IHa|exact H2].
Qed.

Lemma regex_match_matches (s : string) :
  forall r, regex_match s r = true <-> matches r s.
Proof.
  induction s as [|c s IH]; intros r; cbn [regex_match].
  - apply nullable_matches.
  - rewrite IH. apply deriv_matches.
Qed.

Lemma regex_match_prefix_matches (s : string) :
  forall r, regex_match_prefix s r = true <-> exists p q, s = p ++ q /\ matches r p.
Proof.
  induction s as [|c s IH]; intros r; cbn [regex_match_prefix].
  - rewrite orb_false_r, nullable_matches. split.
    + intros H. exists "", "". auto.
    + intros (p & q & E & H). symmetry in E. apply append_eq_nil in E as [-> _]. exact H.
  - rewrite orb_true_iff, nullable_matches, IH. split.
    + intros [H|(p & q & -> & H)].
      * exists "", (String c s). auto.
      * exists (String c p), q. split; [reflexivity|now apply deriv_matches].
    + intros (p & q & E & H). destruct p as [|c' p].
      * now left.
      * simpl in E. injection E as <- ->. right. exists p, q.
        split; [reflexivity|now apply deriv_matches].
Qed.

(** [regex_search] finds a match anywhere in the text. *)
Lemma regex_search_matches (s : string) :
  forall r, regex_search s r = true <->
            exists a b c, s = a ++ b ++ c /\ matches r b.
Proof.
  induction s as [|x s IH]; intros r; cbn [regex_search].
  - rewrite orb_false_r, regex_match_prefix_matches. split.
    + intros (p & q & E & H). exists "", p, q. auto.
    + intros (a & b & c & E & H). symmetry in E.
      apply append_eq_nil in E as [-> E]. apply append_eq_nil in E as [-> ->].
      exists "", "". auto.
  - rewrite orb_true_iff, regex_match_prefix_matches, IH. split.
    + intros [(p & q & E & H)|(a & b & c & -> & H)].
      * exists "", p, q. auto.
      * exists (String x a), b, c. auto.
    + intros (a & b & c & E & H). destruct a as [|y a].
      * left. exists b, c. auto.
      * simpl in E. injection E as <- ->. right. exists a, b, c. auto.
Qed.

(** ** The claim on classification *)

(** C6: [detectKind] answers with the kind of the first rule, in the order of
    the list, whose pattern matches somewhere in the URL without regard to
    case, and with ["article"] when no rule does; the rule [.] before the rule
    [x] classifies ["xyz"] as the former says. *)
Theorem detectKind_first_match (RULES : list Rule) (u : string) :
  ((exists before r after,
       RULES = (before ++ r :: after)%list
       /\ (forall r', In r' before -> regex_search u (rule_re r') = false)
       /\ regex_search u (rule_re r) = true
       /\ detectKind RULES u = rule_kind r)
   \/ ((forall r, In r RULES -> regex_search u (rule_re r) = false)
       /\ detectKind RULES u = "article"))
  /\ (forall r, regex_search u r = true <->
                exists a b c, u = a ++ b ++ c /\ matches r b)
  /\ (forall a c, matches (RChar a) (String c "") <-> tolower a = tolower c)
  /\ detectKind [MkRule RAny "A"; MkRule (RChar "x") "B"] "xyz" = "A"
  /\ detectKind [MkRule (RChar "x") "B"; MkRule RAny "A"] "xyz" = "B"
  /\ detectKind [MkRule (RChar "Y") "B"] "xyz" = "B"
  /\ regex_match "xyz" (RChar "Y") = false
  /\ detectKind [MkRule (RChar "q") "B"] "xyz" = "article".
Proof.
  split; [|split; [apply regex_search_matches|split]].
  - induction RULES as [|r0 rest IH].
    + right. split; [intros r []|reflexivity].
    + cbn [detectKind]. destruct (regex_search u (rule_re r0)) eqn:E.
      * left. exists [], r0, rest. repeat split; auto. intros r' [].
      * destruct IH as [(before & r & after & -> & Hb & Hr & Hk)|[Hn Hk]].
        -- left. exists (r0 :: before), r, after. repeat split; auto.
           intros r' [<-|Hin]; auto.
        -- right. split; [|exact Hk]. intros r [<-|Hin]; auto.
  - intros a c. split.
    + intros H. inversion H; subst. now apply Ascii.eqb_eq.
    + intros H. constructor. now apply Ascii.eqb_eq.
  - repeat split; vm_compute; reflexivity.
Qed.

(** ** The order of [std::string] *)

Lemma str_compare_refl (a : string) : String.compare a a = Eq.
Proof. now apply String_as_OT.cmp_eq. Qed.

Lemma str_lt_trans (a b c : string) : str_lt a b -> str_lt b c -> str_lt a c.
Proof.
  unfold str_lt. intros H1 H2.
  apply String_as_OT.cmp_lt in H1. apply String_as_OT.cmp_lt in H2.
  apply String_as_OT.cmp_lt. eapply String_as_OT.lt_trans; eassumption.
Qed.

Lemma str_lt_neq (a b : string) : str_lt a b -> String.eqb a b = false.
Proof.
  unfold str_lt. intros H. apply String.eqb_neq. intros ->.
  rewrite str_compare_refl in H. discriminate.
Qed.

Lemma str_gt_lt (a b : string) : String.compare a b = Gt -> str_lt b a.
Proof.
  unfold str_lt. intros H. rewrite String.compare_antisym, H. reflexivity.
Qed.

(** ** The tag map *)

Lemma group_at_above (k : string) (m : TagMap) :
  Forall (str_lt k) (keys m) -> group_at k m = [].
Proof.
  induction m as [|[k' vs] m IH]; [reflexivity|].
  intros H. inversion H as [|? ? Hk Hm]; subst.
  cbn [group_at]. apply str_lt_neq in Hk. rewrite String.eqb_sym in Hk.
  rewrite Hk. now apply IH.
Qed.

Lemma map_push_keys (k : string) (v : Rec) (m : TagMap) :
  forall k0, In k0 (keys (map_push k v m)) <-> k0 = k \/ In k0 (keys m).
Proof.
  induction m as [|[k' vs] m IH]; intros k0; cbn [map_push].
  - simpl. intuition.
  - destruct (String.compare k k') eqn:C.
    + apply String.compare_eq_iff in C. subst k'. simpl. intuition.
    + simpl. intuition.
    + cbn [keys map fst In]. fold (keys (map_push k v m)). rewrite IH.
      fold (keys m). intuition.
Qed.

Lemma map_push_sorted (k : string) (v : Rec) (m : TagMap) :
  StronglySorted str_lt (keys m) -> StronglySorted str_lt (keys (map_push k v m)).
Proof.
  induction m as [|[k' vs] m IH]; intros H; cbn [map_push].
  - simpl. constructor; constructor.
  - inversion H as [|? ? Hs Hf]; subst.
    destruct (String.compare k k') eqn:C.
    + exact H.
    + cbn [keys map fst]. constructor; [exact H|].
      constructor; [exact C|].
      eapply Forall_impl; [|exact Hf]. intros x Hx. now apply (str_lt_trans k k' x).
    + cbn [keys map fst]. fold (keys (map_push k v m)).
      constructor; [now apply IH|].
      apply Forall_forall. intros x Hx. apply map_push_keys in Hx as [->|Hx].
      * now apply str_gt_lt.
      * now apply (proj1 (Forall_forall _ _) Hf).
Qed.

Lemma map_push_group_at (k : string) (v : Rec) (m : TagMap) :
  StronglySorted str_lt (keys m) ->
  forall k0, group_at k0 (map_push k v m)
             = if String.eqb k k0 then (group_at k0 m ++ [v])%list else group_at k0 m.
Proof.
  induction m as [|[k' vs] m IH]; intros H k0; cbn [map_push].
  - cbn [group_at]. destruct (String.eqb k k0); reflexivity.
  - inversion H as [|? ? Hs Hf]; subst.
    destruct (String.compare k k') eqn:C.
    + apply String.compare_eq_iff in C. subst k'. cbn [group_at].
      destruct (String.eqb k k0); reflexivity.
    + destruct (String.eqb_spec k k0) as [->|Hne].
      * rewrite (group_at_above k0 ((k', vs) :: m)).
        -- cbn [group_at]. now rewrite String.eqb_refl.
        -- constructor; [exact C|].
           eapply Forall_impl; [|exact Hf]. intros x Hx.
           now apply (str_lt_trans k0 k' x).
      * change (group_at k0 ((k, [v]) :: (k', vs) :: m))
          with (if String.eqb k k0 then [v] else group_at k0 ((k', vs) :: m)).
        apply String.eqb_neq in Hne. now rewrite Hne.
    + cbn [group_at]. rewrite (IH Hs).
      destruct (String.eqb_spec k' k0) as [->|Hne]; [|reflexivity].
      apply str_gt_lt, str_lt_neq in C. rewrite String.eqb_sym in C. now rewrite C.
Qed.

Lemma push_entries_spec (es : list (string * Rec)) :
  let m := fold_left push_entry es [] in
  StronglySorted str_lt (keys m)
  /\ (forall k, In k (keys m) <-> In k (map fst es))
  /\ (forall k, group_at k m = map snd (filter (fun e => String.eqb (fst e) k) es)).
Proof.
  induction es as [|e es IH] using rev_ind.
  - simpl. repeat split; try constructor; intros []; auto.
  - cbv zeta in *. rewrite fold_left_app. cbn [fold_left].
    destruct IH as (Hs & Hk & Hg). unfold push_entry at 1 3 5.
    split; [now apply map_push_sorted|]. split.
    + intros k. rewrite map_push_keys, Hk, map_app, in_app_iff. simpl. intuition.
    + intros k. rewrite (map_push_group_at _ _ _ Hs), Hg, filter_app, map_app.
      cbn [filter]. destruct (String.eqb (fst e) k); [reflexivity|].
      cbn [map]. now rewrite app_nil_r.
Qed.

(** The words [splitTags] yields are not empty and hold no white space. *)
Lemma splitTags_from_words (s : string) :
  forall cur, free_of isspace cur = true ->
  forall t, In t (splitTags_from cur s) -> t <> "" /\ free_of isspace t = true.
Proof.
  induction s as [|c s IH]; intros cur Hcur t Ht; cbn [splitTags_from] in Ht.
  - destruct cur; cbn [is_empty] in Ht; [destruct Ht|].
    destruct Ht as [<-|[]]. split; [discriminate|exact Hcur].
  - destruct (isspace c) eqn:E.
    + destruct cur; cbn [is_empty] in Ht.
      * now apply (IH "").
      * destruct Ht as [<-|Ht]; [split; [discriminate|exact Hcur]|now apply (IH "")].
    + apply (IH (cur ++ String c "")); [|exact Ht].
      rewrite free_of_app, Hcur, free_of_cons, E. reflexivity.
Qed.

Lemma normalizeTagDisplayOne_word (t : string) :
  t <> "" -> free_of isspace t = true -> is_empty (normalizeTagDisplayOne t) = false.
Proof.
  intros Hne Hf. unfold normalizeTagDisplayOne. rewrite (trim_free t Hf).
  destruct t as [|c0 r0]; [easy|].
  destruct (Ascii.eqb c0 hash).
  - destruct (isAllCapsWord r0); [reflexivity|]. destruct r0; reflexivity.
  - destruct (isAllCapsWord (String c0 r0)); reflexivity.
Qed.

Lemma push_tags_entries (r : Rec) (m : TagMap) :
  push_tags r m
  = fold_left push_entry (map (fun t => (normalizeTagDisplayOne t, r)) (splitTags (tags r))) m.
Proof.
  unfold push_tags.
  assert (W : forall t, In t (splitTags (tags r)) ->
                        is_empty (normalizeTagDisplayOne t) = false).
  { intros t Ht. destruct (splitTags_from_words _ "" eq_refl t Ht).
    now apply normalizeTagDisplayOne_word. }
  revert m W. induction (splitTags (tags r)) as [|t ts IH]; intros m W; [reflexivity|].
  cbn [fold_left map]. rewrite (W t (or_introl eq_refl)).
  apply IH. intros t' Ht'. apply W. now right.
Qed.

Lemma byTag_of_entries (rows : list Rec) :
  byTag_of rows = fold_left push_entry (tag_entries rows) [].
Proof.
  unfold byTag_of. generalize (@nil (string * list Rec)).
  induction rows as [|r rows IH]; intros m; [reflexivity|].
  cbn [fold_left tag_entries flat_map]. rewrite fold_left_app, <- push_tags_entries.
  apply IH.
Qed.

(** ** The claim on grouped rendering *)

(** C4, as the code has it: the headings are the display forms of the tags of
    the rows (the leading [#] kept), each once, in ascending byte order; under
    a heading stand the records that carry a tag displayed so, in the order
    of the rows, a record once for each such tag; the text is the title, the
    groups one after the other, and the placeholder when there is no group,
    which is when no row has a tag.  A record tagged [#a #b] stands once under
    [#A] and once under [#B]. *)
Theorem renderGroupedByTagsMarkdown_groups (rows : list Rec) :
  let byTag := byTag_of rows in
  renderGroupedByTagsMarkdown rows
  = "## By Tag" ++ String nl (String nl
      (concat_str (map render_group byTag)
       ++ (if no_tags rows then "(No tags in range)" ++ String nl "" else "")))
  /\ StronglySorted str_lt (map fst byTag)
  /\ (forall k, In k (map fst byTag) <->
                exists r t, In r rows /\ In t (splitTags (tags r))
                            /\ normalizeTagDisplayOne t = k)
  /\ (forall k, group_at k byTag
                = map snd (filter (fun e => String.eqb (fst e) k) (tag_entries rows)))
  /\ (byTag = [] <-> no_tags rows = true)
  /\ (let r := MkRec 0 "article" "https://example.com/p" "T" "#a #b" in
      map fst (byTag_of [r]) = ["#A"; "#B"]
      /\ group_at "#A" (byTag_of [r]) = [r] /\ group_at "#B" (byTag_of [r]) = [r])
  /\ renderGroupedByTagsMarkdown [MkRec 0 "article" "https://example.com/p" "T" ""]
     = "## By Tag" ++ String nl (String nl ("(No tags in range)" ++ String nl "")).
Proof.
  cbv zeta. rewrite byTag_of_entries.
  destruct (push_entries_spec (tag_entries rows)) as (Hs & Hk & Hg). cbv zeta in *.
  set (m := fold_left push_entry (tag_entries rows) []) in *.
  assert (Hin : forall k, In k (map fst (tag_entries rows)) <->
                          exists r t, In r rows /\ In t (splitTags (tags r))
                                      /\ normalizeTagDisplayOne t = k).
  { intros k. unfold tag_entries. rewrite in_map_iff. split.
    - intros ([k' r] & <- & H). apply in_flat_map in H as (r0 & Hr0 & H).
      apply in_map_iff in H as (t & E & Ht). injection E as <- <-. eauto.
    - intros (r & t & Hr & Ht & <-). exists (normalizeTagDisplayOne t, r).
      split; [reflexivity|]. apply in_flat_map. exists r. split; [exact Hr|].
      apply in_map_iff. eauto. }
  assert (Hnil : m = [] <-> no_tags rows = true).
  { unfold no_tags. rewrite forallb_forall. split.
    - intros E r Hr. destruct (splitTags (tags r)) as [|t ts] eqn:Et; [reflexivity|].
      exfalso. assert (H : In (normalizeTagDisplayOne t) (keys m)).
      { apply Hk, Hin. exists r, t. rewrite Et. simpl. auto. }
      rewrite E in H. destruct H.
    - intros H. destruct m as [|[k vs] m'] eqn:Em; [reflexivity|]. exfalso.
      assert (Hk0 : In k (map fst (tag_entries rows))) by (apply Hk; now left).
      apply Hin in Hk0 as (r & t & Hr & Ht & _).
      specialize (H r Hr). destruct (splitTags (tags r)); [destruct Ht|discriminate]. }
  split; [|split; [exact Hs|split; [|split; [exact Hg|split; [exact Hnil|]]]]].
  - unfold renderGroupedByTagsMarkdown. rewrite byTag_of_entries. fold m.
    destruct (no_tags rows).
    + rewrite (proj2 Hnil eq_refl). reflexivity.
    + destruct m as [|g m']; [|reflexivity].
      discriminate (proj1 Hnil eq_refl).
  - intros k. unfold keys in Hk. now rewrite Hk.
  - split; [|vm_compute; reflexivity]. repeat split; vm_compute; reflexivity.
Qed.

(** C4, counterexample: [add] keeps the tags [foo] and [Foo] apart, both are
    displayed as [#Foo], and a record that carries the three tags
    [#foo #Foo #bar] stands under two headings, twice under [#Foo]; and the
    headings of a record tagged [#a #b] are [#A] and [#B], none is the bare
    ["A"]. *)
Lemma renderGroupedByTagsMarkdown_shared_heading :
  let r := MkRec 0 "article" "https://example.com/p" "T"
                 (normalizeTagsForStorage ["foo"; "Foo"; "bar"]) in
  let r' := MkRec 0 "article" "https://example.com/p" "T" "#a #b" in
  splitTags (tags r) = ["#foo"; "#Foo"; "#bar"]
  /\ map fst (byTag_of [r]) = ["#Bar"; "#Foo"]
  /\ group_at "#Foo" (byTag_of [r]) = [r; r]
  /\ map fst (byTag_of [r']) = ["#A"; "#B"]
  /\ group_at "A" (byTag_of [r']) = [].
Proof. repeat split; vm_compute; reflexivity. Qed.

(** ** Sorting *)

Lemma insert_behind_perm (comp : Rec -> Rec -> bool) (x : Rec) (l : list Rec) :
  Permutation (x :: l) (insert_behind comp x l).
Proof.
  induction l as [|y t IH]; cbn [insert_behind]; [reflexivity|].
  destruct (comp x y); [reflexivity|].
  rewrite perm_swap. now constructor.
Qed.

Lemma sort_behind_perm (comp : Rec -> Rec -> bool) (l : list Rec) :
  Permutation l (sort_behind comp l).
Proof.
  induction l as [|x l IH]; cbn [sort_behind fold_right]; [reflexivity|].
  fold (sort_behind comp l). rewrite <- insert_behind_perm. now constructor.
Qed.

Lemma insert_behind_sorted (key : Rec -> Z) (x : Rec) (l : list Rec) :
  StronglySorted (fun a b => key a <= key b) l ->
  StronglySorted (fun a b => key a <= key b)
                 (insert_behind (fun a b => key a <? key b) x l).
Proof.
  induction l as [|y t IH]; intros H; cbn [insert_behind].
  - constructor; constructor.
  - inversion H as [|? ? Hs Hf]; subst.
    destruct (Z.ltb_spec (key x) (key y)) as [L|L].
    + constructor; [exact H|]. constructor; [lia|].
      eapply Forall_impl; [|exact Hf]. cbv beta. intros z Hz. lia.
    + constructor; [now apply IH|].
      eapply Permutation_Forall; [apply insert_behind_perm|].
      constructor; [exact L|exact Hf].
Qed.

Lemma sort_behind_sorts (key : Rec -> Z) (l : list Rec) :
  StronglySorted (fun a b => key a <= key b) (sort_behind (fun a b => key a <? key b) l).
Proof.
  induction l as [|x l IH]; cbn [sort_behind fold_right]; [constructor|].
  now apply insert_behind_sorted.
Qed.

Lemma sort_behind_contract : sorts_by_key sort_behind.
Proof. intros key l. split; [apply sort_behind_perm|apply sort_behind_sorts]. Qed.

(** ** The claim on filtering *)

(** C2, as the code has it: whatever rearrangement [std::sort] returns, the
    result holds exactly the records of the input dated from the start to the
    end, both included, each as often as in the input, in ascending order of
    date; a record dated the day before the start or the day after the end is
    not in it. *)
Theorem filterByDateRange_sorted_in_range
    (std_sort : (Rec -> Rec -> bool) -> list Rec -> list Rec)
    (all : list Rec) (a b : sys_days) :
  sorts_by_key std_sort ->
  let out := filterByDateRange std_sort all a b in
  Permutation (filter (fun r => (a <=? date r) && (date r <=? b)) all) out
  /\ StronglySorted (fun x y => date x <= date y) out
  /\ (forall r, In r out <-> In r all /\ a <= date r <= b)
  /\ (forall r, In r out -> date r <> a - 1 /\ date r <> b + 1).
Proof.
  intros H. cbv zeta. unfold filterByDateRange.
  destruct (H date (filter (fun r => (a <=? date r) && (date r <=? b)) all)) as [Hp Hs].
  assert (Hin : forall r, In r (std_sort (fun x y => date x <? date y)
                                  (filter (fun r => (a <=? date r) && (date r <=? b)) all))
                          <-> In r all /\ a <= date r <= b).
  { intros r. split.
    - intros Hr. apply (Permutation_in _ (Permutation_sym Hp)) in Hr.
      apply filter_In in Hr as [Hr Hc]. apply andb_true_iff in Hc as [H1 H2].
      apply Z.leb_le in H1, H2. auto.
    - intros [Hr [H1 H2]]. apply (Permutation_in _ Hp). apply filter_In.
      split; [exact Hr|]. apply andb_true_iff. split; now apply Z.leb_le. }
  split; [exact Hp|]. split; [exact Hs|]. split; [exact Hin|].
  intros r Hr. apply Hin in Hr. lia.
Qed.

Lemma filterByDateRange_sorted_in_range_witness :
  let all := [MkRec 12 "a" "u1" "" ""; MkRec 9 "b" "u2" "" ""; MkRec 10 "c" "u3" "" "";
              MkRec 13 "d" "u4" "" ""; MkRec 10 "e" "u5" "" ""] in
  sorts_by_key sort_behind
  /\ (let out := filterByDateRange sort_behind all 10 12 in
      Permutation (filter (fun r => (10 <=? date r) && (date r <=? 12)) all) out
      /\ StronglySorted (fun x y => date x <= date y) out
      /\ (forall r, In r out <-> In r all /\ 10 <= date r <= 12)
      /\ (forall r, In r out -> date r <> 10 - 1 /\ date r <> 12 + 1)).
Proof.
  split.
  - exact sort_behind_contract.
  - apply (filterByDateRange_sorted_in_range sort_behind). exact sort_behind_contract.
Defined.

(** C2, counterexample: seventeen records of one date, all in range, come out
    of the library's sort in another order than the input has them; and a sort
    that keeps the promise of [std::sort] may exchange even two such records. *)
Lemma filterByDateRange_not_stable :
  let many := map (fun i => MkRec 10 "article" "https://a.example" (show_int i) "")
                  (map Z.of_nat (seq 1 17)) in
  let r1 := MkRec 10 "article" "https://a.example" "first" "" in
  let r2 := MkRec 10 "article" "https://b.example" "second" "" in
  map title (filterByDateRange (libstdcxx_sort Rec) many 10 10)
  = ["9"; "17"; "16"; "15"; "14"; "13"; "12"; "11"; "10"; "1"; "8"; "7"; "6"; "5"; "4";
     "3"; "2"]
  /\ ~ keeps_order_of_equal_dates many (filterByDateRange (libstdcxx_sort Rec) many 10 10)
  /\ sorts_by_key sort_behind
  /\ filterByDateRange sort_behind [r1; r2] 10 10 = [r2; r1]
  /\ ~ keeps_order_of_equal_dates [r1; r2] (filterByDateRange sort_behind [r1; r2] 10 10).
Proof.
  split; [vm_compute; reflexivity|].
  split; [intros H; specialize (H 10); vm_compute in H; discriminate H|].
  split; [exact sort_behind_contract|]. split; [vm_compute; reflexivity|].
  intros H. specialize (H 10). vm_compute in H. discriminate H.
Qed.

(** ** The claim on archiving *)

Lemma path_eqb_refl (p : path) : path_eqb p p = true.
Proof. unfold path_eqb. now rewrite !String.eqb_refl. Qed.

Lemma fs_set_same (p : path) (c : option string) (fs : FS) : fs_set p c fs p = c.
Proof. unfold fs_set. now rewrite path_eqb_refl. Qed.

Lemma fs_set_other (p q : path) (c : option string) (fs : FS) :
  path_eqb q p = false -> fs_set p c fs q = fs q.
Proof. unfold fs_set. now intros ->. Qed.

(** The archive is never the inbox: their names differ. *)
Lemma archive_is_not_inbox (home stamp : string) (a : Args) :
  path_eqb (inboxPath home) (archivePath home stamp a) = false
  /\ path_eqb (archivePath home stamp a) (inboxPath home) = false.
Proof.
  unfold path_eqb, inboxPath, archivePath. cbn [name dir].
  split; apply andb_false_iff; right; reflexivity.
Qed.

(** C5, for one run: when the inbox exists, a run of [clear-inbox] ends with
    the content the inbox had still in the inbox or else in the archive of
    that run; when [rename] fails and [copy_file] fails too, the run exits with
    code 2 and the inbox is as it was; and whenever the run does not exit with
    0, the inbox is as it was. *)
Theorem cmd_clear_inbox_keeps_records
    (home stamp : string) (f : Faults) (a : Args) (fs : FS) (content : string) :
  fs (inboxPath home) = Some content ->
  let res := cmd_clear_inbox home stamp f a fs in
  (home_dir_ok f = true -> archive_dir_ok f = true -> rename_ok f = false ->
   (exists left_behind, copy_file f = CopyFailed left_behind) ->
   fst res = Exit 2 /\ snd res (inboxPath home) = Some content)
  /\ (snd res (inboxPath home) = Some content
      \/ snd res (archivePath home stamp a) = Some content)
  /\ (fst res <> Exit 0 -> snd res (inboxPath home) = Some content)
  /\ (loadInbox 0 (snd res (inboxPath home)) = loadInbox 0 (Some content)
      \/ loadInbox 0 (snd res (archivePath home stamp a)) = loadInbox 0 (Some content)).
Proof.
  intros Hin. cbv zeta.
  destruct (archive_is_not_inbox home stamp a) as [Hia Hai].
  assert (Hkeep : forall c, fs_set (archivePath home stamp a) c fs (inboxPath home)
                            = Some content).
  { intros c. now rewrite fs_set_other. }
  assert (Hmoved : forall g, truncate_inbox f home (fs_set (archivePath home stamp a)
                                                          (Some content) g)
                               (archivePath home stamp a) = Some content).
  { intros g. unfold truncate_inbox. destruct (open_ok f).
    - rewrite fs_set_other by exact Hai. apply fs_set_same.
    - apply fs_set_same. }
  unfold cmd_clear_inbox. rewrite Hin.
  destruct (home_dir_ok f); cbn [negb].
  - destruct (archive_dir_ok f); cbn [negb].
    + destruct (rename_ok f).
      * cbn [fst snd]. rewrite Hmoved. split; [|split; [|split]].
        -- intros _ _ Hr. discriminate Hr.
        -- now right.
        -- intros H. now contradiction H.
        -- now right.
      * destruct (copy_file f) as [|l]; cbn [fst snd].
        -- rewrite Hmoved. split; [|split; [|split]].
           ++ intros _ _ _ [l Hl]. discriminate Hl.
           ++ now right.
           ++ intros H. now contradiction H.
           ++ now right.
        -- rewrite Hkeep. split; [|split; [|split]]; auto.
    + cbn [fst snd]. rewrite Hin. split; [|split; [|split]]; auto.
      intros _ Hm. discriminate Hm.
  - cbn [fst snd]. rewrite Hin. split; [|split; [|split]]; auto.
    intros Hm. discriminate Hm.
Qed.

Lemma cmd_clear_inbox_keeps_records_witness :
  let fs : FS := fun p => if path_eqb p (inboxPath ".") then Some "2024-01-01" else None in
  let f := MkFaults true true false (CopyFailed None) true in
  let a := MkArgs "clear-inbox" "" [] "" None "" in
  let res := cmd_clear_inbox "." "20240102-030405" f a fs in
  fs (inboxPath ".") = Some "2024-01-01"
  /\ fst res = Exit 2 /\ snd res (inboxPath ".") = Some "2024-01-01".
Proof.
  cbv zeta. split; [reflexivity|].
  refine (proj1 (cmd_clear_inbox_keeps_records "." "20240102-030405"
                   (MkFaults true true false (CopyFailed None) true)
                   (MkArgs "clear-inbox" "" [] "" None "")
                   (fun p => if path_eqb p (inboxPath ".") then Some "2024-01-01" else None)
                   "2024-01-01" eq_refl) eq_refl eq_refl eq_refl _).
  exists None. reflexivity.
Defined.

(** C5, counterexample: two runs in one second, nothing failing.  The first
    moves the record to the archive; the second renames the emptied inbox over
    that archive, whose name has the same time stamp, and the record is then in
    no file at all. *)
Lemma cmd_clear_inbox_archive_replaced :
  let line := joinTabs ["2024-01-01"; "link"; "https://a.example"; "A"; "#x"] in
  let r := MkRec (days_from_civil 2024 1 1) "link" "https://a.example" "A" "#x" in
  let fs : FS := fun p => if path_eqb p (inboxPath ".")
                          then Some (line ++ String nl "") else None in
  let a := MkArgs "clear-inbox" "" [] "" None "" in
  let first := cmd_clear_inbox "." "20240102-030405" no_faults a fs in
  let second := cmd_clear_inbox "." "20240102-030405" no_faults a (snd first) in
  loadInbox 0 (fs (inboxPath ".")) = [r]
  /\ fst first = Exit 0
  /\ loadInbox 0 (snd first (archivePath "." "20240102-030405" a)) = [r]
  /\ fst second = Exit 0
  /\ forall p, loadInbox 0 (snd second p) = [].
Proof.
  cbv zeta. split; [vm_compute; reflexivity|]. split; [reflexivity|].
  split; [vm_compute; reflexivity|]. split; [reflexivity|].
  intros p. unfold cmd_clear_inbox, truncate_inbox, fs_set.
  cbn [no_faults home_dir_ok archive_dir_ok rename_ok open_ok negb snd fst].
  rewrite !path_eqb_refl. cbn [snd].
  destruct (archive_is_not_inbox "." "20240102-030405"
              (MkArgs "clear-inbox" "" [] "" None "")) as [Hia Hai].
  repeat (rewrite ?path_eqb_refl, ?Hia, ?Hai; cbn [snd]).
  destruct (path_eqb p (inboxPath ".")); [reflexivity|].
  destruct (path_eqb p (archivePath "." "20240102-030405"
                          (MkArgs "clear-inbox" "" [] "" None ""))); reflexivity.
Qed.

(** ** Further properties of the code

    The calendar first. *)

Lemma march1_step (y : Z) : 365 <= march1 y - march1 (y - 1) <= 366.
Proof. unfold march1. Z.to_euclidean_division_equations; lia. Qed.

Lemma days_from_civil_march (y m d : Z) :
  days_from_civil y m d
  = march1 (if m <=? 2 then y - 1 else y)
    + ((153 * (if 2 <? m then m - 3 else m + 9) + 2) / 5 + d - 1) - 719468.
Proof. unfold days_from_civil, march1. cbv zeta. lia. Qed.

Lemma days_from_civil_in_year (y m d : Z) :
  1 <= m <= 12 -> 1 <= d <= 31 ->
  days_from_civil y 1 4 - 3 <= days_from_civil y m d <= days_from_civil y 1 4 + 362.
Proof.
  intros Hm Hd. rewrite !days_from_civil_march.
  pose proof (march1_step y) as S.
  change (1 <=? 2) with true. change (2 <? 1) with false. cbv iota.
  change ((153 * (1 + 9) + 2) / 5) with 306.
  destruct (Z.leb_spec m 2) as [L|L]; destruct (Z.ltb_spec 2 m) as [L'|L']; try lia.
  - assert (306 <= (153 * (m + 9) + 2) / 5 <= 337).
    { split; [apply Z.div_le_lower_bound; lia|apply Z.div_le_upper_bound; lia]. }
    lia.
  - assert (0 <= (153 * (m - 3) + 2) / 5 <= 275).
    { split; [apply Z.div_pos; lia|].
      assert ((153 * (m - 3) + 2) / 5 < 276) by (apply Z.div_lt_upper_bound; lia). lia. }
    lia.
Qed.

Lemma year_contains_day (t : sys_days) :
  let y := ymd_year (civil_from_days t) in
  days_from_civil y 1 4 - 3 <= t <= days_from_civil y 1 4 + 362.
Proof.
  cbv zeta. destruct (civil_from_days_fields t) as [Hm Hd].
  rewrite <- (days_from_civil_from_days t) at 2 3.
  now apply days_from_civil_in_year.
Qed.

Lemma week1_monday_window (y : Z) :
  days_from_civil y 1 4 - 6 <= week1_monday_of y <= days_from_civil y 1 4
  /\ week1_monday_of y mod 7 = 4.
Proof.
  unfold week1_monday_of. cbv zeta.
  pose proof (days_since_monday_range (days_from_civil y 1 4)).
  split; [lia|apply monday_of_mod7].
Qed.

Lemma week_number_range (z : sys_days) :
  sys_days_ok z -> 1 <= iw_week (isoWeekFromDate z) <= 53.
Proof.
  intros Hz. unfold sys_days_ok in Hz. unfold isoWeekFromDate. cbn [iw_week].
  set (monday := z - days_since_monday z).
  set (y := ymd_year (civil_from_days (monday + 3))).
  pose proof (days_since_monday_range z) as Hr.
  pose proof (year_contains_day (monday + 3)) as Hy. cbv zeta in Hy. fold y in Hy.
  destruct (week1_monday_window y) as [Hw Hw7].
  assert (Hm7 : monday mod 7 = 4) by apply monday_of_mod7.
  pose proof (mondays_apart _ _ Hm7 Hw7) as Hq.
  assert (Hd : -7 < monday - week1_monday_of y <= 365) by lia.
  rewrite to_int_small by lia. lia.
Qed.

(** X1: the week number [isoWeekFromDate] gives is from 1 to 53, for every day
    the calendar of the library can hold. *)
Theorem isoWeekFromDate_week_range (z : sys_days) :
  sys_days_ok z -> 1 <= iw_week (isoWeekFromDate z) <= 53.
Proof. exact (week_number_range z). Qed.

Lemma days_since_monday_from_monday (m k : Z) :
  m mod 7 = 4 -> 0 <= k <= 6 -> days_since_monday (m + k) = k.
Proof.
  intros Hm Hk. unfold days_since_monday, weekday_c_encoding.
  pose proof (Z.div_mod m 7 ltac:(lia)) as D. rewrite Hm in D.
  replace (m + k + 4) with (k + 1 + (m / 7 + 1) * 7) by lia.
  rewrite Z.mod_add by lia.
  destruct (Z.eq_dec k 6) as [->|Hn]; [reflexivity|].
  rewrite Z.mod_small by lia.
  destruct (Z.eqb_spec (k + 1) 0); lia.
Qed.

Lemma isoWeekFromDate_week_range_witness :
  1 <= iw_week (isoWeekFromDate (days_from_civil 2023 1 1)) <= 53.
Proof. apply isoWeekFromDate_week_range. unfold sys_days_ok. vm_compute. split; discriminate. Defined.

Lemma same_week_days (z k : sys_days) :
  0 <= k <= 6 ->
  let w := isoWeekFromDate z in
  isoWeekFromDate (iw_monday w + k) = w
  /\ weekday_c_encoding (iw_monday w) = 1
  /\ weekday_c_encoding (iw_sunday w) = 0
  /\ iw_sunday w = iw_monday w + 6
  /\ iw_monday w <= z <= iw_sunday w.
Proof.
  intros Hk. cbv zeta.
  assert (Hm : iw_monday (isoWeekFromDate z) = z - days_since_monday z) by reflexivity.
  assert (Hs : iw_sunday (isoWeekFromDate z) = z - days_since_monday z + 6) by reflexivity.
  pose proof (monday_of_mod7 z) as H7. pose proof (days_since_monday_range z) as Hr.
  rewrite Hs, Hm. split; [|split; [|split; [|split]]].
  - unfold isoWeekFromDate at 1. cbv zeta.
    rewrite (days_since_monday_from_monday _ k H7 Hk).
    replace (z - days_since_monday z + k - k) with (z - days_since_monday z) by lia.
    reflexivity.
  - unfold weekday_c_encoding.
    pose proof (Z.div_mod (z - days_since_monday z) 7 ltac:(lia)) as D. rewrite H7 in D.
    replace (z - days_since_monday z + 4)
      with (1 + ((z - days_since_monday z) / 7 + 1) * 7) by lia.
    now rewrite Z.mod_add by lia.
  - unfold weekday_c_encoding.
    pose proof (Z.div_mod (z - days_since_monday z) 7 ltac:(lia)) as D. rewrite H7 in D.
    replace (z - days_since_monday z + 6 + 4)
      with (0 + ((z - days_since_monday z) / 7 + 2) * 7) by lia.
    now rewrite Z.mod_add by lia.
  - reflexivity.
  - lia.
Qed.

(** X2: every day from the Monday to the Sunday of the ISO week of a date has
    that same ISO week; the week starts on a Monday, ends six days later on a
    Sunday, and holds the date. *)
Theorem isoWeekFromDate_same_week (z k : sys_days) :
  0 <= k <= 6 ->
  let w := isoWeekFromDate z in
  isoWeekFromDate (iw_monday w + k) = w
  /\ weekday_c_encoding (iw_monday w) = 1
  /\ weekday_c_encoding (iw_sunday w) = 0
  /\ iw_sunday w = iw_monday w + 6
  /\ iw_monday w <= z <= iw_sunday w.
Proof. exact (same_week_days z k). Qed.

Lemma isoWeekFromDate_same_week_witness :
  isoWeekFromDate (iw_monday (isoWeekFromDate 19358) + 3) = isoWeekFromDate 19358.
Proof. apply (isoWeekFromDate_same_week 19358 3). lia. Defined.

(** *** Four digits and two digits *)

Lemma digit_char_zero (k : Z) : 0 <= k <= 9 -> digit_char k = "0"%char -> k = 0.
Proof.
  intros Hk E. destruct (digit_char_cases k Hk) as [_ V]. rewrite E in V.
  symmetry. exact V.
Qed.

Lemma digits4_sound (y : Z) :
  1000 <= y <= 9999 ->
  all_digits (digits4 y) = true /\ stoi (digits4 y) = y /\ show_int y = digits4 y.
Proof.
  intros Hy.
  assert (H3 : 1 <= y / 1000 <= 9).
  { split; [apply Z.div_le_lower_bound; lia|].
    assert (y / 1000 < 10) by (apply Z.div_lt_upper_bound; lia). lia. }
  assert (H2 : 0 <= y / 100 mod 10 <= 9) by
    (pose proof (Z.mod_pos_bound (y / 100) 10 ltac:(lia)); lia).
  assert (H1 : 0 <= y / 10 mod 10 <= 9) by
    (pose proof (Z.mod_pos_bound (y / 10) 10 ltac:(lia)); lia).
  assert (H0 : 0 <= y mod 10 <= 9) by
    (pose proof (Z.mod_pos_bound y 10 ltac:(lia)); lia).
  destruct (digit_char_cases _ (conj (Z.le_trans 0 1 _ ltac:(lia) (proj1 H3)) (proj2 H3)))
    as [D3 V3].
  destruct (digit_char_cases _ H2) as [D2 V2].
  destruct (digit_char_cases _ H1) as [D1 V1].
  destruct (digit_char_cases _ H0) as [D0 V0].
  assert (Hd : all_digits (digits4 y) = true).
  { unfold all_digits, digits4. cbn [list_ascii_of_string forallb].
    now rewrite D3, D2, D1, D0. }
  assert (Hv : stoi (digits4 y) = y).
  { unfold stoi, digits4. cbn [stoi_from]. rewrite V3, V2, V1, V0.
    clear. Z.to_euclidean_division_equations. lia. }
  split; [exact Hd|]. split; [exact Hv|].
  rewrite show_int_nonneg by lia. rewrite <- Hv at 1.
  apply show_nonneg_stoi; [exact Hd|].
  unfold digits4. eexists. eexists. split; [reflexivity|].
  intros E. apply digit_char_zero in E; lia.
Qed.

Lemma digits2_sound (m : Z) :
  0 <= m <= 99 ->
  all_digits (digits2 m) = true /\ stoi (digits2 m) = m
  /\ setw_fill 2 "0" (show_int m) = digits2 m.
Proof.
  intros Hm.
  assert (H1 : 0 <= m / 10 <= 9).
  { split; [apply Z.div_pos; lia|].
    assert (m / 10 < 10) by (apply Z.div_lt_upper_bound; lia). lia. }
  assert (H0 : 0 <= m mod 10 <= 9) by
    (pose proof (Z.mod_pos_bound m 10 ltac:(lia)); lia).
  destruct (digit_char_cases _ H1) as [D1 V1].
  destruct (digit_char_cases _ H0) as [D0 V0].
  assert (Hd : all_digits (digits2 m) = true).
  { unfold all_digits, digits2. cbn [list_ascii_of_string forallb]. now rewrite D1, D0. }
  assert (Hv : stoi (digits2 m) = m).
  { unfold stoi, digits2. cbn [stoi_from]. rewrite V1, V0.
    clear. Z.to_euclidean_division_equations. lia. }
  split; [exact Hd|]. split; [exact Hv|].
  rewrite <- Hv at 1. now apply setw_fill_stoi_2.
Qed.

Lemma match_iso_date_digits (y m d : Z) :
  1000 <= y <= 9999 -> 0 <= m <= 99 -> 0 <= d <= 99 ->
  match_iso_date (digits4 y ++ "-" ++ digits2 m ++ "-" ++ digits2 d)
  = Some (digits4 y, digits2 m, digits2 d).
Proof.
  intros Hy Hm Hd.
  destruct (digits4_sound y Hy) as (Ay & _ & _).
  destruct (digits2_sound m Hm) as (Am & _ & _).
  destruct (digits2_sound d Hd) as (Ad & _ & _).
  unfold match_iso_date, digits4, digits2 in *.
  cbn [append String.length substring Nat.eqb].
  rewrite Ay, Am, Ad. reflexivity.
Qed.

Lemma date_read_back (z : sys_days) :
  1000 <= ymd_year (civil_from_days z) <= 9999 ->
  parseISODate (fmtDate z) = Some z.
Proof.
  intros Hy. destruct (civil_from_days_fields z) as [Hm Hd].
  destruct (digits4_sound _ Hy) as (_ & Vy & Sy).
  destruct (digits2_sound (ymd_month (civil_from_days z)) ltac:(lia)) as (_ & Vm & Sm).
  destruct (digits2_sound (ymd_day (civil_from_days z)) ltac:(lia)) as (_ & Vd & Sd).
  unfold parseISODate, fmtDate. cbv zeta. rewrite Sy, Sm, Sd.
  rewrite match_iso_date_digits by lia. rewrite Vy, Vm, Vd.
  rewrite days_from_civil_from_days, !Z.eqb_refl. cbn [negb orb].
  destruct (Z.ltb_spec (ymd_month (civil_from_days z)) 1); [lia|].
  destruct (Z.ltb_spec 12 (ymd_month (civil_from_days z))); [lia|].
  destruct (Z.ltb_spec (ymd_day (civil_from_days z)) 1); [lia|].
  destruct (Z.ltb_spec 31 (ymd_day (civil_from_days z))); [lia|].
  reflexivity.
Qed.

(** X3: a date of the years 1000 to 9999 is read back from its own text. *)
Theorem parseISODate_fmtDate_accepts (z : sys_days) :
  1000 <= ymd_year (civil_from_days z) <= 9999 ->
  parseISODate (fmtDate z) = Some z.
Proof. exact (date_read_back z). Qed.

Lemma parseISODate_fmtDate_accepts_witness :
  parseISODate (fmtDate 19358) = Some 19358.
Proof. apply parseISODate_fmtDate_accepts. vm_compute. split; discriminate. Defined.

Lemma match_iso_week_digits (y w : Z) :
  1000 <= y <= 9999 -> 0 <= w <= 99 ->
  match_iso_week (digits4 y ++ "-W" ++ digits2 w) = Some (digits4 y, digits2 w).
Proof.
  intros Hy Hw.
  destruct (digits4_sound y Hy) as (Ay & _ & _).
  destruct (digits2_sound w Hw) as (Aw & _ & _).
  unfold match_iso_week, digits4, digits2 in *.
  cbn [append String.length substring Nat.eqb].
  rewrite Ay, Aw. reflexivity.
Qed.

Lemma match_iso_week_inv (s gy gw : string) :
  match_iso_week s = Some (gy, gw) ->
  s = gy ++ "-W" ++ gw
  /\ all_digits gy = true /\ all_digits gw = true
  /\ String.length gy = 4%nat /\ String.length gw = 2%nat.
Proof.
  unfold match_iso_week.
  destruct (Nat.eqb_spec (String.length s) 8) as [L|L]; [|discriminate].
  do 8 (destruct s as [|? s]; [discriminate L|]).
  destruct s; [|discriminate L]. clear L.
  cbn [substring].
  match goal with
  | |- (if ?c then _ else _) = _ -> _ => destruct c eqn:C; [|discriminate]
  end.
  intros H. inversion H; subst; clear H.
  apply andb_true_iff in C as [C E]. apply andb_true_iff in C as [C Dw].
  apply andb_true_iff in C as [_ Dy].
  apply String.eqb_eq in E. inversion E; subst.
  repeat split; assumption.
Qed.

Lemma stoi_digits_bound (g : string) :
  all_digits g = true -> 0 <= stoi g < 10 ^ Z.of_nat (String.length g).
Proof.
  intros Hd. unfold stoi.
  assert (G : forall acc, 0 <= acc ->
            acc * 10 ^ Z.of_nat (String.length g) <= stoi_from acc g
            < (acc + 1) * 10 ^ Z.of_nat (String.length g)).
  { induction g as [|c g IH]; intros acc Hacc.
    - simpl. lia.
    - unfold all_digits in Hd. simpl in Hd. apply andb_true_iff in Hd as [Hc Hg].
      destruct (isdigit_val c Hc) as [Hv _].
      specialize (IH Hg (acc * 10 + digit_val c) ltac:(lia)).
      cbn [stoi_from String.length]. rewrite Nat2Z.inj_succ, Z.pow_succ_r by lia.
      assert (0 < 10 ^ Z.of_nat (String.length g)) by (apply Z.pow_pos_nonneg; lia).
      nia. }
  specialize (G 0 ltac:(lia)). lia.
Qed.

Lemma week_label_round_trip :
  (forall y w, 1000 <= y <= 9999 -> 1 <= w <= 53 ->
               parseISOWeekStr (fmtISOWeek y w) = Some (y, w))
  /\ (forall s y w, parseISOWeekStr s = Some (y, w) ->
        0 <= y <= 9999 /\ 1 <= w <= 53 /\ (1000 <= y -> fmtISOWeek y w = s)).
Proof.
  split.
  - intros y w Hy Hw.
    destruct (digits4_sound y Hy) as (_ & Vy & Sy).
    destruct (digits2_sound w ltac:(lia)) as (_ & Vw & Sw).
    unfold parseISOWeekStr, fmtISOWeek. rewrite Sy, Sw.
    rewrite match_iso_week_digits by lia. rewrite Vy, Vw.
    destruct (Z.ltb_spec w 1); [lia|]. destruct (Z.ltb_spec 53 w); [lia|]. reflexivity.
  - intros s y w. unfold parseISOWeekStr.
    destruct (match_iso_week s) as [[gy gw]|] eqn:M; [|discriminate].
    apply match_iso_week_inv in M. destruct M as (-> & Dy & Dw & Ly & Lw).
    destruct (Z.ltb_spec (stoi gw) 1); [discriminate|].
    destruct (Z.ltb_spec 53 (stoi gw)); [discriminate|].
    cbn [orb]. intros E. injection E as <- <-.
    pose proof (stoi_digits_bound gy Dy) as By. rewrite Ly in By.
    change (10 ^ Z.of_nat 4) with 10000 in By.
    split; [lia|]. split; [lia|]. intros Hy.
    unfold fmtISOWeek. rewrite (setw_fill_stoi_2 gw Dw Lw).
    rewrite show_int_nonneg by lia. rewrite show_nonneg_stoi; [reflexivity|exact Dy|].
    destruct gy as [|c r]; [discriminate Ly|]. exists c, r. split; [reflexivity|].
    intros ->. do 3 (destruct r as [|? r]; [discriminate Ly|]).
    destruct r; [|discriminate Ly].
    unfold all_digits in Dy. cbn [list_ascii_of_string forallb] in Dy.
    apply andb_true_iff in Dy as [_ Dy]. apply andb_true_iff in Dy as [D1 Dy].
    apply andb_true_iff in Dy as [D2 Dy]. apply andb_true_iff in Dy as [D3 _].
    destruct (isdigit_val _ D1) as [V1 _]. destruct (isdigit_val _ D2) as [V2 _].
    destruct (isdigit_val _ D3) as [V3 _].
    unfold stoi in Hy. cbn [stoi_from] in Hy. change (digit_val "0") with 0 in Hy. lia.
Qed.

(** X4: the label of an ISO week is read back as the week when the year has
    four digits and the week is from 1 to 53; what [parseISOWeekStr] accepts
    is a year from 0 to 9999 with a week from 1 to 53, and it is the text of
    that week when the year is 1000 or later. *)
Theorem parseISOWeekStr_fmtISOWeek :
  (forall y w, 1000 <= y <= 9999 -> 1 <= w <= 53 ->
               parseISOWeekStr (fmtISOWeek y w) = Some (y, w))
  /\ (forall s y w, parseISOWeekStr s = Some (y, w) ->
        0 <= y <= 9999 /\ 1 <= w <= 53 /\ (1000 <= y -> fmtISOWeek y w = s)).
Proof. exact week_label_round_trip. Qed.

(** *** Years on the line of days *)

Lemma jan1_step (y : Z) :
  365 <= days_from_civil (y + 1) 1 1 - days_from_civil y 1 1 <= 366.
Proof.
  rewrite !days_from_civil_march. change (1 <=? 2) with true. cbv iota.
  replace (y + 1 - 1) with y by lia. pose proof (march1_step y). lia.
Qed.

Lemma jan1_mono (n : nat) (y : Z) :
  days_from_civil y 1 1 + 365 * Z.of_nat n <= days_from_civil (y + Z.of_nat n) 1 1.
Proof.
  induction n as [|n IH].
  - simpl. replace (y + 0) with y by lia. lia.
  - rewrite Nat2Z.inj_succ. replace (y + Z.succ (Z.of_nat n)) with (y + Z.of_nat n + 1) by lia.
    pose proof (jan1_step (y + Z.of_nat n)). lia.
Qed.

Lemma jan1_lt (y y' : Z) :
  y < y' -> days_from_civil (y + 1) 1 1 <= days_from_civil y' 1 1.
Proof.
  intros H. pose proof (jan1_mono (Z.to_nat (y' - (y + 1))) (y + 1)) as M.
  rewrite Z2Nat.id in M by lia. replace (y + 1 + (y' - (y + 1))) with y' in M by lia. lia.
Qed.

Lemma jan1_le (y y' : Z) : y <= y' -> days_from_civil y 1 1 <= days_from_civil y' 1 1.
Proof.
  intros H. pose proof (jan1_mono (Z.to_nat (y' - y)) y) as M.
  rewrite Z2Nat.id in M by lia. replace (y + (y' - y)) with y' in M by lia. lia.
Qed.

Lemma day_in_its_year (t : sys_days) :
  let y := ymd_year (civil_from_days t) in
  days_from_civil y 1 1 <= t < days_from_civil (y + 1) 1 1.
Proof.
  cbv zeta. destruct (civil_from_days_fields t) as [Hm Hd].
  set (y := ymd_year (civil_from_days t)).
  set (m := ymd_month (civil_from_days t)) in *.
  set (d := ymd_day (civil_from_days t)) in *.
  assert (E : t = days_from_civil y m d) by (symmetry; apply days_from_civil_from_days).
  rewrite E at 1 2. rewrite !days_from_civil_march.
  change (1 <=? 2) with true. change (2 <? 1) with false. cbv iota.
  replace (y + 1 - 1) with y by lia.
  change ((153 * (1 + 9) + 2) / 5) with 306.
  pose proof (march1_step y) as S.
  destruct (Z.leb_spec m 2) as [L|L]; destruct (Z.ltb_spec 2 m) as [L'|L']; try lia.
  - assert (306 <= (153 * (m + 9) + 2) / 5 <= 337).
    { split; [apply Z.div_le_lower_bound; lia|apply Z.div_le_upper_bound; lia]. }
    lia.
  - assert (0 <= (153 * (m - 3) + 2) / 5 <= 275).
    { split; [apply Z.div_pos; lia|].
      assert ((153 * (m - 3) + 2) / 5 < 276) by (apply Z.div_lt_upper_bound; lia). lia. }
    lia.
Qed.

(** The year of a day is the one year whose first of January is not after
    the day and whose successor's first of January is. *)
Lemma year_of_day (t : sys_days) (y : Z) :
  ymd_year (civil_from_days t) = y <->
  days_from_civil y 1 1 <= t < days_from_civil (y + 1) 1 1.
Proof.
  pose proof (day_in_its_year t) as H. cbv zeta in H. split.
  - intros <-. exact H.
  - intros Hy. set (Y := ymd_year (civil_from_days t)) in *.
    destruct (Z.lt_trichotomy Y y) as [L|[E|L]]; [|exact E|].
    + pose proof (jan1_lt Y y L). lia.
    + pose proof (jan1_lt y Y L). lia.
Qed.

Lemma jan4_is_jan1_plus_3 (y : Z) : days_from_civil y 1 4 = days_from_civil y 1 1 + 3.
Proof. rewrite !days_from_civil_march. lia. Qed.

Lemma week_of_bounds_days (y w k : Z) :
  -32766 <= y <= 32766 -> 1 <= w <= 52 -> 0 <= k <= 6 ->
  isoWeekFromDate (iw_monday (weekBounds y w) + k) = weekBounds y w
  /\ sys_days_ok (iw_monday (weekBounds y w) + k).
Proof.
  intros Hy16 Hw Hk. unfold weekBounds. cbn [iw_monday].
  destruct (week1_monday_window y) as [Hwin H7].
  rewrite jan4_is_jan1_plus_3 in Hwin.
  pose proof (jan1_le (-32766) y (proj1 Hy16)) as Lo.
  pose proof (jan1_le y 32766 (proj2 Hy16)) as Hi.
  change (days_from_civil (-32766) 1 1) with (-12687063) in Lo.
  change (days_from_civil 32766 1 1) with 11248008 in Hi.
  set (w1 := week1_monday_of y) in *.
  split; [|unfold sys_days_ok; lia].
  assert (Hm7 : (w1 + 7 * (w - 1)) mod 7 = 4).
  { rewrite Z.mul_comm, Z.mod_add by lia. exact H7. }
  unfold isoWeekFromDate. cbv zeta.
  rewrite (days_since_monday_from_monday _ k Hm7 Hk).
  replace (w1 + 7 * (w - 1) + k - k) with (w1 + 7 * (w - 1)) by lia.
  assert (Hy : ymd_year (civil_from_days (w1 + 7 * (w - 1) + 3)) = y).
  { apply year_of_day. pose proof (jan1_step y). lia. }
  rewrite Hy. fold w1.
  replace (w1 + 7 * (w - 1) - w1) with ((w - 1) * 7) by lia.
  rewrite Z.quot_mul by lia. rewrite to_int_small by lia.
  replace (1 + (w - 1)) with w by lia. reflexivity.
Qed.

(** X5: for a year that [year] can hold, its two ends apart, and a week from 1
    to 52, every day from the Monday to the Sunday that [weekBounds] gives is a
    day the calendar of the library can hold, and has that year and that week
    as its ISO week, with the same Monday and Sunday. *)
Theorem isoWeekFromDate_weekBounds (y w k : Z) :
  -32766 <= y <= 32766 -> 1 <= w <= 52 -> 0 <= k <= 6 ->
  isoWeekFromDate (iw_monday (weekBounds y w) + k) = weekBounds y w
  /\ sys_days_ok (iw_monday (weekBounds y w) + k).
Proof. exact (week_of_bounds_days y w k). Qed.

Lemma isoWeekFromDate_weekBounds_witness :
  isoWeekFromDate (iw_monday (weekBounds 2024 1) + 2) = weekBounds 2024 1
  /\ sys_days_ok (iw_monday (weekBounds 2024 1) + 2).
Proof. apply (isoWeekFromDate_weekBounds 2024 1 2); lia. Defined.

(** X6: the weeks [weekBounds] gives for one year tile the days: each starts on
    a Monday, and week [w + 1] starts the day after week [w] ends; week 1
    holds the fourth of January. *)
Theorem weekBounds_tiles (y w : Z) :
  weekday_c_encoding (iw_monday (weekBounds y w)) = 1
  /\ iw_monday (weekBounds y (w + 1)) = iw_sunday (weekBounds y w) + 1
  /\ iw_monday (weekBounds y 1) <= days_from_civil y 1 4 <= iw_sunday (weekBounds y 1).
Proof.
  unfold weekBounds. cbn [iw_monday iw_sunday].
  destruct (week1_monday_window y) as [Hwin H7].
  set (w1 := week1_monday_of y) in *.
  split; [|split; lia].
  unfold weekday_c_encoding.
  pose proof (Z.div_mod w1 7 ltac:(lia)) as D. rewrite H7 in D.
  replace (w1 + 7 * (w - 1) + 4) with (1 + (w1 / 7 + w) * 7) by lia.
  now rewrite Z.mod_add by lia.
Qed.

(** [weekBounds] gives back the whole week of a date. *)
Lemma weekBounds_isoWeekFromDate (z : sys_days) :
  sys_days_ok z ->
  weekBounds (iw_year (isoWeekFromDate z)) (iw_week (isoWeekFromDate z))
  = isoWeekFromDate z.
Proof.
  intros Hz. unfold sys_days_ok in Hz.
  unfold isoWeekFromDate, weekBounds. cbn [iw_year iw_week].
  set (monday := z - days_since_monday z).
  set (y := ymd_year (civil_from_days (monday + 3))).
  pose proof (days_since_monday_range z) as Hr.
  pose proof (year_contains_day (monday + 3)) as Hy. cbv zeta in Hy. fold y in Hy.
  destruct (week1_monday_window y) as [Hw Hw7].
  assert (Hm7 : monday mod 7 = 4) by apply monday_of_mod7.
  pose proof (mondays_apart _ _ Hm7 Hw7) as Hq.
  rewrite to_int_small by lia.
  replace (week1_monday_of y + 7 * (1 + Z.quot (monday - week1_monday_of y) 7 - 1))
    with monday by lia.
  reflexivity.
Qed.

(** X7: [computeRange] takes [--start] and [--end] only together: with one of
    them missing the other is ignored and the range is that of [--week], or of
    the week of today, which holds today and runs from a Monday to the Sunday
    six days later. *)
Theorem computeRange_bounds (now : sys_days) (a : DigestArgs) :
  (forall s e, start a = Some s -> end_ a = Some e -> fst (computeRange now a) = (s, e))
  /\ (start a = None \/ end_ a = None -> computeRange now a = computeRange now (no_bounds a))
  /\ (week a = None ->
      let r := fst (computeRange now (no_bounds a)) in
      fst r <= now <= snd r /\ snd r = fst r + 6 /\ weekday_c_encoding (fst r) = 1).
Proof.
  unfold computeRange, no_bounds. cbn [start end_ week]. split; [|split].
  - intros s e -> ->. reflexivity.
  - intros [H|H]; rewrite H; [reflexivity|]. destruct (start a); reflexivity.
  - intros ->. cbn [fst snd].
    destruct (same_week_days now 0 ltac:(lia)) as (_ & Hm & _ & Hs & Hb).
    auto.
Qed.

(** X8: on a day of an ISO year from 1000 to 9999 the label of the default
    range is read by [parseISOWeekStr] as a week that, given as [--week] on any
    day, yields the same range and the same label. *)
Theorem computeRange_label_round_trip (now later : sys_days) (a : DigestArgs) :
  sys_days_ok now -> 1000 <= iw_year (isoWeekFromDate now) <= 9999 ->
  start a = None -> end_ a = None -> week a = None ->
  exists yw,
    parseISOWeekStr (snd (computeRange now a)) = Some yw
    /\ computeRange later
         (MkDigestArgs (groupTags a) (tagsOnly a) (pd a) (noHeader a) (Some yw) None None
                       (outPath a))
       = computeRange now a.
Proof.
  intros Hz Hy Hs He Hw. unfold computeRange. rewrite Hs, Hw. cbn [start end_ week snd].
  pose proof (week_number_range now Hz) as Hr.
  exists (iw_year (isoWeekFromDate now), iw_week (isoWeekFromDate now)). split.
  - now apply (proj1 week_label_round_trip).
  - now rewrite (weekBounds_isoWeekFromDate now Hz).
Qed.

Lemma computeRange_label_round_trip_witness :
  exists yw,
    parseISOWeekStr (snd (computeRange 19358
                            (MkDigestArgs false false false false None None None "")))
    = Some yw
    /\ computeRange 0 (MkDigestArgs false false false false (Some yw) None None "")
       = computeRange 19358 (MkDigestArgs false false false false None None None "").
Proof.
  apply (computeRange_label_round_trip 19358 0
           (MkDigestArgs false false false false None None None ""));
    try reflexivity.
  - unfold sys_days_ok. lia.
  - vm_compute. split; discriminate.
Defined.

(** *** File names of digests *)

Lemma all_safe_app (a b : string) : all_safe (a ++ b) = all_safe a && all_safe b.
Proof. unfold all_safe. now rewrite list_ascii_app, forallb_app. Qed.

Lemma all_digits_safe (s : string) : all_digits s = true -> all_safe s = true.
Proof.
  unfold all_digits, all_safe. induction (list_ascii_of_string s) as [|c l IH]; [easy|].
  cbn [forallb]. intros H. apply andb_true_iff in H as [Hc Hl].
  rewrite (IH Hl), andb_true_r. unfold safe_char, isalnum. rewrite Hc.
  now rewrite orb_true_r.
Qed.

Lemma show_int_safe (n : Z) : all_safe (show_int n) = true.
Proof.
  unfold show_int. destruct (Z.ltb_spec n 0) as [L|L].
  - change (String dash ?x) with ("-" ++ x). rewrite all_safe_app.
    destruct (show_nonneg_sound (- n) ltac:(lia)) as [D _].
    now rewrite (all_digits_safe _ D).
  - destruct (show_nonneg_sound n ltac:(lia)) as [D _]. now apply all_digits_safe.
Qed.

Lemma setw_fill_safe (s : string) : all_safe s = true -> all_safe (setw_fill 2 "0" s) = true.
Proof.
  intros H. unfold setw_fill. induction (2 - String.length s)%nat as [|k IH]; [exact H|].
  cbn [fill]. unfold all_safe in *. cbn [list_ascii_of_string forallb]. now rewrite IH.
Qed.

Lemma fmtDate_safe (z : sys_days) : all_safe (fmtDate z) = true.
Proof.
  unfold fmtDate. cbv zeta.
  rewrite !all_safe_app, !show_int_safe, !setw_fill_safe by apply show_int_safe.
  reflexivity.
Qed.

Lemma fmtISOWeek_safe (y w : Z) : all_safe (fmtISOWeek y w) = true.
Proof.
  unfold fmtISOWeek.
  rewrite !all_safe_app, show_int_safe, setw_fill_safe by apply show_int_safe.
  reflexivity.
Qed.

Lemma replace_to_safe (s : string) : all_safe s = true -> replace_to 0 s = s.
Proof.
  induction s as [|c s IH]; [reflexivity|].
  unfold all_safe. cbn [list_ascii_of_string forallb]. intros H.
  apply andb_true_iff in H as [Hc Hs]. cbn [replace_to].
  assert (P : prefix " to " (String c s) = false).
  { cbn [prefix]. destruct (ascii_dec " " c) as [<-|]; [discriminate Hc|reflexivity]. }
  rewrite P. now rewrite (IH Hs).
Qed.

Lemma replace_to_range (a b : string) :
  all_safe a = true ->
  replace_to 0 (a ++ " to " ++ b) = a ++ "_to_" ++ replace_to 0 b.
Proof.
  induction a as [|c a IH].
  - intros _. cbn [append replace_to].
    assert (P : prefix " to " (String " " (String "t" (String "o" (String " " b)))) = true)
      by (cbn; destruct b; reflexivity).
    rewrite P. reflexivity.
  - unfold all_safe. cbn [list_ascii_of_string forallb]. intros H.
    apply andb_true_iff in H as [Hc Hs]. cbn [append replace_to].
    assert (P : forall t, prefix " to " (String c t) = false).
    { intros t. cbn [prefix].
      destruct (ascii_dec " " c) as [<-|]; [discriminate Hc|reflexivity]. }
    rewrite P. f_equal. exact (IH Hs).
Qed.

Lemma map_chars_safe (s : string) :
  all_safe (map_chars (fun c => if safe_char c then c else "-"%char) s) = true
  /\ (all_safe s = true -> map_chars (fun c => if safe_char c then c else "-"%char) s = s).
Proof.
  unfold all_safe. induction s as [|c s [IH1 IH2]]; [now split|].
  cbn [map_chars list_ascii_of_string forallb]. split.
  - rewrite IH1, andb_true_r. destruct (safe_char c) eqn:E; [exact E|reflexivity].
  - intros H. apply andb_true_iff in H as [Hc Hs]. now rewrite Hc, (IH2 Hs).
Qed.

Lemma safeBase_of_safe (s : string) :
  all_safe s = true -> s <> "" -> safeBaseFromRangeLabel s = s.
Proof.
  intros H Hne. unfold safeBaseFromRangeLabel.
  rewrite (replace_to_safe s H), (proj2 (map_chars_safe s) H).
  destruct s; [contradiction|reflexivity].
Qed.

(** X9: the base name [safeBaseFromRangeLabel] gives is never empty and holds
    only letters, digits, [-] and [_]; a name of that kind is left as it is,
    so the function applied twice gives what it gives once. *)
Theorem safeBaseFromRangeLabel_safe (label : string) :
  safeBaseFromRangeLabel label <> ""
  /\ all_safe (safeBaseFromRangeLabel label) = true
  /\ safeBaseFromRangeLabel (safeBaseFromRangeLabel label) = safeBaseFromRangeLabel label.
Proof.
  assert (A : safeBaseFromRangeLabel label <> ""
              /\ all_safe (safeBaseFromRangeLabel label) = true).
  { unfold safeBaseFromRangeLabel.
    destruct (map_chars _ (replace_to 0 label)) as [|c t] eqn:E; cbn [is_empty].
    - split; [discriminate|reflexivity].
    - split; [discriminate|]. rewrite <- E. apply map_chars_safe. }
  destruct A as [A1 A2]. split; [exact A1|]. split; [exact A2|].
  now apply safeBase_of_safe.
Qed.

(** X10: the default file of a digest is named after its range: the label of the
    week as it is, and the two dates of [--start] and [--end] joined by
    [_to_]. *)
Theorem defaultDigestPath_of_range (home : string) (now : sys_days) (a : DigestArgs)
    (html : bool) :
  name (defaultDigestPath home (snd (computeRange now a)) html)
  = (match start a, end_ a with
     | Some s, Some e => fmtDate s ++ "_to_" ++ fmtDate e
     | _, _ => snd (computeRange now a)
     end) ++ (if html then ".html" else ".md").
Proof.
  unfold defaultDigestPath. cbn [name]. f_equal.
  assert (W : forall y w, safeBaseFromRangeLabel (fmtISOWeek y w) = fmtISOWeek y w).
  { intros y w. apply safeBase_of_safe; [apply fmtISOWeek_safe|].
    unfold fmtISOWeek. destruct (show_int y); discriminate. }
  unfold computeRange.
  destruct (start a) as [s|]; [destruct (end_ a) as [e|]|].
  - cbn [snd]. unfold safeBaseFromRangeLabel.
    rewrite (replace_to_range _ _ (fmtDate_safe s)), (replace_to_safe _ (fmtDate_safe e)).
    assert (S : all_safe (fmtDate s ++ "_to_" ++ fmtDate e) = true).
    { now rewrite !all_safe_app, !fmtDate_safe. }
    rewrite (proj2 (map_chars_safe _) S).
    destruct (fmtDate s) eqn:E; [|reflexivity].
    reflexivity.
  - destruct (week a) as [[y w]|]; cbn [snd]; apply W.
  - destruct (week a) as [[y w]|]; cbn [snd]; apply W.
Qed.

(** *** More on white space and columns *)

Lemma drop_trailing_space_idem (s : string) :
  drop_trailing_space (drop_trailing_space s) = drop_trailing_space s.
Proof.
  induction s as [|c s IH]; [reflexivity|].
  cbn [drop_trailing_space].
  destruct (is_empty (drop_trailing_space s) && isspace c) eqn:E; [reflexivity|].
  cbn [drop_trailing_space]. rewrite IH, E. reflexivity.
Qed.

Lemma skip_leading_space_head (s : string) :
  skip_leading_space s = ""
  \/ exists c r, skip_leading_space s = String c r /\ isspace c = false.
Proof.
  induction s as [|c s IH]; [now left|].
  cbn [skip_leading_space]. destruct (isspace c) eqn:E; [exact IH|].
  right. eauto.
Qed.

Lemma trim_head (s : string) :
  trim s = "" \/ exists c r, trim s = String c r /\ isspace c = false.
Proof.
  unfold trim. destruct (skip_leading_space_head s) as [->|(c & r & -> & Hc)]; [now left|].
  right. cbn [drop_trailing_space]. rewrite Hc, andb_false_r. eauto.
Qed.

(** X11: [trim] applied twice gives what it gives once; what it gives is empty
    exactly when the string holds white space only, and otherwise starts with
    a character that is not white space; a string without white space is left
    as it is. *)
Theorem trim_idempotent (s : string) :
  trim (trim s) = trim s
  /\ (trim s = "" <-> blank s = true)
  /\ (trim s = "" \/ exists c r, trim s = String c r /\ isspace c = false)
  /\ (free_of isspace s = true -> trim s = s).
Proof.
  split; [|split; [|split; [apply trim_head|apply trim_free]]].
  - destruct (trim_head s) as [->|(c & r & E & Hc)]; [reflexivity|].
    unfold trim at 1. rewrite E. cbn [skip_leading_space]. rewrite Hc.
    rewrite <- E. unfold trim. apply drop_trailing_space_idem.
  - rewrite <- is_empty_trim. destruct (trim s); cbn [is_empty]; split; congruence.
Qed.

Lemma joinTabs_cons (c : string) (x : string) (rest : list string) :
  joinTabs (c :: x :: rest) = c ++ String tab (joinTabs (x :: rest)).
Proof. reflexivity. Qed.

Lemma joinTabs_splitTabs_from (line : string) :
  forall cur, joinTabs (splitTabs_from cur line) = cur ++ line.
Proof.
  induction line as [|c line IH]; intros cur; cbn [splitTabs_from].
  - cbn [joinTabs]. now rewrite append_nil_r.
  - destruct (Ascii.eqb_spec c tab) as [->|Hne].
    + destruct (splitTabs_from_head line "") as (x & rest & E).
      rewrite E, joinTabs_cons, <- E, IH. reflexivity.
    + rewrite IH, append_assoc. reflexivity.
Qed.

Lemma splitTabs_from_tab_free (line : string) :
  forall cur, free_of (Ascii.eqb tab) cur = true ->
  Forall (fun col => free_of (Ascii.eqb tab) col = true) (splitTabs_from cur line).
Proof.
  induction line as [|c line IH]; intros cur Hcur; cbn [splitTabs_from].
  - constructor; [exact Hcur|constructor].
  - destruct (Ascii.eqb_spec c tab) as [->|Hne].
    + constructor; [exact Hcur|]. now apply IH.
    + apply IH. rewrite free_of_app, Hcur, free_of_cons.
      apply not_eq_sym, Ascii.eqb_neq in Hne. now rewrite Hne.
Qed.

Lemma splitTabs_from_free_of (p : ascii -> bool) (line : string) :
  free_of p line = true ->
  forall cur, free_of p cur = true ->
  Forall (fun col => free_of p col = true) (splitTabs_from cur line).
Proof.
  induction line as [|c line IH]; intros Hl cur Hcur; cbn [splitTabs_from].
  - constructor; [exact Hcur|constructor].
  - rewrite free_of_cons in Hl. apply andb_true_iff in Hl as [Hc Hl].
    destruct (Ascii.eqb c tab).
    + constructor; [exact Hcur|]. now apply IH.
    + apply IH; [exact Hl|]. rewrite free_of_app, Hcur, free_of_cons, Hc. reflexivity.
Qed.

Lemma splitTabs_from_length (line : string) :
  forall cur, List.length (splitTabs_from cur line) = S (count_tabs line).
Proof.
  induction line as [|c line IH]; intros cur; cbn [splitTabs_from count_tabs]; [reflexivity|].
  destruct (Ascii.eqb c tab); [cbn [List.length]|]; now rewrite IH.
Qed.

(** X12: [joinTabs] undoes [splitTabs] on every line, whose columns hold no tab
    and are one more than its tabs; [splitTabs] undoes [joinTabs] on every
    list of columns that is not empty and whose columns hold no tab. *)
Theorem splitTabs_joinTabs_round_trips :
  (forall line,
     joinTabs (splitTabs line) = line
     /\ List.length (splitTabs line) = S (count_tabs line)
     /\ Forall (fun col => free_of (Ascii.eqb tab) col = true) (splitTabs line))
  /\ (forall cols, cols <> [] -> forallb (free_of (Ascii.eqb tab)) cols = true ->
                   splitTabs (joinTabs cols) = cols).
Proof.
  split.
  - intros line. unfold splitTabs. split; [apply (joinTabs_splitTabs_from line "")|].
    split; [apply splitTabs_from_length|now apply splitTabs_from_tab_free].
  - intros [|c cols] Hne H; [contradiction|].
    unfold splitTabs. now rewrite splitTabs_from_joinTabs.
Qed.

(** *** More on the inbox *)

Lemma getlines_from_free_lines (s : string) :
  forall cur, free_of (Ascii.eqb nl) cur = true ->
  Forall (fun line => free_of (Ascii.eqb nl) line = true) (getlines_from cur s).
Proof.
  induction s as [|c s IH]; intros cur Hcur; cbn [getlines_from].
  - destruct (is_empty cur); constructor; [exact Hcur|constructor].
  - destruct (Ascii.eqb_spec c nl) as [->|Hne].
    + constructor; [exact Hcur|]. now apply IH.
    + apply IH. rewrite free_of_app, Hcur, free_of_cons.
      apply not_eq_sym, Ascii.eqb_neq in Hne. now rewrite Hne.
Qed.

Lemma nth_free_of (p : ascii -> bool) (cols : list string) (i : nat) (d : string) :
  Forall (fun col => free_of p col = true) cols -> free_of p d = true ->
  free_of p (nth i cols d) = true.
Proof.
  intros H Hd. revert i. induction H as [|c cols Hc _ IH]; intros [|i]; cbn [nth]; auto.
Qed.

(** What [load_line] yields holds no tab and no newline in its text fields,
    and its date is that of a text of four, two and two digits. *)
Lemma load_line_clean (now : sys_days) (line : string) (r : Rec) :
  free_of (Ascii.eqb nl) line = true ->
  load_line now line = Some r ->
  text_fields_free (Ascii.eqb tab) r = true
  /\ text_fields_free (Ascii.eqb nl) r = true
  /\ exists s, parseISODate s = Some (date r).
Proof.
  intros Hl. rewrite load_line_record. unfold line_record.
  destruct (blank line); [discriminate|].
  destruct (parseISODate _) as [d|] eqn:P; [|discriminate].
  intros H. injection H as <-.
  pose proof (splitTabs_from_tab_free line "" eq_refl) as Ft.
  pose proof (splitTabs_from_free_of _ line Hl "" eq_refl) as Fn.
  fold (splitTabs line) in Ft, Fn.
  unfold text_fields_free. cbn [kind url title tags date].
  rewrite !(nth_free_of _ _ _ _ Ft), !(nth_free_of _ _ _ _ Fn) by reflexivity.
  repeat split. eauto.
Qed.

Lemma load_lines_clean (now : sys_days) (lines : list string) :
  Forall (fun line => free_of (Ascii.eqb nl) line = true) lines ->
  Forall (fun r => text_fields_free (Ascii.eqb tab) r = true
                   /\ text_fields_free (Ascii.eqb nl) r = true
                   /\ exists s, parseISODate s = Some (date r))
         (load_lines now lines).
Proof.
  induction 1 as [|line lines Hl _ IH]; cbn [load_lines]; [constructor|].
  destruct (load_line now line) as [r|] eqn:E; [|exact IH].
  constructor; [|exact IH]. now apply (load_line_clean now line).
Qed.

Lemma parseISODate_year_range (s : string) (z : sys_days) :
  parseISODate s = Some z -> 0 <= ymd_year (civil_from_days z) <= 9999.
Proof.
  unfold parseISODate.
  destruct (match_iso_date s) as [[[gy gm] gd]|] eqn:M; [|discriminate].
  apply match_iso_date_inv in M. destruct M as (_ & Dy & _ & _ & Ly & _).
  destruct (_ || _); [discriminate|].
  destruct (_ || _) eqn:C; [discriminate|].
  intros H. injection H as <-.
  apply orb_false_iff in C as [C _]. apply orb_false_iff in C as [C1 _].
  apply negb_false_iff, Z.eqb_eq in C1. rewrite C1.
  pose proof (stoi_digits_bound gy Dy) as B. rewrite Ly in B.
  change (10 ^ Z.of_nat 4) with 10000 in B. lia.
Qed.

(** X13: every record [loadInbox] yields, from any file, holds no tab and no
    newline in its kind, URL, title and tags, and its date is a day of the
    years 0 to 9999. *)
Theorem loadInbox_records_clean (now : sys_days) (inbox : option string) (r : Rec) :
  In r (loadInbox now inbox) ->
  text_fields_free (Ascii.eqb tab) r = true
  /\ text_fields_free (Ascii.eqb nl) r = true
  /\ 0 <= ymd_year (civil_from_days (date r)) <= 9999.
Proof.
  destruct inbox as [content|]; [|intros []].
  cbn [loadInbox]. intros Hr.
  pose proof (load_lines_clean now (getlines content)
                (getlines_from_free_lines content "" eq_refl)) as F.
  rewrite Forall_forall in F. destruct (F r Hr) as (Ht & Hn & s & P).
  split; [exact Ht|]. split; [exact Hn|]. now apply (parseISODate_year_range s).
Qed.

Lemma loadInbox_records_clean_witness :
  let r := MkRec (days_from_civil 2023 1 5) "link" "" "" "" in
  text_fields_free (Ascii.eqb tab) r = true
  /\ text_fields_free (Ascii.eqb nl) r = true
  /\ 0 <= ymd_year (civil_from_days (date r)) <= 9999.
Proof.
  apply (loadInbox_records_clean 0 (Some (joinTabs ["2023-01-05"] ++ String nl ""))).
  vm_compute. left. reflexivity.
Defined.

Lemma load_lines_trailing (now : sys_days) (L : string) :
  forall cur,
  load_lines now (getlines_from cur (L ++ String nl ""))
  = load_lines now (getlines_from cur L).
Proof.
  induction L as [|c L IH]; intros cur.
  - cbn [append getlines_from]. rewrite Ascii.eqb_refl. cbn [getlines_from is_empty].
    destruct cur as [|x cur']; cbn [is_empty]; [|reflexivity].
    cbn [load_lines]. rewrite load_line_record. reflexivity.
  - cbn [append getlines_from]. destruct (Ascii.eqb c nl).
    + cbn [load_lines]. now rewrite IH.
    + apply IH.
Qed.

(** X14: loading is done line by line: after a file of complete lines, what
    follows is loaded as if it stood alone, and the records come one after the
    other; a newline added at the end of any file changes nothing. *)
Theorem loadInbox_app (now : sys_days) (A B : string) :
  (complete_lines A = true ->
   loadInbox now (Some (A ++ B))
   = (loadInbox now (Some A) ++ loadInbox now (Some B))%list)
  /\ loadInbox now (Some (A ++ String nl "")) = loadInbox now (Some A).
Proof.
  split.
  - intros HA. cbn [loadInbox]. unfold getlines.
    rewrite getlines_from_complete, load_lines_app; [reflexivity|].
    unfold complete_lines in HA. destruct A; [reflexivity|exact HA].
  - cbn [loadInbox]. apply load_lines_trailing.
Qed.

(** *** Printing records and loading them *)

Lemma list_line_inbox_line (r : Rec) : list_line r = inbox_line r ++ String nl "".
Proof.
  unfold list_line, inbox_line. cbn [joinTabs].
  rewrite !append_assoc. cbn [append]. rewrite !append_assoc. cbn [append]. 
  rewrite !append_assoc. cbn [append]. rewrite !append_assoc. reflexivity.
Qed.

Lemma inbox_line_free_nl (r : Rec) :
  storable r -> free_of (Ascii.eqb nl) (inbox_line r) = true /\ inbox_line r <> "".
Proof.
  intros (_ & Hn & Hp).
  destruct (parseISODate (fmtDate (date r))) as [z|] eqn:P; [|easy].
  destruct (parseISODate_text _ _ P) as (_ & _ & Fn & Hne). split.
  - unfold inbox_line. apply joinTabs_free; [reflexivity|].
    unfold text_fields_free in Hn.
    apply andb_true_iff in Hn as [Hn F4]. apply andb_true_iff in Hn as [Hn F3].
    apply andb_true_iff in Hn as [F1 F2].
    cbn [forallb]. now rewrite Fn, F1, F2, F3, F4.
  - unfold inbox_line. cbn [joinTabs]. destruct (fmtDate (date r)); [easy|discriminate].
Qed.

Lemma load_printed (now : sys_days) (rows : list Rec) :
  Forall storable rows ->
  load_lines now (getlines (concat_str (map list_line rows))) = rows.
Proof.
  induction 1 as [|r rows Hr _ IH]; [reflexivity|].
  cbn [map concat_str]. rewrite list_line_inbox_line, append_assoc.
  destruct (inbox_line_free_nl r Hr) as [Fn Hne].
  unfold getlines. rewrite (getlines_from_free _ Fn). cbn [append getlines_from].
  rewrite Ascii.eqb_refl. cbn [load_lines].
  destruct Hr as (Ht & _ & Hp).
  rewrite (load_line_inbox_line now r Ht Hp). f_equal. exact IH.
Qed.

Lemma loaded_storable (now : sys_days) (inbox : option string) (r : Rec) :
  In r (loadInbox now inbox) -> 1000 <= ymd_year (civil_from_days (date r)) ->
  storable r.
Proof.
  intros Hr Hy. destruct inbox as [content|]; [|destruct Hr].
  cbn [loadInbox] in Hr.
  pose proof (load_lines_clean now (getlines content)
                (getlines_from_free_lines content "" eq_refl)) as F.
  rewrite Forall_forall in F. destruct (F r Hr) as (Ht & Hn & s & P).
  split; [exact Ht|]. split; [exact Hn|].
  pose proof (parseISODate_year_range s _ P).
  assert (A : parseISODate (fmtDate (date r)) = Some (date r)).
  { rewrite (fmtDate_parseISODate s (date r) P Hy). exact P. }
  rewrite A. discriminate.
Qed.

Lemma firstn_In (A : Type) (n : nat) (l : list A) (x : A) : In x (firstn n l) -> In x l.
Proof.
  revert l. induction n as [|n IH]; intros [|y l]; cbn [firstn]; try easy.
  intros [->|H]; [now left|right; now apply IH].
Qed.

Lemma list_rows_incl (std_sort : (Rec -> Rec -> bool) -> list Rec -> list Rec)
    (now : sys_days) (inbox : option string) (a : ListArgs) (r : Rec) :
  sorts_by_key std_sort ->
  In r (list_rows std_sort now inbox a) ->
  In r (loadInbox now inbox)
  /\ (match since a with Some d => d <= date r | None => True end)
  /\ (match until a with Some d => date r <= d | None => True end).
Proof.
  intros Hs. unfold list_rows.
  assert (F : forall lo hi, In r (filterByDateRange std_sort (loadInbox now inbox) lo hi) ->
              In r (loadInbox now inbox) /\ lo <= date r <= hi).
  { intros lo hi Hr. unfold filterByDateRange in Hr.
    destruct (Hs date (filter (fun r => (lo <=? date r) && (date r <=? hi))
                              (loadInbox now inbox))) as [Hp _].
    apply (Permutation_in _ (Permutation_sym Hp)) in Hr.
    apply filter_In in Hr as [Hr Hc]. apply andb_true_iff in Hc as [H1 H2].
    apply Z.leb_le in H1, H2. auto. }
  destruct (since a) as [lo|]; destruct (until a) as [hi|]; try (intros H; now auto);
    intros H; apply F in H; intuition.
Qed.

(** X15: what [list] prints is a log of its own: when the dates loaded are of
    the year 1000 or later, loading the text printed gives exactly the records
    printed, which are records of the inbox, within [--since] and [--until],
    and at most [--limit] of them; without options they are all the records
    of the inbox, in its order. *)
Theorem cmd_list_reloads
    (std_sort : (Rec -> Rec -> bool) -> list Rec -> list Rec)
    (now : sys_days) (inbox : option string) (a : ListArgs) (out : string) :
  sorts_by_key std_sort ->
  (forall r, In r (loadInbox now inbox) -> 1000 <= ymd_year (civil_from_days (date r))) ->
  cmd_list std_sort now inbox a = Some out ->
  let printed := loadInbox now (Some out) in
  out = concat_str (map list_line printed)
  /\ (forall r, In r printed ->
        In r (loadInbox now inbox)
        /\ (match since a with Some d => d <= date r | None => True end)
        /\ (match until a with Some d => date r <= d | None => True end))
  /\ (match limit a with Some n => Z.of_nat (List.length printed) <= n | None => True end)
  /\ (limit a = None -> since a = None -> until a = None ->
      printed = loadInbox now inbox).
Proof.
  intros Hs Hy Hc. cbv zeta.
  assert (Hrows : forall rows, (forall r, In r rows -> In r (list_rows std_sort now inbox a)) ->
            loadInbox now (Some (concat_str (map list_line rows))) = rows).
  { intros rows Hin. cbn [loadInbox]. apply load_printed. apply Forall_forall.
    intros r Hr. destruct (list_rows_incl std_sort now inbox a r Hs (Hin r Hr)) as [Hi _].
    apply (loaded_storable now inbox r Hi). now apply Hy. }
  unfold cmd_list in Hc.
  set (rows := list_rows std_sort now inbox a) in *.
  assert (Hall : loadInbox now (Some (concat_str (map list_line rows))) = rows)
    by (apply Hrows; auto).
  destruct (limit a) as [n|] eqn:El.
  - destruct (Z.ltb_spec n (Z.of_nat (List.length rows))) as [Ln|Ln].
    + destruct (Z.ltb_spec n 0) as [L0|L0]; [discriminate|].
      injection Hc as <-.
      rewrite (Hrows (firstn (Z.to_nat n) rows)) by (intros r; apply firstn_In).
      split; [reflexivity|]. split.
      * intros r Hr. apply firstn_In in Hr. now apply (list_rows_incl std_sort now inbox a r Hs).
      * split; [|discriminate].
        rewrite length_firstn. lia.
    + injection Hc as <-. rewrite Hall. split; [reflexivity|]. split.
      * intros r Hr. now apply (list_rows_incl std_sort now inbox a r Hs).
      * split; [lia|discriminate].
  - injection Hc as <-. rewrite Hall. split; [reflexivity|]. split.
    + intros r Hr. now apply (list_rows_incl std_sort now inbox a r Hs).
    + split; [exact I|]. intros _ H1 H2. unfold rows, list_rows. now rewrite H1, H2.
Qed.

Lemma cmd_list_reloads_witness :
  let inbox :=
    Some (joinTabs ["2024-01-02"; "code"; "https://a.example"; "A"; "#x"] ++ String nl
            (joinTabs ["2024-01-01"; "link"; "https://b.example"; "B"; ""] ++ String nl "")) in
  let out := joinTabs ["2024-01-01"; "link"; "https://b.example"; "B"; ""] ++ String nl "" in
  cmd_list sort_behind 0 inbox (MkListArgs (Some 1) (Some 0) None) = Some out
  /\ out = concat_str (map list_line (loadInbox 0 (Some out))).
Proof.
  cbv zeta. split; [vm_compute; reflexivity|].
  refine (proj1 (cmd_list_reloads sort_behind 0
                   (Some (joinTabs ["2024-01-02"; "code"; "https://a.example"; "A"; "#x"]
                            ++ String nl
                            (joinTabs ["2024-01-01"; "link"; "https://b.example"; "B"; ""]
                               ++ String nl "")))
                   (MkListArgs (Some 1) (Some 0) None)
                   (joinTabs ["2024-01-01"; "link"; "https://b.example"; "B"; ""]
                      ++ String nl "")
                   sort_behind_contract _ _)).
  - intros r Hr. vm_compute in Hr. destruct Hr as [<-|[<-|[]]]; vm_compute; discriminate.
  - vm_compute. reflexivity.
Defined.

(** *** Tags as stored *)

Lemma existsb_eqb_In (t : string) (seen : list string) :
  existsb (String.eqb t) seen = true <-> In t seen.
Proof.
  rewrite existsb_exists. split.
  - intros (x & Hx & E). apply String.eqb_eq in E. now subst.
  - intros H. exists t. split; [exact H|apply String.eqb_refl].
Qed.

Lemma clean_tags_cons (seen : list string) (t : string) (rest : list string) :
  clean_tags seen (t :: rest)
  = if blank t then clean_tags seen rest
    else if existsb (String.eqb (with_hash (trim t))) seen then clean_tags seen rest
         else with_hash (trim t) :: clean_tags (with_hash (trim t) :: seen) rest.
Proof.
  cbn [clean_tags]. rewrite <- is_empty_trim. unfold with_hash, hashed.
  destruct (trim t) as [|c r]; [reflexivity|]. cbn [is_empty].
  destruct (Ascii.eqb c hash); reflexivity.
Qed.

Lemma with_hash_hashed (t : string) : hashed (with_hash t) = true.
Proof.
  unfold with_hash. destruct (hashed t) eqn:E; [exact E|]. reflexivity.
Qed.

Lemma clean_tags_spec (raw : list string) :
  forall seen,
    NoDup (clean_tags seen raw)
    /\ (forall t, In t (clean_tags seen raw) ->
          ~ In t seen /\ exists r, In r raw /\ blank r = false /\ t = with_hash (trim r))
    /\ (forall r, In r raw -> blank r = false ->
          In (with_hash (trim r)) seen \/ In (with_hash (trim r)) (clean_tags seen raw)).
Proof.
  induction raw as [|t rest IH]; intros seen.
  - cbn. split; [constructor|]. split; [intros ? []|intros ? []].
  - rewrite clean_tags_cons. destruct (blank t) eqn:B.
    + destruct (IH seen) as (N & F & G). split; [exact N|]. split.
      * intros x Hx. destruct (F x Hx) as (Hs & r & Hr & Br & E).
        split; [exact Hs|]. exists r. split; [now right|]. now split.
      * intros r [<-|Hr] Br; [congruence|]. now apply G.
    + destruct (existsb _ seen) eqn:E.
      * apply existsb_eqb_In in E.
        destruct (IH seen) as (N & F & G). split; [exact N|]. split.
        -- intros x Hx. destruct (F x Hx) as (Hs & r & Hr & Br & Ex).
           split; [exact Hs|]. exists r. split; [now right|]. now split.
        -- intros r [<-|Hr] Br; [now left|]. now apply G.
      * assert (Hn : ~ In (with_hash (trim t)) seen).
        { intros H. apply existsb_eqb_In in H. congruence. }
        destruct (IH (with_hash (trim t) :: seen)) as (N & F & G). split; [|split].
        -- constructor; [|exact N]. intros H. destruct (F _ H) as [Hs _].
           apply Hs. now left.
        -- intros x [<-|Hx].
           ++ split; [exact Hn|]. exists t. split; [now left|]. now split.
           ++ destruct (F x Hx) as (Hs & r & Hr & Br & Ex). split.
              ** intros H. apply Hs. now right.
              ** exists r. split; [now right|]. now split.
        -- intros r [<-|Hr] Br; [right; now left|].
           destruct (G r Hr Br) as [[H|H]|H].
           ++ right. left. exact H.
           ++ now left.
           ++ right. now right.
Qed.

Lemma splitTags_from_word (w : string) :
  free_of isspace w = true ->
  forall cur rest, splitTags_from cur (w ++ rest) = splitTags_from (cur ++ w) rest.
Proof.
  induction w as [|c w IH]; intros F cur rest.
  - now rewrite append_nil_r.
  - rewrite free_of_cons in F. apply andb_true_iff in F as [Fc Fw].
    apply negb_true_iff in Fc. cbn [append splitTags_from]. rewrite Fc.
    rewrite (IH Fw). now rewrite append_assoc.
Qed.

Lemma splitTags_join (ws : list string) :
  Forall (fun w => w <> "" /\ free_of isspace w = true) ws ->
  splitTags (join_with " " ws) = ws.
Proof.
  unfold splitTags. induction 1 as [|w ws [Hne Hw] Hws IH]; [reflexivity|].
  assert (E : is_empty w = false) by (destruct w; [easy|reflexivity]).
  destruct ws as [|w' ws'].
  - cbn [join_with]. pose proof (splitTags_from_word w Hw "" "") as P.
    rewrite append_nil_r in P. rewrite P. cbn [append splitTags_from]. now rewrite E.
  - change (join_with " " (w :: w' :: ws')) with (w ++ " " ++ join_with " " (w' :: ws')).
    rewrite (splitTags_from_word w Hw). cbn [append splitTags_from].
    change (isspace " ") with true. cbv iota. rewrite E. f_equal. exact IH.
Qed.

Lemma hashed_not_empty (t : string) : hashed t = true -> t <> "".
Proof. destruct t; [discriminate|discriminate]. Qed.

Lemma with_hash_free (t : string) :
  free_of isspace t = true -> free_of isspace (with_hash t) = true.
Proof.
  intros F. unfold with_hash. destruct (hashed t); [exact F|].
  rewrite free_of_cons, F. reflexivity.
Qed.

Lemma clean_tags_fixed (ws : list string) :
  forall seen,
    NoDup ws ->
    (forall t, In t ws -> hashed t = true /\ free_of isspace t = true /\ ~ In t seen) ->
    clean_tags seen ws = ws.
Proof.
  induction ws as [|t rest IH]; intros seen N H; [reflexivity|].
  destruct (H t (or_introl eq_refl)) as (Ht & Ft & Hs).
  rewrite clean_tags_cons. rewrite <- is_empty_trim, (trim_free t Ft).
  destruct t as [|c r]; [discriminate|]. cbn [is_empty].
  unfold with_hash. rewrite Ht.
  destruct (existsb _ seen) eqn:E; [apply existsb_eqb_In in E; contradiction|].
  f_equal. inversion N as [|? ? Hnot N']; subst. apply IH; [exact N'|].
  intros x Hx. destruct (H x (or_intror Hx)) as (H1 & H2 & H3).
  split; [exact H1|]. split; [exact H2|].
  intros [<-|Hin]; [contradiction|contradiction].
Qed.

(** X16: the tags [normalizeTagsForStorage] writes: when no tag given holds
    white space inside, the words of the text written are the tags kept, each
    starts with [#], none comes twice, each is a tag given (trimmed, with its
    [#]) and every tag given that is not blank is among them; and normalizing
    those words again writes the same text. *)
Theorem normalizeTagsForStorage_canonical (raw : list string) :
  Forall (fun t => free_of isspace (trim t) = true) raw ->
  let s := normalizeTagsForStorage raw in
  NoDup (splitTags s)
  /\ (forall t, In t (splitTags s) ->
        hashed t = true /\ exists r, In r raw /\ blank r = false /\ t = with_hash (trim r))
  /\ (forall r, In r raw -> blank r = false -> In (with_hash (trim r)) (splitTags s))
  /\ normalizeTagsForStorage (splitTags s) = s.
Proof.
  intros Hraw. cbv zeta. unfold normalizeTagsForStorage.
  destruct (clean_tags_spec raw []) as (N & F & G).
  rewrite Forall_forall in Hraw.
  assert (W : Forall (fun w => w <> "" /\ free_of isspace w = true) (clean_tags [] raw)).
  { apply Forall_forall. intros t Ht. destruct (F t Ht) as (_ & r & Hr & _ & ->). split.
    - apply hashed_not_empty, with_hash_hashed.
    - apply with_hash_free, Hraw, Hr. }
  rewrite (splitTags_join _ W). split; [exact N|]. split; [|split].
  - intros t Ht. destruct (F t Ht) as (_ & r & Hr & Br & ->). split.
    + apply with_hash_hashed.
    + exists r. now repeat split.
  - intros r Hr Br. destruct (G r Hr Br) as [[]|H]. exact H.
  - f_equal. apply clean_tags_fixed; [exact N|].
    intros t Ht. destruct (F t Ht) as (_ & r & Hr & Br & ->).
    split; [apply with_hash_hashed|]. split; [apply with_hash_free, Hraw, Hr|]. intros [].
Qed.

Lemma normalizeTagsForStorage_canonical_witness :
  let raw := ["rust"; " #cpp "; "rust"; "  "] in
  Forall (fun t => free_of isspace (trim t) = true) raw
  /\ normalizeTagsForStorage (splitTags (normalizeTagsForStorage raw))
     = normalizeTagsForStorage raw.
Proof.
  cbv zeta.
  assert (H : Forall (fun t => free_of isspace (trim t) = true)
                     ["rust"; " #cpp "; "rust"; "  "])
    by (repeat constructor).
  split; [exact H|].
  exact (proj2 (proj2 (proj2 (normalizeTagsForStorage_canonical _ H)))).
Defined.

(** *** The rules file and the kinds *)

Lemma skip_leading_space_keeps_free (p : ascii -> bool) (s : string) :
  free_of p s = true -> free_of p (skip_leading_space s) = true.
Proof.
  induction s as [|c s IH]; [reflexivity|]. intros F. cbn [skip_leading_space].
  destruct (isspace c); [|exact F].
  rewrite free_of_cons in F. apply andb_true_iff in F as [_ F]. now apply IH.
Qed.

Lemma drop_trailing_space_keeps_free (p : ascii -> bool) (s : string) :
  free_of p s = true -> free_of p (drop_trailing_space s) = true.
Proof.
  induction s as [|c s IH]; [reflexivity|]. intros F. cbn [drop_trailing_space].
  rewrite free_of_cons in F. apply andb_true_iff in F as [Fc F].
  destruct (_ && _); [reflexivity|]. rewrite free_of_cons, Fc. now apply IH.
Qed.

Lemma trim_keeps_free (p : ascii -> bool) (s : string) :
  free_of p s = true -> free_of p (trim s) = true.
Proof.
  intros F. unfold trim. now apply drop_trailing_space_keeps_free, skip_leading_space_keeps_free.
Qed.

Section RulesFacts.

Variable compile : string -> option regex.

Lemma rule_of_line_kind (line : string) (r : Rule) :
  free_of (Ascii.eqb nl) line = true ->
  rule_of_line compile line = Some r ->
  free_of (Ascii.eqb tab) (rule_kind r) = true
  /\ free_of (Ascii.eqb nl) (rule_kind r) = true.
Proof.
  intros Hl. unfold rule_of_line. cbv zeta.
  pose proof (trim_keeps_free _ _ Hl) as Ht.
  destruct (trim line) as [|c s] eqn:E; [discriminate|].
  destruct (Ascii.eqb c hash); [discriminate|].
  destruct (_ <? _)%nat; [discriminate|].
  destruct (compile _) as [re|]; [|discriminate].
  intros H. injection H as <-. cbn [rule_kind]. split.
  - apply nth_free_of; [|reflexivity]. now apply splitTabs_from_tab_free.
  - apply nth_free_of; [|reflexivity]. now apply splitTabs_from_free_of.
Qed.

Lemma rules_of_lines_kinds (lines : list string) :
  Forall (fun line => free_of (Ascii.eqb nl) line = true) lines ->
  Forall (fun r => free_of (Ascii.eqb tab) (rule_kind r) = true
                   /\ free_of (Ascii.eqb nl) (rule_kind r) = true)
         (rules_of_lines compile lines).
Proof.
  induction 1 as [|line lines Hl _ IH]; cbn [rules_of_lines]; [constructor|].
  destruct (rule_of_line compile line) as [r|] eqn:E; [|exact IH].
  constructor; [|exact IH]. now apply (rule_of_line_kind line).
Qed.

Lemma rules_of_lines_app (l1 l2 : list string) :
  rules_of_lines compile (l1 ++ l2)
  = (rules_of_lines compile l1 ++ rules_of_lines compile l2)%list.
Proof.
  induction l1 as [|line l1 IH]; [reflexivity|]. cbn [app rules_of_lines].
  destruct (rule_of_line compile line); [cbn [app]; f_equal|]; exact IH.
Qed.

End RulesFacts.

Lemma detectKind_cases (RULES : list Rule) (u : string) :
  detectKind RULES u = "article" \/ exists r, In r RULES /\ detectKind RULES u = rule_kind r.
Proof.
  induction RULES as [|r rest IH]; [now left|]. cbn [detectKind].
  destruct (regex_search u (rule_re r)).
  - right. exists r. split; [now left|reflexivity].
  - destruct IH as [IH|(r' & Hr & E)]; [now left|].
    right. exists r'. split; [now right|exact E].
Qed.

Lemma detectKind_app (R1 R2 : list Rule) (u : string) :
  detectKind (R1 ++ R2) u
  = if existsb (fun r => regex_search u (rule_re r)) R1 then detectKind R1 u
    else detectKind R2 u.
Proof.
  induction R1 as [|r R1 IH]; [reflexivity|]. cbn [app detectKind existsb].
  destruct (regex_search u (rule_re r)); [reflexivity|exact IH].
Qed.

Lemma detectKind_loadRules_free (compile : string -> option regex) (file : option string)
    (u : string) :
  free_of (Ascii.eqb tab) (detectKind (loadRules compile file) u) = true
  /\ free_of (Ascii.eqb nl) (detectKind (loadRules compile file) u) = true.
Proof.
  destruct (detectKind_cases (loadRules compile file) u) as [->|(r & Hr & ->)];
    [split; reflexivity|].
  destruct file as [content|]; [|destruct Hr]. cbn [loadRules] in Hr.
  pose proof (rules_of_lines_kinds compile (getlines content)
                (getlines_from_free_lines content "" eq_refl)) as F.
  rewrite Forall_forall in F. now apply F.
Qed.

(** X17: whatever the rules file holds and whatever the URL, the kind
    [detectKind] gives holds no tab and no newline, so it fits in one column of
    the log. *)
Theorem detectKind_fits_column (compile : string -> option regex) (file : option string)
    (u : string) :
  free_of (Ascii.eqb tab) (detectKind (loadRules compile file) u) = true
  /\ free_of (Ascii.eqb nl) (detectKind (loadRules compile file) u) = true.
Proof. exact (detectKind_loadRules_free compile file u). Qed.

(** X18: the rules are read line by line and tried in the order of the file:
    after complete lines [A], the rules of [A ++ B] are those of [A] followed
    by those of [B], and a URL gets the kind [A] gives it when a rule of [A]
    matches, else the kind [B] gives it. *)
Theorem loadRules_app (compile : string -> option regex) (A B u : string) :
  complete_lines A = true ->
  loadRules compile (Some (A ++ B))
  = (loadRules compile (Some A) ++ loadRules compile (Some B))%list
  /\ detectKind (loadRules compile (Some (A ++ B))) u
     = if existsb (fun r => regex_search u (rule_re r)) (loadRules compile (Some A))
       then detectKind (loadRules compile (Some A)) u
       else detectKind (loadRules compile (Some B)) u.
Proof.
  intros HA.
  assert (E : loadRules compile (Some (A ++ B))
              = (loadRules compile (Some A) ++ loadRules compile (Some B))%list).
  { cbn [loadRules]. unfold getlines.
    rewrite getlines_from_complete, rules_of_lines_app; [reflexivity|].
    unfold complete_lines in HA. destruct A; [reflexivity|exact HA]. }
  split; [exact E|]. rewrite E. apply detectKind_app.
Qed.

Lemma loadRules_app_witness :
  let compile := fun p : string => if String.eqb p "x" then Some (RChar "x") else None in
  let A := "# rules" ++ String nl ("x" ++ String tab ("letter" ++ String nl "")) in
  let B := "(" ++ String tab ("bad" ++ String nl ("x" ++ String tab "late")) in
  complete_lines A = true
  /\ detectKind (loadRules compile (Some (A ++ B))) "box" = "letter".
Proof.
  cbv zeta. split; [reflexivity|].
  rewrite (proj2 (loadRules_app
                    (fun p : string => if String.eqb p "x" then Some (RChar "x") else None)
                    ("# rules" ++ String nl ("x" ++ String tab ("letter" ++ String nl "")))
                    ("(" ++ String tab ("bad" ++ String nl ("x" ++ String tab "late")))
                    "box" eq_refl)).
  vm_compute. reflexivity.
Defined.

(** *** The command [add], from the command line to the log *)

Lemma normalizeTagsForStorage_free (p : ascii -> bool) (raw : list string) :
  p " "%char = false -> p hash = false ->
  Forall (fun t => free_of p t = true) raw ->
  free_of p (normalizeTagsForStorage raw) = true.
Proof.
  intros Ps Ph Hraw. unfold normalizeTagsForStorage.
  assert (J : forall ws, Forall (fun t => free_of p t = true) ws ->
                         free_of p (join_with " " ws) = true).
  { induction 1 as [|w ws Hw Hws IH]; [reflexivity|].
    destruct ws as [|w' ws']; [exact Hw|].
    change (join_with " " (w :: w' :: ws')) with (w ++ " " ++ join_with " " (w' :: ws')).
    rewrite !free_of_app, Hw, IH. cbn [andb]. unfold free_of. cbn. now rewrite Ps. }
  apply J. apply Forall_forall. intros t Ht.
  destruct (clean_tags_spec raw []) as (_ & F & _).
  destruct (F t Ht) as (_ & r & Hr & _ & ->).
  rewrite Forall_forall in Hraw. pose proof (trim_keeps_free p r (Hraw r Hr)) as Fr.
  unfold with_hash. destruct (hashed (trim r)); [exact Fr|].
  rewrite free_of_cons, Ph, Fr. reflexivity.
Qed.

(** X19: [add] with a URL, a title and tags that hold no tab and no newline, on
    a log of complete lines (or none yet) and a date of the year 1000 or
    later: the record is appended, the command prints it and returns 0, and
    the log then loads as before with that one record more at its end, its
    kind being the one the rules file gives the URL. *)
Theorem cmd_add_then_load (compile : string -> option regex) (rules : option string)
    (now : sys_days) (inbox : option string) (a : Args) (d : sys_days) :
  match inbox with Some L => complete_lines L = true | None => True end ->
  free_of (Ascii.eqb tab) (arg_url a) = true -> free_of (Ascii.eqb nl) (arg_url a) = true ->
  free_of (Ascii.eqb tab) (addTitle a) = true -> free_of (Ascii.eqb nl) (addTitle a) = true ->
  Forall (fun t => free_of (Ascii.eqb tab) t = true /\ free_of (Ascii.eqb nl) t = true)
         (addTags a) ->
  parseISODate (match addDateISO a with Some s => s | None => todayISO now end) = Some d ->
  1000 <= ymd_year (civil_from_days d) ->
  let r := MkRec d (detectKind (loadRules compile rules) (arg_url a)) (arg_url a)
                 (addTitle a) (normalizeTagsForStorage (addTags a)) in
  exists inbox',
    cmd_add (loadRules compile rules) now true inbox a
    = Some (0, Some inbox', "Added: " ++ list_line r)
    /\ loadInbox now (Some inbox') = (loadInbox now inbox ++ [r])%list.
Proof.
  intros HL Ut Un Tt Tn Hg Hd Hy r.
  set (L := match inbox with Some c => c | None => "" end).
  exists (L ++ inbox_line r ++ String nl ""). split.
  - unfold cmd_add. cbv zeta. rewrite Hd. unfold appendInbox. fold r. fold L.
    rewrite list_line_inbox_line. unfold inbox_line. cbn [joinTabs].
    rewrite !append_assoc. cbn [append]. rewrite !append_assoc. cbn [append].
    rewrite !append_assoc. cbn [append]. rewrite !append_assoc. reflexivity.
  - destruct (detectKind_loadRules_free compile rules (arg_url a)) as [Kt Kn].
    assert (Gt : free_of (Ascii.eqb tab) (normalizeTagsForStorage (addTags a)) = true).
    { apply normalizeTagsForStorage_free; [reflexivity|reflexivity|].
      eapply Forall_impl; [|exact Hg]. now intros t [H _]. }
    assert (Gn : free_of (Ascii.eqb nl) (normalizeTagsForStorage (addTags a)) = true).
    { apply normalizeTagsForStorage_free; [reflexivity|reflexivity|].
      eapply Forall_impl; [|exact Hg]. now intros t [_ H]. }
    pose proof (parseISODate_year_range _ _ Hd) as Yr.
    assert (Hs : storable r).
    { unfold storable, text_fields_free. cbn [kind url title tags date r].
      rewrite Kt, Kn, Ut, Un, Tt, Tn, Gt, Gn. split; [reflexivity|]. split; [reflexivity|].
      rewrite (fmtDate_parseISODate _ d Hd Hy), Hd. discriminate. }
    destruct (inbox_line_free_nl r Hs) as [Fn Hne].
    assert (HL' : complete_lines L = true).
    { unfold L. destruct inbox; [exact HL|reflexivity]. }
    cbn [loadInbox]. rewrite (getlines_append_line L _ HL' Fn Hne), load_lines_app.
    cbn [load_lines].
    destruct Hs as (Ht & _ & Hp). rewrite (load_line_inbox_line now r Ht Hp).
    f_equal. unfold L. destruct inbox; reflexivity.
Qed.

Lemma cmd_add_then_load_witness :
  let compile := fun p : string => if String.eqb p "x" then Some (RChar "x") else None in
  let rules := Some ("x" ++ String tab ("letter" ++ String nl "")) in
  let a := MkArgs "add" "https://example.org/box" ["rust"; "#cpp"] "A box"
                  (Some "2024-01-02") "" in
  exists inbox',
    cmd_add (loadRules compile rules) 0 true None a
    = Some (0, Some inbox',
            "Added: " ++ list_line (MkRec (days_from_civil 2024 1 2) "letter"
                                         "https://example.org/box" "A box" "#rust #cpp"))
    /\ loadInbox 0 (Some inbox')
       = [MkRec (days_from_civil 2024 1 2) "letter" "https://example.org/box" "A box"
                "#rust #cpp"].
Proof.
  cbv zeta.
  refine (cmd_add_then_load
            (fun p : string => if String.eqb p "x" then Some (RChar "x") else None)
            (Some ("x" ++ String tab ("letter" ++ String nl "")))
            0 None
            (MkArgs "add" "https://example.org/box" ["rust"; "#cpp"] "A box"
                    (Some "2024-01-02") "")
            (days_from_civil 2024 1 2) I eq_refl eq_refl eq_refl eq_refl _ eq_refl _).
  - repeat constructor.
  - vm_compute. discriminate.
Defined.

(** *** Clearing the inbox: the other files, and two runs *)

Lemma append_same_length (s1 s2 t : string) :
  String.length s1 = String.length s2 -> s1 ++ t = s2 ++ t -> s1 = s2.
Proof.
  revert s2. induction s1 as [|c s1 IH]; intros [|c2 s2] L E; try discriminate L.
  - reflexivity.
  - cbn [append] in E. injection E as -> E. f_equal. apply IH; [|exact E].
    cbn [String.length] in L. now injection L.
Qed.

Lemma append_inj_l (s1 s2 t : string) : s1 ++ t = s2 ++ t -> s1 = s2.
Proof.
  intros E. apply (append_same_length s1 s2 t); [|exact E].
  pose proof (f_equal String.length E) as L. rewrite !length_app in L.
  apply Nat.add_cancel_r in L. exact L.
Qed.

Lemma archivePath_stamps (home s1 s2 : string) (a : Args) :
  s1 <> s2 -> path_eqb (archivePath home s1 a) (archivePath home s2 a) = false.
Proof.
  intros Hne. unfold path_eqb, archivePath. cbn [name dir].
  apply andb_false_iff. right. apply String.eqb_neq. intros E.
  cbn [append] in E. injection E as E. apply append_inj_l in E. contradiction.
Qed.

(** X20: [clear-inbox] touches two files at most, the inbox and the archive of
    this run: every other file is as it was; a run that throws changes
    nothing; without an inbox no archive is written; and after a run that
    exits with 0 and could open the inbox, the inbox exists and loads no
    record. *)
Theorem cmd_clear_inbox_frame
    (home stamp : string) (f : Faults) (a : Args) (fs : FS) :
  let res := cmd_clear_inbox home stamp f a fs in
  (forall p, path_eqb p (inboxPath home) = false ->
             path_eqb p (archivePath home stamp a) = false -> snd res p = fs p)
  /\ (fst res = Thrown -> forall p, snd res p = fs p)
  /\ (fs (inboxPath home) = None ->
      snd res (archivePath home stamp a) = fs (archivePath home stamp a))
  /\ (fst res = Exit 0 -> open_ok f = true ->
      snd res (inboxPath home) = Some "" /\ loadInbox 0 (snd res (inboxPath home)) = []).
Proof.
  cbv zeta. destruct (archive_is_not_inbox home stamp a) as [Hia Hai].
  assert (T : forall g p, path_eqb p (inboxPath home) = false ->
                          truncate_inbox f home g p = g p).
  { intros g p Hp. unfold truncate_inbox. destruct (open_ok f); [|reflexivity].
    now rewrite fs_set_other. }
  assert (T0 : forall g, open_ok f = true -> truncate_inbox f home g (inboxPath home) = Some "").
  { intros g Ho. unfold truncate_inbox. rewrite Ho. apply fs_set_same. }
  unfold cmd_clear_inbox.
  destruct (home_dir_ok f); cbn [negb].
  2:{ cbn [fst snd]. repeat split; auto; discriminate. }
  destruct (fs (inboxPath home)) as [content|] eqn:Hin.
  2:{ cbn [fst snd]. split; [|split; [|split]].
      - intros p Hp _. now apply T.
      - discriminate.
      - intros _. now apply T.
      - intros _ Ho. rewrite (T0 fs Ho). now split. }
  destruct (archive_dir_ok f); cbn [negb].
  2:{ cbn [fst snd]. split; [|split; [|split]]; auto; discriminate. }
  destruct (rename_ok f).
  - cbn [fst snd]. split; [|split; [|split]].
    + intros p Hp Hq. rewrite (T _ p Hp). now rewrite !fs_set_other.
    + discriminate.
    + discriminate.
    + intros _ Ho. rewrite (T0 _ Ho). now split.
  - destruct (copy_file f) as [|l]; cbn [fst snd].
    + split; [|split; [|split]].
      * intros p Hp Hq. rewrite (T _ p Hp). now rewrite fs_set_other.
      * discriminate.
      * discriminate.
      * intros _ Ho. rewrite (T0 _ Ho). now split.
    + split; [|split; [|split]].
      * intros p Hp Hq. now rewrite fs_set_other.
      * discriminate.
      * discriminate.
      * discriminate.
Qed.

(** X21: two runs of [clear-inbox] one after the other, nothing failing: the
    inbox is empty, the archive of the second run holds the empty inbox, and
    the archive of the first run holds the records when the two runs have
    different time stamps; with one time stamp, that of one second, the second
    run writes over the archive of the first, and the records are in no file
    of the two. *)
Theorem cmd_clear_inbox_twice
    (home stamp1 stamp2 : string) (a : Args) (fs : FS) (content : string) :
  fs (inboxPath home) = Some content ->
  let fs1 := snd (cmd_clear_inbox home stamp1 no_faults a fs) in
  let res := cmd_clear_inbox home stamp2 no_faults a fs1 in
  fst res = Exit 0
  /\ snd res (inboxPath home) = Some ""
  /\ snd res (archivePath home stamp2 a) = Some ""
  /\ (stamp1 <> stamp2 -> snd res (archivePath home stamp1 a) = Some content)
  /\ (stamp1 = stamp2 -> snd res (archivePath home stamp1 a) = Some "").
Proof.
  intros Hin. cbv zeta.
  destruct (archive_is_not_inbox home stamp1 a) as [Hia1 Hai1].
  destruct (archive_is_not_inbox home stamp2 a) as [Hia2 Hai2].
  assert (E1 : snd (cmd_clear_inbox home stamp1 no_faults a fs)
               = fs_set (inboxPath home) (Some "")
                   (fs_set (archivePath home stamp1 a) (Some content)
                      (fs_set (inboxPath home) None fs))).
  { unfold cmd_clear_inbox. cbn [no_faults home_dir_ok archive_dir_ok rename_ok negb].
    rewrite Hin. reflexivity. }
  rewrite E1. unfold cmd_clear_inbox.
  cbn [no_faults home_dir_ok archive_dir_ok rename_ok negb].
  rewrite fs_set_same. cbn [fst snd]. unfold truncate_inbox. cbn [no_faults open_ok].
  split; [reflexivity|]. split; [apply fs_set_same|]. split.
  - rewrite fs_set_other by exact Hai2. apply fs_set_same.
  - split.
    + intros Hne. rewrite fs_set_other by exact Hai1.
      rewrite fs_set_other by (apply archivePath_stamps; exact Hne).
      rewrite fs_set_other by exact Hai1. rewrite fs_set_other by exact Hai1.
      apply fs_set_same.
    + intros <-. rewrite fs_set_other by exact Hai1. apply fs_set_same.
Qed.

Lemma cmd_clear_inbox_twice_witness :
  let fs : FS := fun p => if path_eqb p (inboxPath ".") then Some "2024-01-01" else None in
  let a := MkArgs "clear-inbox" "" [] "" None "" in
  let fs1 := snd (cmd_clear_inbox "." "20240102-030405" no_faults a fs) in
  let res := cmd_clear_inbox "." "20240102-030405" no_faults a fs1 in
  fs1 (archivePath "." "20240102-030405" a) = Some "2024-01-01"
  /\ snd res (archivePath "." "20240102-030405" a) = Some "".
Proof.
  cbv zeta. split; [reflexivity|].
  exact (proj2 (proj2 (proj2 (proj2
           (cmd_clear_inbox_twice "." "20240102-030405" "20240102-030405"
              (MkArgs "clear-inbox" "" [] "" None "")
              (fun p => if path_eqb p (inboxPath ".") then Some "2024-01-01" else None)
              "2024-01-01" eq_refl)))) eq_refl).
Defined.

(** *** The rows of a digest *)

Lemma parsed_day_ok (s : string) (z : sys_days) : parseISODate s = Some z -> sys_days_ok z.
Proof.
  intros P. pose proof (parseISODate_year_range s z P) as Y.
  pose proof (day_in_its_year z) as D. cbv zeta in D.
  pose proof (jan1_le 0 _ (proj1 Y)) as L.
  pose proof (jan1_le (ymd_year (civil_from_days z) + 1) 10000 ltac:(lia)) as U.
  change (days_from_civil 0 1 1) with (-719528) in L.
  change (days_from_civil 10000 1 1) with 2932897 in U.
  unfold sys_days_ok. lia.
Qed.

Lemma loaded_day_ok (now : sys_days) (inbox : option string) (r : Rec) :
  In r (loadInbox now inbox) -> sys_days_ok (date r).
Proof.
  intros Hr. destruct inbox as [content|]; [|destruct Hr]. cbn [loadInbox] in Hr.
  pose proof (load_lines_clean now (getlines content)
                (getlines_from_free_lines content "" eq_refl)) as F.
  rewrite Forall_forall in F. destruct (F r Hr) as (_ & _ & s & P).
  now apply (parsed_day_ok s).
Qed.

(** The days of the week that [weekBounds] gives are the days whose ISO week
    is that one, when the week exists. *)
Lemma in_week_bounds (y w : Z) (z : sys_days) :
  sys_days_ok z ->
  (forall k, 0 <= k <= 6 -> isoWeekFromDate (iw_monday (weekBounds y w) + k) = weekBounds y w) ->
  iw_monday (weekBounds y w) <= z <= iw_sunday (weekBounds y w)
  <-> iw_year (isoWeekFromDate z) = y /\ iw_week (isoWeekFromDate z) = w.
Proof.
  intros Hz Hk. split.
  - intros Hb. change (iw_sunday (weekBounds y w)) with (iw_monday (weekBounds y w) + 6) in Hb.
    pose proof (Hk (z - iw_monday (weekBounds y w)) ltac:(lia)) as E.
    replace (iw_monday (weekBounds y w) + (z - iw_monday (weekBounds y w))) with z in E by lia.
    rewrite E. now split.
  - intros [<- <-]. rewrite (weekBounds_isoWeekFromDate z Hz).
    destruct (same_week_days z 0 ltac:(lia)) as (_ & _ & _ & _ & Hb). exact Hb.
Qed.

(** X22: the rows of a digest.  Without [--start] and [--end] together, the
    rows are the records of the inbox whose ISO week is the week asked for:
    that of [--week], for a year from 0 to 9999, as [parseISOWeekStr] gives
    it, and a week from 1 to 52, or else that of today. *)
Theorem digest_rows_of_week
    (std_sort : (Rec -> Rec -> bool) -> list Rec -> list Rec)
    (now : sys_days) (inbox : option string) (a : DigestArgs) (r : Rec) :
  sorts_by_key std_sort ->
  sys_days_ok now ->
  start a = None \/ end_ a = None ->
  match week a with
  | Some (y, w) => 0 <= y <= 9999 /\ 1 <= w <= 52
  | None => True
  end ->
  let yw := match week a with
            | Some yw => yw
            | None => (iw_year (isoWeekFromDate now), iw_week (isoWeekFromDate now))
            end in
  In r (digest_rows std_sort now inbox a)
  <-> In r (loadInbox now inbox)
      /\ iw_year (isoWeekFromDate (date r)) = fst yw
      /\ iw_week (isoWeekFromDate (date r)) = snd yw.
Proof.
  intros Hs Hnow Hse Hw. cbv zeta.
  set (yw := match week a with
             | Some yw => yw
             | None => (iw_year (isoWeekFromDate now), iw_week (isoWeekFromDate now))
             end).
  assert (HR : fst (computeRange now a)
               = (iw_monday (weekBounds (fst yw) (snd yw)),
                  iw_sunday (weekBounds (fst yw) (snd yw)))).
  { unfold computeRange, yw.
    assert (E : match start a, end_ a with
                | Some s, Some e => None
                | _, _ => Some tt
                end = Some tt).
    { destruct Hse as [-> | ->]; [reflexivity|]. now destruct (start a). }
    destruct (start a) as [s|]; [destruct (end_ a) as [e|]; [discriminate|]|];
      (destruct (week a) as [[y w]|]; [reflexivity|];
       cbn [fst snd]; now rewrite (weekBounds_isoWeekFromDate now Hnow)). }
  assert (HK : forall k, 0 <= k <= 6 ->
                 isoWeekFromDate (iw_monday (weekBounds (fst yw) (snd yw)) + k)
                 = weekBounds (fst yw) (snd yw)).
  { intros k Hk. unfold yw. destruct (week a) as [[y w]|].
    - cbn [fst snd]. apply week_of_bounds_days; lia.
    - cbn [fst snd]. rewrite (weekBounds_isoWeekFromDate now Hnow).
      now destruct (same_week_days now k Hk) as [E _]. }
  unfold digest_rows. rewrite HR. unfold filterByDateRange.
  destruct (Hs date (filter (fun r => (iw_monday (weekBounds (fst yw) (snd yw)) <=? date r)
                                     && (date r <=? iw_sunday (weekBounds (fst yw) (snd yw))))
                            (loadInbox now inbox))) as [Hp _].
  split.
  - intros Hr. apply (Permutation_in _ (Permutation_sym Hp)) in Hr.
    apply filter_In in Hr as [Hr Hc]. apply andb_true_iff in Hc as [H1 H2].
    apply Z.leb_le in H1, H2. split; [exact Hr|].
    apply (in_week_bounds _ _ _ (loaded_day_ok now inbox r Hr) HK). lia.
  - intros (Hr & Hy & Hwk). apply (Permutation_in _ Hp). apply filter_In. split; [exact Hr|].
    pose proof (proj2 (in_week_bounds _ _ _ (loaded_day_ok now inbox r Hr) HK) (conj Hy Hwk))
      as [H1 H2].
    apply andb_true_iff. split; now apply Z.leb_le.
Qed.

Lemma digest_rows_of_week_witness :
  let inbox := Some ("2024-01-01" ++ String nl ("2024-01-08" ++ String nl "")) in
  let a := MkDigestArgs false false false false (Some (2024, 2)) None None "" in
  sys_days_ok 0
  /\ (In (MkRec (days_from_civil 2024 1 8) "link" "" "" "")
         (digest_rows sort_behind 0 inbox a)
      <-> In (MkRec (days_from_civil 2024 1 8) "link" "" "" "") (loadInbox 0 inbox)
          /\ iw_year (isoWeekFromDate (days_from_civil 2024 1 8)) = 2024
          /\ iw_week (isoWeekFromDate (days_from_civil 2024 1 8)) = 2).
Proof.
  cbv zeta. split; [unfold sys_days_ok; lia|].
  apply (digest_rows_of_week sort_behind 0
           (Some ("2024-01-01" ++ String nl ("2024-01-08" ++ String nl "")))
           (MkDigestArgs false false false false (Some (2024, 2)) None None "")
           (MkRec (days_from_civil 2024 1 8) "link" "" "" "")).
  - exact sort_behind_contract.
  - unfold sys_days_ok; lia.
  - now left.
  - cbn. lia.
Defined.

(** X23: a range whose end is before its start holds no record. *)
Theorem filterByDateRange_empty_range
    (std_sort : (Rec -> Rec -> bool) -> list Rec -> list Rec)
    (all : list Rec) (a b : sys_days) :
  sorts_by_key std_sort -> b < a -> filterByDateRange std_sort all a b = [].
Proof.
  intros Hs Hab. unfold filterByDateRange.
  assert (E : filter (fun r => (a <=? date r) && (date r <=? b)) all = []).
  { induction all as [|r all IH]; [reflexivity|]. cbn [filter].
    destruct (Z.leb_spec a (date r)); destruct (Z.leb_spec (date r) b); cbn [andb];
      try exact IH. lia. }
  rewrite E. destruct (Hs date []) as [Hp _]. now apply Permutation_nil in Hp.
Qed.

Lemma filterByDateRange_empty_range_witness :
  filterByDateRange sort_behind [MkRec 10 "a" "u" "" ""] 11 9 = [].
Proof. apply filterByDateRange_empty_range; [exact sort_behind_contract|lia]. Defined.

(** *** The domain of a URL *)

Lemma until_slash_free (s : string) : free_of (Ascii.eqb slash) (until_slash s) = true.
Proof.
  induction s as [|c s IH]; [reflexivity|]. cbn [until_slash].
  destruct (Ascii.eqb c "/") eqn:E; [reflexivity|].
  rewrite free_of_cons, IH. unfold slash. rewrite Ascii.eqb_sym, E. reflexivity.
Qed.

Lemma skip_slashes_head (u : string) :
  skip_slashes u = ""
  \/ exists c r, skip_slashes u = String c r /\ Ascii.eqb c "/" = false.
Proof.
  induction u as [|c u IH]; [now left|]. cbn [skip_slashes].
  destruct (Ascii.eqb c "/") eqn:E; [exact IH|]. right. now exists c, u.
Qed.

Lemma until_slash_host (host rest : string) :
  free_of (Ascii.eqb slash) host = true ->
  is_empty rest = true \/ prefix "/" rest = true ->
  until_slash (host ++ rest) = host.
Proof.
  intros F R. induction host as [|c host IH].
  - cbn [append]. destruct rest as [|c r]; [reflexivity|].
    destruct R as [R|R]; [discriminate|]. cbn [prefix] in R. cbn [until_slash].
    destruct (ascii_dec "/" c) as [<-|]; [reflexivity|discriminate].
  - rewrite free_of_cons in F. apply andb_true_iff in F as [Fc F].
    apply negb_true_iff in Fc. unfold slash in Fc. rewrite Ascii.eqb_sym in Fc.
    cbn [append until_slash]. rewrite Fc. f_equal. now apply IH.
Qed.

Lemma prefix_nocase_app (p s t x : string) :
  prefix_nocase p s = Some t -> prefix_nocase p (s ++ x) = Some (t ++ x).
Proof.
  revert s. induction p as [|a p IH]; intros s H.
  - cbn in H. injection H as <-. reflexivity.
  - destruct s as [|c s]; [discriminate|]. cbn [prefix_nocase append] in *.
    destruct (Ascii.eqb (tolower a) (tolower c)); [now apply IH|discriminate].
Qed.

Lemma prefix_nocase_split (p1 p2 s : string) :
  prefix_nocase (p1 ++ p2) s
  = match prefix_nocase p1 s with Some t => prefix_nocase p2 t | None => None end.
Proof.
  revert s. induction p1 as [|a p1 IH]; intros s; [reflexivity|].
  destruct s as [|c s]; cbn [append prefix_nocase]; [reflexivity|].
  destruct (Ascii.eqb (tolower a) (tolower c)); [apply IH|reflexivity].
Qed.

Lemma scheme_then (sch x : string) :
  is_scheme sch = true ->
  (match prefix_nocase "https://" (sch ++ x) with
   | Some r => Some r
   | None => prefix_nocase "http://" (sch ++ x)
   end) = Some x
  /\ exists c r, sch = String c r /\ Ascii.eqb c "/" = false.
Proof.
  unfold is_scheme. intros H. split.
  - destruct (prefix_nocase "https://" sch) as [r|] eqn:E1.
    + destruct r; [|discriminate]. now rewrite (prefix_nocase_app _ _ _ x E1).
    + destruct (prefix_nocase "http://" sch) as [r|] eqn:E2; [|discriminate].
      destruct r; [|discriminate].
      rewrite (prefix_nocase_app _ _ _ x E2).
      change "https://" with ("http" ++ "s://") in E1 |- *.
      change "http://" with ("http" ++ "://") in E2.
      rewrite prefix_nocase_split in E1, E2 |- *.
      destruct (prefix_nocase "http" sch) as [t|] eqn:E4; [|discriminate].
      rewrite (prefix_nocase_app _ _ _ x E4).
      destruct t as [|c t]; [discriminate|]. cbn [append prefix_nocase] in *.
      destruct (Ascii.eqb (tolower ":") (tolower c)) eqn:Ec; [|discriminate].
      apply Ascii.eqb_eq in Ec. rewrite <- Ec. reflexivity.
  - destruct sch as [|c r].
    + cbn in H. discriminate.
    + exists c, r. split; [reflexivity|].
      destruct (ascii_dec c "/") as [->|Hne]; [|now apply Ascii.eqb_neq].
      cbn in H. discriminate.
Qed.

(** X24: the domain [urlDomain] gives: a URL of slashes only, or empty, is given
    back as it is; otherwise the domain is not empty and holds no slash; and
    for a scheme [http://] or [https://], in any case of letters, followed by
    a host without slash and then nothing or a path, the domain is the
    host. *)
Theorem urlDomain_host (u : string) :
  (skip_slashes u = "" -> urlDomain u = u)
  /\ (skip_slashes u <> "" ->
      urlDomain u <> "" /\ free_of (Ascii.eqb slash) (urlDomain u) = true)
  /\ (forall sch host rest,
        is_scheme sch = true -> host <> "" -> free_of (Ascii.eqb slash) host = true ->
        is_empty rest = true \/ prefix "/" rest = true ->
        u = sch ++ host ++ rest -> urlDomain u = host).
Proof.
  split; [|split].
  - intros E. unfold urlDomain. cbv zeta. now rewrite E.
  - intros Hne. unfold urlDomain. cbv zeta.
    destruct (skip_slashes_head u) as [E|(c & r & E & Hc)]; [contradiction|].
    rewrite E. cbn [is_empty].
    assert (N : until_slash (String c r) <> "").
    { cbn [until_slash]. rewrite Hc. discriminate. }
    destruct (match prefix_nocase "https://" (String c r) with
              | Some r0 => Some r0
              | None => prefix_nocase "http://" (String c r)
              end) as [t|].
    + destruct (is_empty (until_slash t)) eqn:Et.
      * split; [exact N|apply until_slash_free].
      * split; [|apply until_slash_free]. intros Z. now rewrite Z in Et.
    + split; [exact N|apply until_slash_free].
  - intros sch host rest Hs Hh Fh Hr ->.
    destruct (scheme_then sch (host ++ rest) Hs) as (A & c & r & -> & Hc).
    unfold urlDomain. cbv zeta. cbn [append skip_slashes]. rewrite Hc.
    cbn [is_empty]. cbn [append] in A. rewrite A.
    rewrite (until_slash_host host rest Fh Hr).
    destruct host; [contradiction|reflexivity].
Qed.

(** *** Tags as displayed *)

Lemma toupper_facts (c : ascii) :
  toupper (toupper c) = toupper c
  /\ isspace (toupper c) = isspace c
  /\ Ascii.eqb (toupper c) hash = Ascii.eqb c hash.
Proof. destruct c as [[] [] [] [] [] [] [] []]; vm_compute; repeat split. Qed.

Lemma normalizeTagDisplayOne_body (t : string) :
  normalizeTagDisplayOne t
  = match trim t with
    | EmptyString => EmptyString
    | String c r => if Ascii.eqb c hash then String hash (display_body r)
                    else display_body (String c r)
    end.
Proof.
  unfold normalizeTagDisplayOne, display_body, capitalized. cbv zeta.
  destruct (trim t) as [|c r]; [reflexivity|].
  destruct (Ascii.eqb c hash); cbv iota.
  - destruct (isAllCapsWord r); [reflexivity|]. destruct r; reflexivity.
  - destruct (isAllCapsWord (String c r)); reflexivity.
Qed.

Lemma display_body_idem (s : string) : display_body (display_body s) = display_body s.
Proof.
  unfold display_body. destruct (isAllCapsWord s) eqn:E; [now rewrite E|].
  destruct (isAllCapsWord (capitalized s)); [reflexivity|].
  destruct s as [|c r]; [reflexivity|]. cbn [capitalized].
  now rewrite (proj1 (toupper_facts c)).
Qed.

Lemma display_body_cons (c : ascii) (r : string) :
  exists c', display_body (String c r) = String c' r
             /\ isspace c' = isspace c /\ Ascii.eqb c' hash = Ascii.eqb c hash.
Proof.
  unfold display_body. destruct (isAllCapsWord (String c r)).
  - exists c. repeat split.
  - exists (toupper c). cbn [capitalized].
    destruct (toupper_facts c) as (_ & H1 & H2). repeat split; assumption.
Qed.

(** A trimmed string stays trimmed when its first character is replaced by one
    that is white space exactly when the first was. *)
Lemma drop_trailing_space_head (c c' : ascii) (r : string) :
  isspace c' = isspace c ->
  drop_trailing_space (String c r) = String c r ->
  drop_trailing_space (String c' r) = String c' r.
Proof.
  intros Hc. cbn [drop_trailing_space]. rewrite Hc.
  destruct (is_empty (drop_trailing_space r) && isspace c); [discriminate|].
  intros H. injection H as H. now rewrite H.
Qed.

Lemma trim_fixed (c : ascii) (r : string) :
  isspace c = false -> drop_trailing_space (String c r) = String c r ->
  trim (String c r) = String c r.
Proof. intros Hc Hd. unfold trim. cbn [skip_leading_space]. now rewrite Hc. Qed.

Lemma trim_parts (t : string) (c : ascii) (r : string) :
  trim t = String c r ->
  isspace c = false /\ drop_trailing_space (String c r) = String c r.
Proof.
  intros E. split.
  - destruct (trim_head t) as [E0|(c0 & r0 & E0 & Hc)]; rewrite E in E0; [discriminate|].
    now injection E0 as -> _.
  - rewrite <- E. unfold trim. apply drop_trailing_space_idem.
Qed.

(** X25: the display form of a tag: applying [normalizeTagDisplayOne] twice
    gives what it gives once; the form is empty exactly for a blank tag, and
    it starts with [#] exactly when the trimmed tag does. *)
Theorem normalizeTagDisplayOne_idempotent (t : string) :
  normalizeTagDisplayOne (normalizeTagDisplayOne t) = normalizeTagDisplayOne t
  /\ (normalizeTagDisplayOne t = "" <-> blank t = true)
  /\ hashed (normalizeTagDisplayOne t) = hashed (trim t).
Proof.
  rewrite <- is_empty_trim. rewrite (normalizeTagDisplayOne_body t).
  destruct (trim t) as [|c r] eqn:E.
  - split; [reflexivity|]. split; [now split|reflexivity].
  - destruct (trim_parts t c r E) as [Hc Hd].
    destruct (Ascii.eqb c hash) eqn:Eh.
    + apply Ascii.eqb_eq in Eh. subst c. split; [|split].
      * rewrite normalizeTagDisplayOne_body.
        assert (T : trim (String hash (display_body r)) = String hash (display_body r)).
        { apply trim_fixed; [reflexivity|].
          cbn [drop_trailing_space] in Hd |- *. change (isspace hash) with false in *.
          rewrite andb_false_r in Hd |- *. injection Hd as Hd. f_equal.
          destruct r as [|c r]; [reflexivity|].
          destruct (display_body_cons c r) as (c' & -> & Bs & _).
          now apply (drop_trailing_space_head c). }
        rewrite T. change (Ascii.eqb hash hash) with true. cbv iota.
        now rewrite display_body_idem.
      * cbn [is_empty]. split; discriminate.
      * reflexivity.
    + destruct (display_body_cons c r) as (c' & Ed & Bs & Bh). rewrite Ed.
      split; [|split].
      * rewrite normalizeTagDisplayOne_body.
        rewrite (trim_fixed c' r); [|congruence|now apply (drop_trailing_space_head c)].
        rewrite Bh, Eh. rewrite <- Ed. apply display_body_idem.
      * cbn [is_empty]. split; discriminate.
      * cbn [hashed]. now rewrite Bh.
Qed.

(** *** One line for each record of a digest *)

Lemma free_of_weaken (p q : ascii -> bool) (s : string) :
  (forall c, q c = true -> p c = true) -> free_of p s = true -> free_of q s = true.
Proof.
  intros H. induction s as [|c s IH]; [reflexivity|].
  rewrite !free_of_cons. intros F. apply andb_true_iff in F as [Fc F].
  rewrite (IH F), andb_true_r. apply negb_true_iff in Fc. apply negb_true_iff.
  destruct (q c) eqn:E; [|reflexivity]. apply H in E. congruence.
Qed.

Lemma nl_is_space (c : ascii) : Ascii.eqb nl c = true -> isspace c = true.
Proof. intros E. apply Ascii.eqb_eq in E. now subst c. Qed.

Lemma join_with_free (p : ascii -> bool) (ws : list string) :
  p " "%char = false ->
  Forall (fun t => free_of p t = true) ws -> free_of p (join_with " " ws) = true.
Proof.
  intros Ps. induction 1 as [|w ws Hw Hws IH]; [reflexivity|].
  destruct ws as [|w' ws']; [exact Hw|].
  change (join_with " " (w :: w' :: ws')) with (w ++ " " ++ join_with " " (w' :: ws')).
  rewrite !free_of_app, Hw, IH. cbn [andb]. unfold free_of. cbn. now rewrite Ps.
Qed.

Lemma normalizeTagDisplayOne_free (w : string) :
  free_of isspace w = true -> free_of isspace (normalizeTagDisplayOne w) = true.
Proof.
  intros F. rewrite normalizeTagDisplayOne_body, (trim_free w F).
  destruct w as [|c r]; [reflexivity|].
  rewrite free_of_cons in F. apply andb_true_iff in F as [Fc Fr].
  destruct (Ascii.eqb c hash) eqn:Eh.
  - rewrite free_of_cons. change (isspace hash) with false. cbn [negb andb].
    destruct r as [|c1 r1]; [reflexivity|].
    destruct (display_body_cons c1 r1) as (c' & -> & Bs & _).
    rewrite free_of_cons in Fr |- *. now rewrite Bs.
  - destruct (display_body_cons c r) as (c' & -> & Bs & _).
    rewrite free_of_cons, Bs, Fc, Fr. reflexivity.
Qed.

Lemma skip_slashes_keeps_free (p : ascii -> bool) (s : string) :
  free_of p s = true -> free_of p (skip_slashes s) = true.
Proof.
  induction s as [|c s IH]; [reflexivity|]. intros F. cbn [skip_slashes].
  destruct (Ascii.eqb c "/"); [|exact F].
  rewrite free_of_cons in F. apply andb_true_iff in F as [_ F]. now apply IH.
Qed.

Lemma until_slash_keeps_free (p : ascii -> bool) (s : string) :
  free_of p s = true -> free_of p (until_slash s) = true.
Proof.
  induction s as [|c s IH]; [reflexivity|]. intros F. cbn [until_slash].
  rewrite free_of_cons in F. apply andb_true_iff in F as [Fc F].
  destruct (Ascii.eqb c "/"); [reflexivity|]. rewrite free_of_cons, Fc. now apply IH.
Qed.

Lemma prefix_nocase_keeps_free (p : ascii -> bool) (pre s t : string) :
  free_of p s = true -> prefix_nocase pre s = Some t -> free_of p t = true.
Proof.
  revert s. induction pre as [|a pre IH]; intros s F H.
  - cbn in H. now injection H as <-.
  - destruct s as [|c s]; [discriminate|]. cbn [prefix_nocase] in H.
    destruct (Ascii.eqb (tolower a) (tolower c)); [|discriminate].
    rewrite free_of_cons in F. apply andb_true_iff in F as [_ F]. now apply (IH s).
Qed.

Lemma urlDomain_keeps_free (p : ascii -> bool) (u : string) :
  free_of p u = true -> free_of p (urlDomain u) = true.
Proof.
  intros F. unfold urlDomain. cbv zeta.
  pose proof (skip_slashes_keeps_free p u F) as Fs.
  destruct (is_empty (skip_slashes u)); [exact F|].
  pose proof (until_slash_keeps_free p _ Fs) as Fu.
  destruct (prefix_nocase "https://" (skip_slashes u)) as [r|] eqn:E1.
  - destruct (is_empty (until_slash r)); [exact Fu|].
    apply until_slash_keeps_free. now apply (prefix_nocase_keeps_free p _ _ _ Fs E1).
  - destruct (prefix_nocase "http://" (skip_slashes u)) as [r|] eqn:E2; [|exact Fu].
    destruct (is_empty (until_slash r)); [exact Fu|].
    apply until_slash_keeps_free. now apply (prefix_nocase_keeps_free p _ _ _ Fs E2).
Qed.

Lemma recLineMarkdown_free (r : Rec) :
  free_of (Ascii.eqb nl) (kind r) = true -> free_of (Ascii.eqb nl) (url r) = true ->
  free_of (Ascii.eqb nl) (title r) = true ->
  free_of (Ascii.eqb nl) (recLineMarkdown r) = true.
Proof.
  intros Fk Fu Ft. unfold recLineMarkdown. cbv zeta.
  assert (Ftags : free_of (Ascii.eqb nl)
                    (match splitTags (tags r) with
                     | [] => ""
                     | _ :: _ => emdash ++ join_with " " (map normalizeTagDisplayOne
                                                            (splitTags (tags r)))
                     end) = true).
  { destruct (splitTags (tags r)) as [|w ws] eqn:E; [reflexivity|].
    rewrite free_of_app. apply andb_true_iff. split; [reflexivity|].
    apply join_with_free; [reflexivity|]. apply Forall_forall. intros t Ht.
    apply in_map_iff in Ht as (w0 & <- & Hw0).
    apply (free_of_weaken isspace); [exact nl_is_space|].
    apply normalizeTagDisplayOne_free.
    rewrite <- E in Hw0. unfold splitTags in Hw0.
    now destruct (splitTags_from_words (tags r) "" eq_refl w0 Hw0). }
  assert (Ftitle : free_of (Ascii.eqb nl)
                     (if is_empty (trim (title r)) then "" else emdash ++ trim (title r))
                   = true).
  { destruct (is_empty (trim (title r))); [reflexivity|].
    rewrite free_of_app. apply andb_true_iff. split; [reflexivity|].
    now apply trim_keeps_free. }
  rewrite !free_of_app. rewrite (urlDomain_keeps_free _ _ Fu), Fu, Fk, Ftitle, Ftags.
  reflexivity.
Qed.

(** X26: a record of the inbox is one line of a digest: the line
    [recLineMarkdown] writes for a record whose kind, URL and title hold no
    newline holds none itself, and starts as a list item; so the lines of the
    items written for records loaded from the inbox are those of the records,
    one each and in their order. *)
Theorem recLineMarkdown_one_line :
  (forall r, free_of (Ascii.eqb nl) (kind r) = true -> free_of (Ascii.eqb nl) (url r) = true ->
             free_of (Ascii.eqb nl) (title r) = true ->
             free_of (Ascii.eqb nl) (recLineMarkdown r) = true
             /\ prefix "- [" (recLineMarkdown r) = true)
  /\ (forall now inbox rows,
        (forall r, In r rows -> In r (loadInbox now inbox)) ->
        getlines (concat_str (map (fun r => recLineMarkdown r ++ String nl "") rows))
        = map recLineMarkdown rows).
Proof.
  split.
  - intros r Fk Fu Ft. split; [now apply recLineMarkdown_free|].
    assert (P : forall x, prefix "- [" ("- [" ++ x) = true) by (intros [|c x]; reflexivity).
    unfold recLineMarkdown. cbv zeta. apply P.
  - intros now inbox rows Hin. induction rows as [|r rows IH]; [reflexivity|].
    cbn [map concat_str]. rewrite append_assoc.
    assert (Hr : In r (loadInbox now inbox)) by (apply Hin; now left).
    destruct inbox as [content|]; [|destruct Hr]. cbn [loadInbox] in Hr.
    pose proof (load_lines_clean now (getlines content)
                  (getlines_from_free_lines content "" eq_refl)) as F.
    rewrite Forall_forall in F. destruct (F r Hr) as (_ & Hn & _).
    unfold text_fields_free in Hn.
    apply andb_true_iff in Hn as [Hn _]. apply andb_true_iff in Hn as [Hn F3].
    apply andb_true_iff in Hn as [F1 F2].
    unfold getlines. rewrite (getlines_from_free _ (recLineMarkdown_free r F1 F2 F3)).
    cbn [append getlines_from]. rewrite Ascii.eqb_refl. f_equal.
    apply IH. intros r' Hr'. apply Hin. now right.
Qed.

(** *** The rules file written on the first run *)

Lemma rules_of_lines_texts (compile : string -> option regex) (lines : list string) :
  rules_of_lines compile lines = compiled compile (rule_texts lines).
Proof.
  induction lines as [|line lines IH]; [reflexivity|].
  cbn [rules_of_lines rule_texts]. unfold rule_of_line, rule_text. cbv zeta.
  destruct (trim line) as [|c s]; [exact IH|].
  destruct (Ascii.eqb c hash); [exact IH|].
  destruct (_ <? _)%nat; [exact IH|].
  unfold compiled. cbn [flat_map fst snd].
  destruct (compile _); [cbn [app]; f_equal|]; exact IH.
Qed.

(** X27: the rules of a first run: the file written holds complete lines, and
    loading it gives one rule for each of its seven patterns that compiles,
    in the order of the file, the comment lines and the blank line giving
    none; when the file cannot be written there is no rule and every URL is an
    article. *)
Theorem ensureDefaultRulesFile_rules (compile : string -> option regex) (u : string) :
  loadRules compile (ensureDefaultRulesFile true None) = compiled compile default_rules
  /\ complete_lines default_rules_file = true
  /\ detectKind (loadRules compile (ensureDefaultRulesFile false None)) u = "article".
Proof.
  split; [|split; reflexivity].
  cbn [ensureDefaultRulesFile loadRules]. rewrite rules_of_lines_texts.
  apply (f_equal (compiled compile)). vm_compute. reflexivity.
Qed.

(** *** The command line of [add] *)

Lemma show_nonneg_short (y : Z) :
  0 <= y < 1000 -> (String.length (show_nonneg y) <= 3)%nat.
Proof.
  intros Hy.
  assert (D : forall k, 0 <= k <= 9 -> isdigit (digit_char k) = true)
    by (intros k Hk; apply (digit_char_cases k Hk)).
  assert (V : forall k, 0 <= k <= 9 -> digit_val (digit_char k) = k)
    by (intros k Hk; apply (digit_char_cases k Hk)).
  destruct (Z.eq_dec y 0) as [->|Hz]; [vm_compute; lia|].
  assert (C : y <= 9 \/ 10 <= y <= 99 \/ 100 <= y) by lia.
  destruct C as [C|[C|C]].
  - assert (E : show_nonneg (stoi (String (digit_char y) "")) = String (digit_char y) "").
    { apply show_nonneg_stoi.
      - unfold all_digits. cbn [list_ascii_of_string forallb]. rewrite D by lia. reflexivity.
      - eexists. eexists. split; [reflexivity|]. intros E. apply digit_char_zero in E; lia. }
    unfold stoi in E. cbn [stoi_from] in E. rewrite V in E by lia.
    replace (0 * 10 + y) with y in E by lia. rewrite E. cbn. lia.
  - destruct (digits2_sound y ltac:(lia)) as (Hd & Hv & _).
    assert (E : show_nonneg (stoi (digits2 y)) = digits2 y).
    { apply show_nonneg_stoi; [exact Hd|]. unfold digits2.
      eexists. eexists. split; [reflexivity|]. intros E.
      assert (1 <= y / 10 <= 9).
      { split; [apply Z.div_le_lower_bound; lia|].
        assert (y / 10 < 10) by (apply Z.div_lt_upper_bound; lia). lia. }
      apply digit_char_zero in E; lia. }
    rewrite Hv in E. rewrite E. cbn. lia.
  - set (g := String (digit_char (y / 100)) (String (digit_char (y / 10 mod 10))
                (String (digit_char (y mod 10)) ""))).
    assert (H2 : 1 <= y / 100 <= 9).
    { split; [apply Z.div_le_lower_bound; lia|].
      assert (y / 100 < 10) by (apply Z.div_lt_upper_bound; lia). lia. }
    assert (H1 : 0 <= y / 10 mod 10 <= 9) by
      (pose proof (Z.mod_pos_bound (y / 10) 10 ltac:(lia)); lia).
    assert (H0 : 0 <= y mod 10 <= 9) by
      (pose proof (Z.mod_pos_bound y 10 ltac:(lia)); lia).
    assert (Hd : all_digits g = true).
    { unfold all_digits, g. cbn [list_ascii_of_string forallb].
      rewrite !D by lia. reflexivity. }
    assert (Hv : stoi g = y).
    { unfold stoi, g. cbn [stoi_from]. rewrite !V by lia.
      clear. Z.to_euclidean_division_equations. lia. }
    assert (E : show_nonneg (stoi g) = g).
    { apply show_nonneg_stoi; [exact Hd|]. unfold g.
      eexists. eexists. split; [reflexivity|]. intros E.
      apply digit_char_zero in E; lia. }
    rewrite Hv in E. rewrite E. cbn. lia.
Qed.

(** The text of a date is read back exactly for the years 1000 to 9999. *)
Lemma fmtDate_readable (z : sys_days) :
  parseISODate (fmtDate z) = None <-> ~ (1000 <= ymd_year (civil_from_days z) <= 9999).
Proof.
  split.
  - intros N Hy. rewrite (date_read_back z Hy) in N. discriminate.
  - intros Hy. destruct (parseISODate (fmtDate z)) as [z'|] eqn:P; [|reflexivity].
    exfalso. apply Hy. clear Hy.
    pose proof (parseISODate_year_range _ _ P) as Yr.
    pose proof (parseISODate_fmtDate _ _ P) as ->.
    split; [|lia].
    destruct (Z.le_gt_cases 1000 (ymd_year (civil_from_days z))) as [L|L]; [exact L|].
    exfalso. unfold parseISODate in P.
    destruct (match_iso_date (fmtDate z)) as [[[gy gm] gd]|] eqn:M; [|discriminate].
    unfold match_iso_date in M.
    destruct (String.length (fmtDate z) =? 10)%nat eqn:Len;
      [|cbn [andb] in M; discriminate].
    apply Nat.eqb_eq in Len.
    destruct (civil_from_days_fields z) as [Hm Hd].
    destruct (digits2_sound (ymd_month (civil_from_days z)) ltac:(lia)) as (_ & _ & Sm).
    destruct (digits2_sound (ymd_day (civil_from_days z)) ltac:(lia)) as (_ & _ & Sd).
    unfold fmtDate in Len. cbv zeta in Len. rewrite Sm, Sd in Len.
    rewrite show_int_nonneg in Len by lia.
    pose proof (show_nonneg_short (ymd_year (civil_from_days z)) ltac:(lia)) as Sh.
    rewrite !length_app in Len. cbn [String.length digits2] in Len. lia.
Qed.

Lemma cmd_add_undefined (RULES : list Rule) (now : sys_days) (can_open : bool)
    (inbox : option string) (a : Args) :
  cmd_add RULES now can_open inbox a = None
  <-> parseISODate (match addDateISO a with Some s => s | None => todayISO now end) = None.
Proof.
  unfold cmd_add. cbv zeta.
  destruct (parseISODate _) as [d|]; [|now split].
  split; [|discriminate]. unfold appendInbox. destruct can_open; discriminate.
Qed.

Lemma add_options_keeps (n : nat) :
  forall rest a r, (List.length rest <= n)%nat ->
    add_options rest a = Parsed r -> date_stored a ->
    date_stored r /\ cmd r = cmd a /\ arg_url r = arg_url a.
Proof.
  induction n as [|n IH]; intros rest a r Hn H Ha.
  - destruct rest; [|cbn in Hn; lia]. cbn in H. injection H as <-. auto.
  - destruct rest as [|t rest']; [cbn in H; injection H as <-; auto|].
    cbn [add_options] in H. cbn [List.length] in Hn.
    destruct (String.eqb t "--title").
    + destruct rest' as [|v rest'']; [discriminate|]. cbn [List.length] in Hn.
      apply IH in H; [exact H|lia|exact Ha].
    + destruct (String.eqb t "--date").
      * destruct rest' as [|v rest'']; [discriminate|]. cbn [List.length] in Hn.
        destruct (parseISODate v) as [p|] eqn:P; [|discriminate].
        apply IH in H; [exact H|lia|]. unfold date_stored. cbn [addDateISO]. eauto.
      * apply IH in H; [exact H|lia|exact Ha].
Qed.

(** X28: [add] from its command line: the arguments [parseCLI] gives hold the
    URL given first, and a date that is the text [fmtDate] writes for a day of
    the years 0 to 9999; with such arguments [add] reads an empty result, which
    the program then dereferences, exactly when that year is below 1000, or,
    no date being given, when the year of today is not from 1000 to 9999. *)
Theorem parseCLI_add_date (args : list string) (a : Args) :
  parseCLI_add args = Parsed a ->
  cmd a = "add"
  /\ arg_url a = hd "" args
  /\ match addDateISO a with
     | Some s =>
         exists p, s = fmtDate p /\ 0 <= ymd_year (civil_from_days p) <= 9999
           /\ forall RULES now can_open inbox,
                cmd_add RULES now can_open inbox a = None
                <-> ymd_year (civil_from_days p) < 1000
     | None =>
         forall RULES now can_open inbox,
           cmd_add RULES now can_open inbox a = None
           <-> ~ (1000 <= ymd_year (civil_from_days now) <= 9999)
     end.
Proof.
  intros H. unfold parseCLI_add in H. destruct args as [|u rest]; [discriminate|].
  apply (add_options_keeps (List.length rest) rest _ a (le_n _)) in H; [|exact I].
  destruct H as (Hd & Hc & Hu). cbn [cmd arg_url] in Hc, Hu. cbn [hd].
  split; [exact Hc|]. split; [exact Hu|].
  pose proof (fun RULES now can_open inbox => cmd_add_undefined RULES now can_open inbox a)
    as U.
  unfold date_stored in Hd. destruct (addDateISO a) as [s|].
  - destruct Hd as (v & p & P & ->). exists p. split; [reflexivity|].
    pose proof (parseISODate_year_range v p P) as Yr. split; [exact Yr|].
    intros RULES now can_open inbox. rewrite U, fmtDate_readable. lia.
  - intros RULES now can_open inbox. rewrite U. apply fmtDate_readable.
Qed.

Lemma parseCLI_add_date_witness :
  let a := MkArgs "add" "https://example.org" ["old"; "#x"] "A title"
                  (Some "999-01-01") "" in
  parseCLI_add ["https://example.org"; "old"; "--date"; "0999-01-01"; "--title"; "A title";
                "#x"] = Parsed a
  /\ arg_url a = "https://example.org".
Proof.
  cbv zeta. split; [vm_compute; reflexivity|].
  exact (proj1 (proj2 (parseCLI_add_date
           ["https://example.org"; "old"; "--date"; "0999-01-01"; "--title"; "A title"; "#x"]
           (MkArgs "add" "https://example.org" ["old"; "#x"] "A title" (Some "999-01-01") "")
           ltac:(vm_compute; reflexivity)))).
Defined.
